(** * Veridex hidden-API finder: a shallow embedding of
      tools/veridex/hidden_api_finder.cc and the properties of its
      scanner ([CollectAccesses], [Run]) and report generator
      ([Dump], [DumpReferences]). *)

From Stdlib Require Import String Ascii List NArith Bool Lia.
From Stdlib Require Import Sorted OrdersEx DecimalString RelationClasses.
From Stdlib Require Import Permutation ZArith.
Import ListNotations.
Open Scope string_scope.

(** ** Ordering of [std::string]

    [std::less<std::string>] compares byte-wise (unsigned), a proper prefix
    being smaller; this is [String_as_OT.compare]. *)

Definition str_lt (a b : string) : Prop := String_as_OT.compare a b = Lt.

(** ** [std::set<std::string>] *)

(** Modelled from the spec: hidden_api_finder.h, which declares the member
    containers [classes_] and [strings_], is absent; the aggregator's
    containers iterate in lexicographic ascending key order.  A set is the
    list of its elements in iteration order. *)
Module StdSet.

Definition t := list string.

Definition empty : t := [].

(** [s.insert(x)]: no effect when [x] is already an element. *)
Fixpoint insert (x : string) (s : t) : t :=
  match s with
  | [] => [x]
  | y :: s' =>
      match String_as_OT.compare x y with
      | Lt => x :: s
      | Eq => s
      | Gt => y :: insert x s'
      end
  end.

Definition ok (s : t) : Prop := Sorted str_lt s.

End StdSet.

(** ** [std::map<std::string, V>] *)

(** Modelled from the spec: hidden_api_finder.h, which declares the member
    maps [method_locations_], [field_locations_] and
    [reflection_locations_], is absent; a map is the list of its entries
    in iteration (ascending key) order.  [DumpReferences] declares its own
    [std::map<std::string, size_t>]. *)
Module StdMap.

Section WithValue.
Context {V : Type}.

Definition t := list (string * V).

Definition empty : t := [].

Definition keys (m : t) : list string := map fst m.

(** [m.find(k)] *)
Fixpoint find (k : string) (m : t) : option V :=
  match m with
  | [] => None
  | (k', v) :: m' =>
      match String_as_OT.compare k k' with
      | Lt => None
      | Eq => Some v
      | Gt => find k m'
      end
  end.

(** [m.count(k)] as a boolean *)
Definition count (k : string) (m : t) : bool :=
  match find k m with Some _ => true | None => false end.

(** The effect of [m[k]] on the map: an absent key is inserted with a
    value-initialised ([dflt]) mapped value. *)
Fixpoint subscript (dflt : V) (k : string) (m : t) : t :=
  match m with
  | [] => [(k, dflt)]
  | (k', v) :: m' =>
      match String_as_OT.compare k k' with
      | Lt => (k, dflt) :: m
      | Eq => m
      | Gt => (k', v) :: subscript dflt k m'
      end
  end.

(** Writing through the reference [m[k]] returned for a present key. *)
Fixpoint modify (k : string) (f : V -> V) (m : t) : t :=
  match m with
  | [] => []
  | (k', v) :: m' =>
      match String_as_OT.compare k k' with
      | Lt => m
      | Eq => (k', f v) :: m'
      | Gt => (k', v) :: modify k f m'
      end
  end.

(** The value read through [m[k]]. *)
Definition at_ (dflt : V) (k : string) (m : t) : V :=
  match find k m with Some v => v | None => dflt end.

Definition ok (m : t) : Prop := Sorted str_lt (keys m).

End WithValue.

Arguments t : clear implicits.

End StdMap.

(** ** The bytecode unit as the scanner sees it *)

(** The opcodes named by the scanner's [switch]; every other opcode of
    [Instruction::Code] takes the [default] branch. *)
Inductive Code : Type :=
| CONST_STRING
| INVOKE_DIRECT | INVOKE_INTERFACE | INVOKE_STATIC | INVOKE_SUPER
| INVOKE_VIRTUAL
| INVOKE_DIRECT_RANGE | INVOKE_INTERFACE_RANGE | INVOKE_STATIC_RANGE
| INVOKE_SUPER_RANGE | INVOKE_VIRTUAL_RANGE
| IGET | IGET_WIDE | IGET_OBJECT | IGET_BOOLEAN | IGET_BYTE | IGET_CHAR
| IGET_SHORT
| IPUT | IPUT_WIDE | IPUT_OBJECT | IPUT_BOOLEAN | IPUT_BYTE | IPUT_CHAR
| IPUT_SHORT
| SGET | SGET_WIDE | SGET_OBJECT | SGET_BOOLEAN | SGET_BYTE | SGET_CHAR
| SGET_SHORT
| SPUT | SPUT_WIDE | SPUT_OBJECT | SPUT_BOOLEAN | SPUT_BYTE | SPUT_CHAR
| SPUT_SHORT
| OTHER_OPCODE (raw : N).

(** A call site: (owning unit, method index). *)
Record MethodReference : Type := mkRef {
  dex_file : N;
  index : N
}.

(** A decoded instruction: its opcode and what each operand accessor
    returns for it. *)
Record Instruction : Type := mkInst {
  Opcode : Code;
  VRegB_21c : N;
  VRegB_35c : N;
  VRegB_3rc : N;
  VRegC_22c : N
}.

Record DexInstructionPcPair : Type := mkPcPair {
  DexPc : N;
  Inst : Instruction
}.

(** [CodeItemInstructionAccessor]: the sequence the range-for walks and
    the declared size of the instruction array. *)
Record CodeItemInstructionAccessor : Type := mkCodes {
  insns : list DexInstructionPcPair;
  InsnsSizeInCodeUnits : N
}.

Record Method : Type := mkMethod {
  GetInstructions : CodeItemInstructionAccessor;
  GetReference : MethodReference
}.

Record ClassAccessor : Type := mkClass {
  GetDescriptor : string;
  GetMethods : list Method
}.

Record DexFile : Type := mkDex {
  NumTypeIds : N;
  GetTypeDescriptorView : N -> string;
  GetStringView : N -> string;
  GetClasses : list ClassAccessor
}.

Record VeridexResolver : Type := mkResolver {
  GetDexFile : DexFile
}.

Record ClassFilter : Type := mkFilter {
  Matches : string -> bool
}.

(** ** The policy classifier ([HiddenApi]) *)

Inductive SignatureSource : Type := UNKNOWN | BOOT | APP.

Definition SignatureSource_eqb (a b : SignatureSource) : bool :=
  match a, b with
  | UNKNOWN, UNKNOWN | BOOT, BOOT | APP, APP => true
  | _, _ => false
  end.

Record HiddenApi (ApiList : Type) : Type := mkHiddenApi {
  IsInBoot : string -> bool;
  GetSignatureSource : string -> SignatureSource;
  ShouldReport : string -> bool;
  GetApiList : string -> ApiList
}.

Arguments IsInBoot {ApiList}.
Arguments GetSignatureSource {ApiList}.
Arguments ShouldReport {ApiList}.
Arguments GetApiList {ApiList}.

(** ** Aggregation state: the data members of [HiddenApiFinder] *)

Record HiddenApiFinder : Type := mkFinder {
  classes_ : StdSet.t;
  strings_ : StdSet.t;
  reflection_locations_ : StdMap.t (list MethodReference);
  method_locations_ : StdMap.t (list MethodReference);
  field_locations_ : StdMap.t (list MethodReference)
}.

Definition empty_finder : HiddenApiFinder :=
  mkFinder StdSet.empty StdSet.empty StdMap.empty StdMap.empty StdMap.empty.

(** [m[name].push_back(ref)] *)
Definition push_back_at (name : string) (ref : MethodReference)
    (m : StdMap.t (list MethodReference)) : StdMap.t (list MethodReference) :=
  StdMap.modify name (fun v => (v ++ [ref])%list) (StdMap.subscript [] name m).

Definition classes_insert (name : string) (st : HiddenApiFinder) :=
  mkFinder (StdSet.insert name (classes_ st)) (strings_ st)
           (reflection_locations_ st) (method_locations_ st)
           (field_locations_ st).

Definition strings_insert (name : string) (st : HiddenApiFinder) :=
  mkFinder (classes_ st) (StdSet.insert name (strings_ st))
           (reflection_locations_ st) (method_locations_ st)
           (field_locations_ st).

Definition reflection_push (name : string) (ref : MethodReference)
    (st : HiddenApiFinder) :=
  mkFinder (classes_ st) (strings_ st)
           (push_back_at name ref (reflection_locations_ st))
           (method_locations_ st) (field_locations_ st).

Definition method_push (name : string) (ref : MethodReference)
    (st : HiddenApiFinder) :=
  mkFinder (classes_ st) (strings_ st) (reflection_locations_ st)
           (push_back_at name ref (method_locations_ st))
           (field_locations_ st).

Definition field_push (name : string) (ref : MethodReference)
    (st : HiddenApiFinder) :=
  mkFinder (classes_ st) (strings_ st) (reflection_locations_ st)
           (method_locations_ st)
           (push_back_at name ref (field_locations_ st)).

(** [name.find(' ') == std::string::npos] *)
Fixpoint has_space (s : string) : bool :=
  match s with
  | EmptyString => false
  | String c s' => if Ascii.eqb c " "%char then true else has_space s'
  end.

Definition find_space_is_npos (name : string) : bool := negb (has_space name).

(** [for (uint32_t i = from; i < from + n; ++i) body(i)] *)
Fixpoint for_count {S : Type} (n : nat) (i : N) (body : N -> S -> S)
    (st : S) : S :=
  match n with
  | O => st
  | Datatypes.S n' => for_count n' (N.succ i) body (body i st)
  end.

(** ** The scanner *)
Section Scanner.

Context {ApiList : Type}.
Variable hidden_api_ : HiddenApi ApiList.

(** Static helpers of [HiddenApi] (hidden_api.h, absent). *)
Variable ToInternalName : string -> string.
Variable GetApiMethodName : DexFile -> N -> string.
Variable GetApiFieldName : DexFile -> N -> string.

Definition CheckMethod (method_id : N) (resolver : VeridexResolver)
    (ref : MethodReference) (st : HiddenApiFinder) : HiddenApiFinder :=
  let name := GetApiMethodName (GetDexFile resolver) method_id in
  method_push name ref st.

Definition CheckField (field_id : N) (resolver : VeridexResolver)
    (ref : MethodReference) (st : HiddenApiFinder) : HiddenApiFinder :=
  let name := GetApiFieldName (GetDexFile resolver) field_id in
  field_push name ref st.

(** The [CONST_STRING] case of the switch. *)
Definition visit_const_string (dex : DexFile) (method : Method)
    (inst : Instruction) (st : HiddenApiFinder) : HiddenApiFinder :=
  let name := GetStringView dex (VRegB_21c inst) in
  if find_space_is_npos name then
    let str := ToInternalName name in
    if IsInBoot hidden_api_ str then classes_insert str st
    else if IsInBoot hidden_api_ name then classes_insert name st
    else reflection_push name (GetReference method) (strings_insert name st)
  else st.

(** The body of the [switch (inst->Opcode())]. *)
Definition visit_instruction (resolver : VeridexResolver) (method : Method)
    (inst : Instruction) (st : HiddenApiFinder) : HiddenApiFinder :=
  match Opcode inst with
  | CONST_STRING => visit_const_string (GetDexFile resolver) method inst st
  | INVOKE_DIRECT | INVOKE_INTERFACE | INVOKE_STATIC | INVOKE_SUPER
  | INVOKE_VIRTUAL =>
      CheckMethod (VRegB_35c inst) resolver (GetReference method) st
  | INVOKE_DIRECT_RANGE | INVOKE_INTERFACE_RANGE | INVOKE_STATIC_RANGE
  | INVOKE_SUPER_RANGE | INVOKE_VIRTUAL_RANGE =>
      CheckMethod (VRegB_3rc inst) resolver (GetReference method) st
  | IGET | IGET_WIDE | IGET_OBJECT | IGET_BOOLEAN | IGET_BYTE | IGET_CHAR
  | IGET_SHORT =>
      CheckField (VRegC_22c inst) resolver (GetReference method) st
  | IPUT | IPUT_WIDE | IPUT_OBJECT | IPUT_BOOLEAN | IPUT_BYTE | IPUT_CHAR
  | IPUT_SHORT =>
      CheckField (VRegC_22c inst) resolver (GetReference method) st
  | SGET | SGET_WIDE | SGET_OBJECT | SGET_BOOLEAN | SGET_BYTE | SGET_CHAR
  | SGET_SHORT =>
      CheckField (VRegB_21c inst) resolver (GetReference method) st
  | SPUT | SPUT_WIDE | SPUT_OBJECT | SPUT_BOOLEAN | SPUT_BYTE | SPUT_CHAR
  | SPUT_SHORT =>
      CheckField (VRegB_21c inst) resolver (GetReference method) st
  | OTHER_OPCODE _ => st
  end.

(** [for (const DexInstructionPcPair& inst : codes)] with its
    [if (inst.DexPc() >= max_pc) break;]. *)
Fixpoint scan_instructions (resolver : VeridexResolver) (method : Method)
    (max_pc : N) (codes : list DexInstructionPcPair)
    (st : HiddenApiFinder) : HiddenApiFinder :=
  match codes with
  | [] => st
  | inst :: rest =>
      if (max_pc <=? DexPc inst)%N then st
      else scan_instructions resolver method max_pc rest
             (visit_instruction resolver method (Inst inst) st)
  end.

Definition scan_method (resolver : VeridexResolver) (method : Method)
    (st : HiddenApiFinder) : HiddenApiFinder :=
  let codes := GetInstructions method in
  let max_pc := InsnsSizeInCodeUnits codes in
  scan_instructions resolver method max_pc (insns codes) st.

Definition scan_class (resolver : VeridexResolver)
    (class_filter : ClassFilter) (accessor : ClassAccessor)
    (st : HiddenApiFinder) : HiddenApiFinder :=
  if Matches class_filter (GetDescriptor accessor) then
    fold_left (fun st method => scan_method resolver method st)
              (GetMethods accessor) st
  else st.

(** The first loop of [CollectAccesses]: the whole type table. *)
Definition collect_types (dex : DexFile) (st : HiddenApiFinder)
    : HiddenApiFinder :=
  for_count (N.to_nat (NumTypeIds dex)) 0%N
    (fun i st => classes_insert (GetTypeDescriptorView dex i) st) st.

Definition CollectAccesses (resolver : VeridexResolver)
    (class_filter : ClassFilter) (st : HiddenApiFinder) : HiddenApiFinder :=
  let dex := GetDexFile resolver in
  let st := collect_types dex st in
  fold_left (fun st accessor => scan_class resolver class_filter accessor st)
            (GetClasses dex) st.

Definition Run (resolvers : list VeridexResolver)
    (class_filter : ClassFilter) (st : HiddenApiFinder) : HiddenApiFinder :=
  fold_left (fun st resolver => CollectAccesses resolver class_filter st)
            resolvers st.

End Scanner.

(** ** The scanner as a sequence of member updates

    Control flow in [CollectAccesses] never reads the aggregation state,
    so a scan is also the sequence of the mutating statements it executes
    (lines 38, 47, 57, 88, 91, 95 and 96 of the source), run in order. *)

Inductive Stmt : Type :=
| ClassesInsert (name : string)
| StringsInsert (name : string)
| ReflectionPushBack (name : string) (ref : MethodReference)
| MethodPushBack (name : string) (ref : MethodReference)
| FieldPushBack (name : string) (ref : MethodReference).

Definition exec_stmt (s : Stmt) (st : HiddenApiFinder) : HiddenApiFinder :=
  match s with
  | ClassesInsert name => classes_insert name st
  | StringsInsert name => strings_insert name st
  | ReflectionPushBack name ref => reflection_push name ref st
  | MethodPushBack name ref => method_push name ref st
  | FieldPushBack name ref => field_push name ref st
  end.

Definition exec (p : list Stmt) (st : HiddenApiFinder) : HiddenApiFinder :=
  fold_left (fun st s => exec_stmt s st) p st.

(** The longest prefix of the instruction sequence that passes the bound
    check. *)
Fixpoint visited (max_pc : N) (codes : list DexInstructionPcPair)
    : list DexInstructionPcPair :=
  match codes with
  | [] => []
  | inst :: rest =>
      if (max_pc <=? DexPc inst)%N then [] else inst :: visited max_pc rest
  end.

Section ScannerStmts.

Context {ApiList : Type}.
Variable hidden_api_ : HiddenApi ApiList.
Variable ToInternalName : string -> string.
Variable GetApiMethodName : DexFile -> N -> string.
Variable GetApiFieldName : DexFile -> N -> string.

Definition const_string_stmts (dex : DexFile) (method : Method)
    (inst : Instruction) : list Stmt :=
  let name := GetStringView dex (VRegB_21c inst) in
  if find_space_is_npos name then
    let str := ToInternalName name in
    if IsInBoot hidden_api_ str then [ClassesInsert str]
    else if IsInBoot hidden_api_ name then [ClassesInsert name]
    else [StringsInsert name; ReflectionPushBack name (GetReference method)]
  else [].

Definition instruction_stmts (resolver : VeridexResolver) (method : Method)
    (inst : Instruction) : list Stmt :=
  let dex := GetDexFile resolver in
  let ref := GetReference method in
  match Opcode inst with
  | CONST_STRING => const_string_stmts dex method inst
  | INVOKE_DIRECT | INVOKE_INTERFACE | INVOKE_STATIC | INVOKE_SUPER
  | INVOKE_VIRTUAL =>
      [MethodPushBack (GetApiMethodName dex (VRegB_35c inst)) ref]
  | INVOKE_DIRECT_RANGE | INVOKE_INTERFACE_RANGE | INVOKE_STATIC_RANGE
  | INVOKE_SUPER_RANGE | INVOKE_VIRTUAL_RANGE =>
      [MethodPushBack (GetApiMethodName dex (VRegB_3rc inst)) ref]
  | IGET | IGET_WIDE | IGET_OBJECT | IGET_BOOLEAN | IGET_BYTE | IGET_CHAR
  | IGET_SHORT
  | IPUT | IPUT_WIDE | IPUT_OBJECT | IPUT_BOOLEAN | IPUT_BYTE | IPUT_CHAR
  | IPUT_SHORT =>
      [FieldPushBack (GetApiFieldName dex (VRegC_22c inst)) ref]
  | SGET | SGET_WIDE | SGET_OBJECT | SGET_BOOLEAN | SGET_BYTE | SGET_CHAR
  | SGET_SHORT
  | SPUT | SPUT_WIDE | SPUT_OBJECT | SPUT_BOOLEAN | SPUT_BYTE | SPUT_CHAR
  | SPUT_SHORT =>
      [FieldPushBack (GetApiFieldName dex (VRegB_21c inst)) ref]
  | OTHER_OPCODE _ => []
  end.

Definition method_stmts (resolver : VeridexResolver) (method : Method)
    : list Stmt :=
  let codes := GetInstructions method in
  flat_map (fun inst => instruction_stmts resolver method (Inst inst))
           (visited (InsnsSizeInCodeUnits codes) (insns codes)).

Definition class_stmts (resolver : VeridexResolver)
    (class_filter : ClassFilter) (accessor : ClassAccessor) : list Stmt :=
  if Matches class_filter (GetDescriptor accessor) then
    flat_map (method_stmts resolver) (GetMethods accessor)
  else [].

Definition types_stmts (dex : DexFile) : list Stmt :=
  map (fun i => ClassesInsert (GetTypeDescriptorView dex (N.of_nat i)))
      (seq 0 (N.to_nat (NumTypeIds dex))).

Definition CollectAccesses_stmts (resolver : VeridexResolver)
    (class_filter : ClassFilter) : list Stmt :=
  let dex := GetDexFile resolver in
  (types_stmts dex
   ++ flat_map (class_stmts resolver class_filter) (GetClasses dex))%list.

Definition Run_stmts (resolvers : list VeridexResolver)
    (class_filter : ClassFilter) : list Stmt :=
  flat_map (fun r => CollectAccesses_stmts r class_filter) resolvers.

End ScannerStmts.

(** ** The report generator *)

(** Modelled from the spec: [HiddenApiStats] is declared in hidden_api.h
    (absent): a report-entry counter, the counts of linking and of
    reflection findings and a histogram of findings per API category. *)
Record HiddenApiStats : Type := mkStats {
  count : N;
  reflection_count : N;
  linking_count : N;
  api_counts : list N
}.

(** [a[i]++] on the histogram. *)
Fixpoint incr_at (i : nat) (a : list N) : list N :=
  match a, i with
  | [], _ => []
  | x :: a', O => N.succ x :: a'
  | x :: a', Datatypes.S i' => x :: incr_at i' a'
  end.

Definition endl : string := String "010"%char EmptyString.

(** [os << n] for an unsigned integer: decimal digits. *)
Definition dec (n : N) : string := NilEmpty.string_of_uint (N.to_uint n).

Definition kPrefix : string := "       ".

Section Report.

Context {ApiList : Type}.
Variable hidden_api_ : HiddenApi ApiList.

(** [ApiList::GetIntValue] and [operator<<] on [ApiList]
    (hiddenapi flags, absent). *)
Variable GetIntValue : ApiList -> N.
Variable print_ApiList : ApiList -> string.

(** [HiddenApi::GetApiMethodName(ref)]: the textual form of a call
    site. *)
Variable GetApiMethodName : MethodReference -> string.

(** One iteration of the counting loop of [DumpReferences].  A count
    never exceeds the length of [references], itself a [size_t]. *)
Definition count_reference (counts : StdMap.t N) (ref : MethodReference)
    : StdMap.t N :=
  let ref_string := GetApiMethodName ref in
  let counts :=
    if negb (StdMap.count ref_string counts)
    then StdMap.modify ref_string (fun _ => 0%N)
           (StdMap.subscript 0%N ref_string counts)
    else counts in
  StdMap.modify ref_string N.succ (StdMap.subscript 0%N ref_string counts).

Definition count_references (references : list MethodReference)
    : StdMap.t N :=
  fold_left count_reference references StdMap.empty.

(** One iteration of the printing loop of [DumpReferences]. *)
Definition print_reference (os : string) (pair : string * N) : string :=
  let os := os ++ kPrefix ++ fst pair in
  let os :=
    if (1 <? snd pair)%N
    then os ++ " (" ++ dec (snd pair) ++ " occurrences)"
    else os in
  os ++ endl.

Definition DumpReferences (os : string)
    (references : list MethodReference) : string :=
  let counts := count_references references in
  fold_left print_reference counts os.

(** [GetSignatureSource(name) != SignatureSource::APP &&
    ShouldReport(name)] *)
Definition reported (name : string) : bool :=
  negb (SignatureSource_eqb (GetSignatureSource hidden_api_ name) APP)
  && ShouldReport hidden_api_ name.

(** The body of the method loop, and of the field loop, of [Dump]. *)
Definition dump_linking (acc : string * HiddenApiStats)
    (pair : string * list MethodReference) : string * HiddenApiStats :=
  let '(os, stats) := acc in
  let name := fst pair in
  if reported name then
    let linking := N.succ (linking_count stats) in
    let api_list := GetApiList hidden_api_ (fst pair) in
    let counts :=
      incr_at (N.to_nat (GetIntValue api_list)) (api_counts stats) in
    let n := N.succ (count stats) in
    let stats := mkStats n (reflection_count stats) linking counts in
    let os := os ++ "#" ++ dec n ++ ": Linking " ++ print_ApiList api_list
                 ++ " " ++ fst pair ++ " use(s):" in
    let os := os ++ endl in
    let os := DumpReferences os (snd pair) in
    let os := os ++ endl in
    (os, stats)
  else acc.

(** The body of the inner loop of the reflection pass;
    [reflection_locations_[name]] is the non-const subscript. *)
Definition dump_reflection_pair (cls : string)
    (acc : StdMap.t (list MethodReference) * string * HiddenApiStats)
    (name : string)
    : StdMap.t (list MethodReference) * string * HiddenApiStats :=
  let '(locations, os, stats) := acc in
  let full_name := cls ++ "->" ++ name in
  if reported full_name then
    let api_list := GetApiList hidden_api_ full_name in
    let counts :=
      incr_at (N.to_nat (GetIntValue api_list)) (api_counts stats) in
    let reflection := N.succ (reflection_count stats) in
    let n := N.succ (count stats) in
    let stats := mkStats n reflection (linking_count stats) counts in
    let os := os ++ "#" ++ dec n ++ ": Reflection "
                 ++ print_ApiList api_list ++ " " ++ full_name
                 ++ " potential use(s):" in
    let os := os ++ endl in
    let locations := StdMap.subscript [] name locations in
    let os := DumpReferences os (StdMap.at_ [] name locations) in
    let os := os ++ endl in
    (locations, os, stats)
  else acc.

Definition dump_reflection_class (strings : StdSet.t)
    (acc : StdMap.t (list MethodReference) * string * HiddenApiStats)
    (cls : string)
    : StdMap.t (list MethodReference) * string * HiddenApiStats :=
  fold_left (dump_reflection_pair cls) strings acc.

Definition Dump (os : string) (stats : HiddenApiStats)
    (dump_reflection : bool) (st : HiddenApiFinder)
    : HiddenApiFinder * string * HiddenApiStats :=
  let '(os, stats) := fold_left dump_linking (method_locations_ st)
                                (os, stats) in
  let '(os, stats) := fold_left dump_linking (field_locations_ st)
                                (os, stats) in
  if dump_reflection then
    let '(locations, os, stats) :=
      fold_left (dump_reflection_class (strings_ st)) (classes_ st)
                (reflection_locations_ st, os, stats) in
    (mkFinder (classes_ st) (strings_ st) locations (method_locations_ st)
              (field_locations_ st), os, stats)
  else (st, os, stats).

End Report.

(** ** Invariants of the aggregation state *)

(** Every container of the state is in ascending key order. *)
Record finder_ok (st : HiddenApiFinder) : Prop := mk_finder_ok {
  classes_ok : StdSet.ok (classes_ st);
  strings_ok : StdSet.ok (strings_ st);
  reflection_locations_ok : StdMap.ok (reflection_locations_ st);
  method_locations_ok : StdMap.ok (method_locations_ st);
  field_locations_ok : StdMap.ok (field_locations_ st)
}.

(** Every key of [reflection_locations_] is an element of [strings_]. *)
Definition locations_in_strings (st : HiddenApiFinder) : Prop :=
  forall k, In k (StdMap.keys (reflection_locations_ st)) ->
            In k (strings_ st).

(** Every element of [strings_] has an entry in [reflection_locations_]. *)
Definition strings_indexed (st : HiddenApiFinder) : Prop :=
  forall s, In s (strings_ st) ->
            StdMap.find s (reflection_locations_ st) <> None.

(** No literal kept for reflection contains the space character. *)
Definition no_space_literals (st : HiddenApiFinder) : Prop :=
  (forall s, In s (strings_ st) -> has_space s = false)
  /\ (forall k, In k (StdMap.keys (reflection_locations_ st)) ->
                has_space k = false).

(** In a statement sequence, [strings_.insert(name)] and
    [reflection_locations_[name].push_back(ref)] only occur next to each
    other, in that order and for the same [name]. *)
Fixpoint paired (p : list Stmt) : bool :=
  match p with
  | [] => true
  | StringsInsert name :: p' =>
      match p' with
      | ReflectionPushBack name' _ :: p'' =>
          String.eqb name name' && paired p''
      | _ => false
      end
  | ReflectionPushBack _ _ :: _ => false
  | _ :: p' => paired p'
  end.

(** The white-space characters of the C locale ([isspace]): space, tab,
    line feed, vertical tab, form feed, carriage return. *)
Definition is_whitespace (c : ascii) : bool :=
  let n := N_of_ascii c in
  (n =? 32)%N || ((9 <=? n)%N && (n <=? 13)%N).

Fixpoint has_whitespace (s : string) : bool :=
  match s with
  | EmptyString => false
  | String c s' => is_whitespace c || has_whitespace s'
  end.

(** ** Opcode classes of the scanner's switch *)

Definition invoke_35c (c : Code) : bool :=
  match c with
  | INVOKE_DIRECT | INVOKE_INTERFACE | INVOKE_STATIC | INVOKE_SUPER
  | INVOKE_VIRTUAL => true
  | _ => false
  end.

Definition invoke_3rc (c : Code) : bool :=
  match c with
  | INVOKE_DIRECT_RANGE | INVOKE_INTERFACE_RANGE | INVOKE_STATIC_RANGE
  | INVOKE_SUPER_RANGE | INVOKE_VIRTUAL_RANGE => true
  | _ => false
  end.

Definition instance_field_22c (c : Code) : bool :=
  match c with
  | IGET | IGET_WIDE | IGET_OBJECT | IGET_BOOLEAN | IGET_BYTE | IGET_CHAR
  | IGET_SHORT
  | IPUT | IPUT_WIDE | IPUT_OBJECT | IPUT_BOOLEAN | IPUT_BYTE | IPUT_CHAR
  | IPUT_SHORT => true
  | _ => false
  end.

Definition static_field_21c (c : Code) : bool :=
  match c with
  | SGET | SGET_WIDE | SGET_OBJECT | SGET_BOOLEAN | SGET_BYTE | SGET_CHAR
  | SGET_SHORT
  | SPUT | SPUT_WIDE | SPUT_OBJECT | SPUT_BOOLEAN | SPUT_BYTE | SPUT_CHAR
  | SPUT_SHORT => true
  | _ => false
  end.

(** ** A concrete unit and classifier *)

(** Modelled from the spec: [HiddenApi::ToInternalName] (hidden_api.h,
    absent) turns the dotted form [a.b.C] into [La/b/C;]. *)
Fixpoint dots_to_slashes (s : string) : string :=
  match s with
  | EmptyString => EmptyString
  | String c s' =>
      String (if Ascii.eqb c "."%char then "/"%char else c)
             (dots_to_slashes s')
  end.

(** Modelled from the spec: [HiddenApi::ToInternalName], as above. *)
Definition ToInternalName_model (s : string) : string :=
  "L" ++ dots_to_slashes s ++ ";".

(** The end-to-end scenario of the specification: class [La/B;] whose
    method [m] invokes [Lplat/Hidden;->x()V] twice and loads the literal
    [secretField]; string 4 of the unit holds a tab, string 5 a space and
    string 6 the dotted name of a class of the platform. *)
Module Scenario.

Definition tab_literal : string :=
  String "a"%char (String "009"%char (String "b"%char EmptyString)).

Definition hidden_api : HiddenApi N :=
  mkHiddenApi N
    (fun s => String.eqb s "Lplat/Hidden;")
    (fun s =>
       if String.eqb s "Lplat/Hidden;->x()V" then BOOT
       else if String.eqb s "La/B;->secretField" then BOOT
       else if String.eqb s "La/B;->m()V" then APP
       else UNKNOWN)
    (fun s => String.eqb s "Lplat/Hidden;->x()V"
              || String.eqb s "La/B;->secretField")
    (fun _ => 1%N).

Definition method_name (_ : DexFile) (idx : N) : string :=
  if (idx =? 7)%N then "Lplat/Hidden;->x()V" else "La/B;->m()V".

Definition field_name (_ : DexFile) (_ : N) : string := "La/B;->f:I".

Definition reference_name (_ : MethodReference) : string := "La/B;->m()V".

Definition print_list (_ : N) : string := "blocked".

Definition invoke : Instruction := mkInst INVOKE_VIRTUAL 0 7 0 0.

Definition load (string_idx : N) : Instruction :=
  mkInst CONST_STRING string_idx 0 0 0.

Definition site : MethodReference := mkRef 0 1.

Definition m : Method :=
  mkMethod
    (mkCodes [mkPcPair 0 invoke; mkPcPair 3 (load 3); mkPcPair 5 invoke;
              mkPcPair 8 invoke; mkPcPair 11 (load 4)] 8)
    site.

Definition strings (i : N) : string :=
  if (i =? 4)%N then tab_literal
  else if (i =? 5)%N then "secret field"
  else if (i =? 6)%N then "plat.Hidden"
  else "secretField".

Definition types (i : N) : string := if (i =? 0)%N then "La/B;" else "I".

Definition unit_ : DexFile := mkDex 2 types strings [mkClass "La/B;" [m]].

Definition resolver : VeridexResolver := mkResolver unit_.

Definition all_classes : ClassFilter := mkFilter (fun _ => true).

Definition no_class : ClassFilter := mkFilter (fun _ => false).

Definition scanned : HiddenApiFinder :=
  Run hidden_api ToInternalName_model method_name field_name [resolver]
      all_classes empty_finder.

Definition fresh_stats : HiddenApiStats := mkStats 0 0 0 [0; 0; 0]%N.

(** A second class whose method loads strings 4, 5 and 6. *)
Definition literals : Method :=
  mkMethod
    (mkCodes [mkPcPair 0 (load 4); mkPcPair 2 (load 5); mkPcPair 4 (load 6)]
             6)
    (mkRef 1 2).

Definition literals_unit : DexFile :=
  mkDex 0 types strings [mkClass "La/C;" [literals]].

Definition literals_scanned : HiddenApiFinder :=
  Run hidden_api ToInternalName_model method_name field_name
      [mkResolver literals_unit] all_classes empty_finder.

End Scenario.

(** ** The report as a list of findings

    What the report says, stated apart from the loops of [Dump]: the
    findings in the order of their sequence numbers, and the text of
    each. *)

Inductive FindingKind : Type := Linking | Reflection.

Record Finding : Type := mkFinding {
  kind : FindingKind;
  api_name : string;
  locations : list MethodReference
}.

Fixpoint join (l : list string) : string :=
  match l with
  | [] => ""
  | x :: l' => x ++ join l'
  end.

(** The line of one textual form and its number of occurrences. *)
Definition location_line (pair : string * N) : string :=
  kPrefix ++ fst pair
  ++ (if (1 <? snd pair)%N
      then " (" ++ dec (snd pair) ++ " occurrences)"
      else "")
  ++ endl.

(** The candidate name [cls->name] of a (class, literal) pair. *)
Definition candidate (pair : string * string) : string :=
  fst pair ++ "->" ++ snd pair.

Section Findings.

Context {ApiList : Type}.
Variable hidden_api_ : HiddenApi ApiList.
Variable print_ApiList : ApiList -> string.
Variable GetApiMethodName : MethodReference -> string.

Definition location_lines (refs : list MethodReference) : string :=
  join (map location_line (count_references GetApiMethodName refs)).

Definition header (n : N) (f : Finding) : string :=
  "#" ++ dec n
  ++ match kind f with
     | Linking => ": Linking "
     | Reflection => ": Reflection "
     end
  ++ print_ApiList (GetApiList hidden_api_ (api_name f)) ++ " " ++ api_name f
  ++ match kind f with
     | Linking => " use(s):"
     | Reflection => " potential use(s):"
     end.

Definition render_finding (n : N) (f : Finding) : string :=
  header n f ++ endl ++ location_lines (locations f) ++ endl.

(** Findings numbered from [n + 1] on. *)
Fixpoint render_findings (n : N) (fs : list Finding) : string :=
  match fs with
  | [] => ""
  | f :: fs' => render_finding (N.succ n) f ++ render_findings (N.succ n) fs'
  end.

Definition linking_findings (m : StdMap.t (list MethodReference))
    : list Finding :=
  map (fun pair => mkFinding Linking (fst pair) (snd pair))
      (filter (fun pair => reported hidden_api_ (fst pair)) m).

(** The candidates of one class, over the literals in set order. *)
Definition class_findings (index : StdMap.t (list MethodReference))
    (strings : StdSet.t) (cls : string) : list Finding :=
  map (fun name =>
         mkFinding Reflection (cls ++ "->" ++ name) (StdMap.at_ [] name index))
      (filter (fun name => reported hidden_api_ (cls ++ "->" ++ name))
              strings).

Definition reflection_findings (st : HiddenApiFinder) : list Finding :=
  flat_map (class_findings (reflection_locations_ st) (strings_ st))
           (classes_ st).

Definition findings (dump_reflection : bool) (st : HiddenApiFinder)
    : list Finding :=
  (linking_findings (method_locations_ st)
   ++ linking_findings (field_locations_ st)
   ++ (if dump_reflection then reflection_findings st else []))%list.

(** The (class, literal) pairs that become reflection findings, in the
    order of the nested loops: classes outside, literals inside. *)
Definition reflection_visits (st : HiddenApiFinder) : list (string * string) :=
  filter (fun pair => reported hidden_api_ (candidate pair))
         (list_prod (classes_ st) (strings_ st)).

End Findings.

(** Two maps that give the same value to every read [m[k]]. *)
Definition same_reads (m m' : StdMap.t (list MethodReference)) : Prop :=
  forall k, StdMap.at_ [] k m' = StdMap.at_ [] k m.

Definition stmt_no_space (s : Stmt) : Prop :=
  match s with
  | StringsInsert name | ReflectionPushBack name _ => has_space name = false
  | _ => True
  end.

(** ** The order of the reflection pass *)

(** Pairs ordered by class, and by literal within a class. *)
Definition pair_lt (a b : string * string) : Prop :=
  str_lt (fst a) (fst b) \/ (fst a = fst b /\ str_lt (snd a) (snd b)).

(** [a] is not after [b]: ascending order that allows repetition. *)
Definition str_le (a b : string) : Prop := String_as_OT.compare a b <> Gt.

(** A unit with two types and a method loading two literals, under a
    classifier that reports every name. *)
Module Grid.

Definition hidden_api : HiddenApi N :=
  mkHiddenApi N (fun _ => false) (fun _ => BOOT) (fun _ => true)
              (fun _ => 0%N).

Definition names (_ : DexFile) (_ : N) : string := "La;->m()V".

Definition reference_name (_ : MethodReference) : string := "La;->m()V".

Definition print_list (_ : N) : string := "blocked".

Definition m : Method :=
  mkMethod
    (mkCodes [mkPcPair 0 (mkInst CONST_STRING 0 0 0 0);
              mkPcPair 2 (mkInst CONST_STRING 1 0 0 0)] 4)
    (mkRef 0 0).

Definition unit_ : DexFile :=
  mkDex 2 (fun i => if (i =? 0)%N then "La;" else "Lb;")
        (fun i => if (i =? 0)%N then "x" else "y")
        [mkClass "La;" [m]].

Definition scanned : HiddenApiFinder :=
  Run hidden_api ToInternalName_model names names [mkResolver unit_]
      (mkFilter (fun _ => true)) empty_finder.

End Grid.

(** ** What a statement sequence appends and inserts *)

(** The call sites a statement sequence appends to [method_locations_[name]],
    in order. *)
Definition method_pushes (name : string) (p : list Stmt)
    : list MethodReference :=
  flat_map (fun s =>
              match s with
              | MethodPushBack n ref => if String.eqb n name then [ref] else []
              | _ => []
              end) p.

(** The call sites a statement sequence appends to [field_locations_[name]],
    in order. *)
Definition field_pushes (name : string) (p : list Stmt)
    : list MethodReference :=
  flat_map (fun s =>
              match s with
              | FieldPushBack n ref => if String.eqb n name then [ref] else []
              | _ => []
              end) p.

(** The call sites a statement sequence appends to
    [reflection_locations_[name]], in order. *)
Definition reflection_pushes (name : string) (p : list Stmt)
    : list MethodReference :=
  flat_map (fun s =>
              match s with
              | ReflectionPushBack n ref =>
                  if String.eqb n name then [ref] else []
              | _ => []
              end) p.

(** Every mapped value of a location map holds at least one call site. *)
Definition entries_nonempty (m : StdMap.t (list MethodReference)) : Prop :=
  forall k v, In (k, v) m -> v <> [].

Definition locations_nonempty (st : HiddenApiFinder) : Prop :=
  entries_nonempty (reflection_locations_ st)
  /\ entries_nonempty (method_locations_ st)
  /\ entries_nonempty (field_locations_ st).

Section ScannerObservations.

Context {ApiList : Type}.
Variable hidden_api_ : HiddenApi ApiList.
Variable ToInternalName : string -> string.
Variable GetApiMethodName : DexFile -> N -> string.
Variable GetApiFieldName : DexFile -> N -> string.

(** The instruction is an invoke of the method called [name]. *)
Definition invokes (dex : DexFile) (name : string) (inst : Instruction)
    : bool :=
  (invoke_35c (Opcode inst)
   && String.eqb (GetApiMethodName dex (VRegB_35c inst)) name)
  || (invoke_3rc (Opcode inst)
      && String.eqb (GetApiMethodName dex (VRegB_3rc inst)) name).

(** The instruction reads or writes the field called [name]. *)
Definition accesses_field (dex : DexFile) (name : string)
    (inst : Instruction) : bool :=
  (instance_field_22c (Opcode inst)
   && String.eqb (GetApiFieldName dex (VRegC_22c inst)) name)
  || (static_field_21c (Opcode inst)
      && String.eqb (GetApiFieldName dex (VRegB_21c inst)) name).

(** [inst] is an instruction the scan visits: one of the in-bounds prefix
    of a method of a filter-matched class of one of the units. *)
Definition visits (resolvers : list VeridexResolver)
    (class_filter : ClassFilter) (resolver : VeridexResolver)
    (method : Method) (inst : Instruction) : Prop :=
  exists accessor pc_inst,
    In resolver resolvers
    /\ In accessor (GetClasses (GetDexFile resolver))
    /\ Matches class_filter (GetDescriptor accessor) = true
    /\ In method (GetMethods accessor)
    /\ In pc_inst (visited (InsnsSizeInCodeUnits (GetInstructions method))
                           (insns (GetInstructions method)))
    /\ inst = Inst pc_inst.

(** [name] is the space-free literal of a visited [CONST_STRING], loaded
    in [method]. *)
Definition string_literal_of (resolvers : list VeridexResolver)
    (class_filter : ClassFilter) (method : Method) (name : string) : Prop :=
  exists resolver inst,
    visits resolvers class_filter resolver method inst
    /\ Opcode inst = CONST_STRING
    /\ GetStringView (GetDexFile resolver) (VRegB_21c inst) = name
    /\ has_space name = false.

(** [name] is a descriptor of the type table of one of the units. *)
Definition type_descriptor_of (resolvers : list VeridexResolver)
    (name : string) : Prop :=
  exists resolver i,
    In resolver resolvers
    /\ (i < NumTypeIds (GetDexFile resolver))%N
    /\ name = GetTypeDescriptorView (GetDexFile resolver) i.

End ScannerObservations.

(** ** The counters of a report *)

Section Counters.

Context {ApiList : Type}.
Variable hidden_api_ : HiddenApi ApiList.
Variable GetIntValue : ApiList -> N.

(** The counters once one more finding has been numbered and counted. *)
Definition count_finding (stats : HiddenApiStats) (f : Finding)
    : HiddenApiStats :=
  mkStats (N.succ (count stats))
          (match kind f with
           | Linking => reflection_count stats
           | Reflection => N.succ (reflection_count stats)
           end)
          (match kind f with
           | Linking => N.succ (linking_count stats)
           | Reflection => linking_count stats
           end)
          (incr_at (N.to_nat (GetIntValue (GetApiList hidden_api_ (api_name f))))
                   (api_counts stats)).

Definition count_findings (stats : HiddenApiStats) (fs : list Finding)
    : HiddenApiStats :=
  fold_left count_finding fs stats.

End Counters.

(** The subscripts [reflection_locations_[name]] evaluated for a list of
    (class, literal) pairs. *)
Definition subscripts (pairs : list (string * string))
    (m : StdMap.t (list MethodReference)) : StdMap.t (list MethodReference) :=
  fold_left (fun m pair => StdMap.subscript [] (snd pair) m) pairs m.

(** Sum of a histogram. *)
Definition total (a : list N) : N := fold_right N.add 0%N a.

(** A classifier that attributes every name to the application. *)
Module Fixtures.

Definition app_only : HiddenApi N :=
  mkHiddenApi N (fun _ => false) (fun _ => APP) (fun _ => true)
              (fun _ => 0%N).

End Fixtures.

(** ** States that differ in the order of their call sites *)

(** Two entries with the same key and the same call sites, up to order. *)
Definition entry_perm (p q : string * list MethodReference) : Prop :=
  fst p = fst q /\ Permutation (snd p) (snd q).

(** Two findings of the same kind and name with the same call sites, up
    to order. *)
Definition finding_perm (f g : Finding) : Prop :=
  kind f = kind g /\ api_name f = api_name g
  /\ Permutation (locations f) (locations g).

(** * libarttools: path matching and mount points (tools.cc) *)

(** ** Library functions the file calls *)

(** [s] without [suffix] at its end, when [s] ends with it. *)
Fixpoint strip_suffix (s suffix : string) : option string :=
  if String.eqb s suffix then Some EmptyString
  else match s with
       | EmptyString => None
       | String c s' =>
           match strip_suffix s' suffix with
           | Some r => Some (String c r)
           | None => None
           end
       end.

(** [android::base::ConsumeSuffix(&s, suffix)] (libbase): the value of [s]
    afterwards; the suffix is removed when [s] ends with it. *)
Definition ConsumeSuffix (s suffix : string) : string :=
  match strip_suffix s suffix with
  | Some r => r
  | None => s
  end.

(** [android::base::StartsWith(s, prefix)] (libbase). *)
Definition StartsWith (s prefix : string) : bool := String.prefix prefix s.

(** [android::base::StartsWith(s, c)] for a character (libbase). *)
Definition StartsWith_char (s : string) (c : ascii) : bool :=
  match s with
  | EmptyString => false
  | String c' _ => Ascii.eqb c' c
  end.

(** [s[n] == c], for [n] below the length of [s]. *)
Definition char_at_is (s : string) (n : nat) (c : ascii) : bool :=
  match String.get n s with
  | Some c' => Ascii.eqb c' c
  | None => false
  end.

(** ** [EscapeGlob] *)

(** The characters matched by the regular expression of [EscapeGlob]:
    an asterisk, a question mark or an opening bracket. *)
Definition is_glob_special (c : ascii) : bool :=
  Ascii.eqb c "*"%char || Ascii.eqb c "?"%char || Ascii.eqb c "["%char.

(** [std::regex_replace(str, std::regex(R"re(\*|\?|\[)re"), "[$&]")]: every
    match, a single special character, is replaced by itself between
    brackets; the rest is copied. *)
Fixpoint EscapeGlob (str : string) : string :=
  match str with
  | EmptyString => EmptyString
  | String c str' =>
      if is_glob_special c
      then String "["%char (String c (String "]"%char (EscapeGlob str')))
      else String c (EscapeGlob str')
  end.

(** ** [PathStartsWith] *)

(** [None] stands for the failed [CHECK], which aborts the process. *)
Definition PathStartsWith (path prefix : string) : option bool :=
  if negb (String.eqb prefix "") && negb (String.eqb path "")
     && StartsWith_char prefix "/" && StartsWith_char path "/"
  then
    let prefix := ConsumeSuffix prefix "/" in
    Some (StartsWith path prefix
          && ((String.length path =? String.length prefix)%nat
              || char_at_is path (String.length prefix) "/"))
  else None.

(** ** Matching a pattern against a path

    A [std::filesystem::path] is taken as the list of the elements its
    iterator yields. *)
Section Glob.

(** [fnmatch(3)] of the C library: pattern, string, flags. *)
Variable fnmatch : string -> string -> Z -> Z.

(** [kEnableDChecks]: whether [DCHECK] is compiled in. *)
Variable kEnableDChecks : bool.

Fixpoint PartialMatch (pattern path_prefix : list string) : bool :=
  match path_prefix with
  | [] => true
  | prefix_elem :: path_prefix' =>
      match pattern with
      | [] => false
      | pattern_elem :: pattern' =>
          if String.eqb pattern_elem "**" then true
          else if negb (fnmatch pattern_elem prefix_elem 0 =? 0)%Z then false
          else PartialMatch pattern' path_prefix'
      end
  end.

(** [pattern] and [path] are what is left from [pattern_it] and from
    [path_it] on; [None] stands for the failed [DCHECK]. *)
Fixpoint FullMatchRecursive (pattern : list string)
    : list string -> bool -> option bool :=
  match pattern with
  | [] =>
      fun path _ =>
        match path with
        | [] => Some true
        | _ :: _ => Some false
        end
  | pattern_elem :: pattern' =>
      fix at_pattern_elem (path : list string)
          (double_asterisk_visited : bool) {struct path} : option bool :=
        if String.eqb pattern_elem "**" then
          if kEnableDChecks && double_asterisk_visited then None
          else
            match FullMatchRecursive pattern' path true with
            | None => None
            | Some true => Some true
            | Some false =>
                match path with
                | [] => Some false
                | _ :: path' => at_pattern_elem path' false
                end
            end
        else
          match path with
          | [] => Some false
          | path_elem :: path' =>
              if negb (fnmatch pattern_elem path_elem 0 =? 0)%Z
              then Some false
              else FullMatchRecursive pattern' path' false
          end
  end.

Definition FullMatch (pattern path : list string) : option bool :=
  FullMatchRecursive pattern path false.

End Glob.

(** No element of the pattern is ["**"]. *)
Definition no_double_asterisk (pattern : list string) : bool :=
  forallb (fun elem => negb (String.eqb elem "**")) pattern.

(** No two neighbouring elements of the pattern are both ["**"]. *)
Fixpoint no_adjacent_double_asterisk (pattern : list string) : bool :=
  match pattern with
  | [] => true
  | elem :: pattern' =>
      negb (String.eqb elem "**"
            && match pattern' with
               | next :: _ => String.eqb next "**"
               | [] => false
               end)
      && no_adjacent_double_asterisk pattern'
  end.

(** ** Mount points *)

Inductive Result (A : Type) : Type :=
| Ok (value : A)
| Error (message : string).

Arguments Ok {A}.
Arguments Error {A}.

Section ProcMounts.

(** [android::fs_mgr::FstabEntry] and the two fields the code reads. *)
Variable FstabEntry : Type.
Variable fs_type : FstabEntry -> string.
Variable mount_point : FstabEntry -> string.

(** What [ReadFstabFromProcMounts] reads; [None] when it fails. *)
Variable proc_mounts : option (list FstabEntry).

(** The entry is neither a swap area nor mounted on a relative path. *)
Definition eligible (entry : FstabEntry) : bool :=
  negb (String.eqb (fs_type entry) "swap"
        || negb (StartsWith_char (mount_point entry) "/")).

(** The loop of [GetProcMountsMatches]; [None] when the predicate
    aborts. *)
Fixpoint collect_matches (predicate : string -> option bool)
    (fstab : list FstabEntry) (entries : list FstabEntry)
    : option (list FstabEntry) :=
  match fstab with
  | [] => Some entries
  | entry :: fstab' =>
      if String.eqb (fs_type entry) "swap"
         || negb (StartsWith_char (mount_point entry) "/")
      then collect_matches predicate fstab' entries
      else
        match predicate (mount_point entry) with
        | None => None
        | Some true => collect_matches predicate fstab' (entries ++ [entry])
        | Some false => collect_matches predicate fstab' entries
        end
  end.

Definition GetProcMountsMatches (predicate : string -> option bool)
    : option (Result (list FstabEntry)) :=
  match proc_mounts with
  | None => Some (Error "Failed to read fstab from /proc/mounts")
  | Some fstab =>
      match collect_matches predicate fstab [] with
      | Some entries => Some (Ok entries)
      | None => None
      end
  end.

Definition GetProcMountsAncestorsOfPath (path : string)
    : option (Result (list FstabEntry)) :=
  GetProcMountsMatches (fun mount_point => PathStartsWith path mount_point).

Definition GetProcMountsDescendantsOfPath (path : string)
    : option (Result (list FstabEntry)) :=
  GetProcMountsMatches (fun mount_point => PathStartsWith mount_point path).

End ProcMounts.

(** A mount table for the examples. *)
Module Mounts.

Record entry : Type := mkEntry {
  device : string;
  point : string;
  type : string
}.

Definition table : list entry :=
  [mkEntry "/dev/root" "/" "ext4";
   mkEntry "/dev/swap" "none" "swap";
   mkEntry "tmpfs" "/data" "tmpfs";
   mkEntry "/dev/block/dm-1" "/data/app" "f2fs";
   mkEntry "proc" "proc" "proc";
   mkEntry "/dev/block/dm-2" "/database" "ext4"].

(** A matcher for the examples: equal strings match, and ["*"] matches
    everything. *)
Definition literal_fnmatch (pattern str : string) (_ : Z) : Z :=
  if String.eqb pattern "*" || String.eqb pattern str then 0%Z else 1%Z.

End Mounts.

(** ** The wide form of the string-constant load *)

(** [Instruction::CONST_STRING_JUMBO] (const-string/jumbo, opcode 0x1b of
    the instruction set): the string-constant load with a 32-bit string
    index.  The switch of [CollectAccesses] does not name it, so it is
    one of the opcodes of the [default] branch. *)
Definition CONST_STRING_JUMBO : Code := OTHER_OPCODE 27.

(** [Instruction::RETURN_VOID] (return-void, opcode 0x0e), another opcode
    of the [default] branch. *)
Definition RETURN_VOID : Code := OTHER_OPCODE 14.

(** A unit whose only method loads the literal [secretField], string 3
    of the unit, and returns: with the wide form of the load (three code
    units), or with the short form (two code units).  The scan reads no
    operand of the wide form, so its 32-bit string index is kept where
    the short form has its 16-bit one. *)
Module Jumbo.

Definition site : MethodReference := mkRef 0 1.

Definition width (opcode : Code) : N :=
  match opcode with
  | CONST_STRING => 2
  | _ => 3
  end.

Definition method_with (opcode : Code) : Method :=
  mkMethod
    (mkCodes [mkPcPair 0 (mkInst opcode 3 0 0 0);
              mkPcPair (width opcode) (mkInst RETURN_VOID 0 0 0 0)]
             (width opcode + 1))
    site.

Definition unit_with (opcode : Code) : DexFile :=
  mkDex 2 Scenario.types Scenario.strings
        [mkClass "La/B;" [method_with opcode]].

Definition scanned_with (opcode : Code) : HiddenApiFinder :=
  Run Scenario.hidden_api ToInternalName_model Scenario.method_name
      Scenario.field_name [mkResolver (unit_with opcode)]
      Scenario.all_classes empty_finder.

End Jumbo.

(** ** The report as the specification words it

    The location list of a finding, stated without the counting loop of
    [DumpReferences]: the distinct textual forms of the call sites in
    ascending order, each on a line of its own after seven spaces, with
    the number of occurrences when there is more than one. *)

(** Insertion into a list in ascending order. *)
Fixpoint insert_in_order (s : string) (l : list string) : list string :=
  match l with
  | [] => [s]
  | x :: l' =>
      match String_as_OT.compare s x with
      | Gt => x :: insert_in_order s l'
      | _ => s :: l
      end
  end.

Definition sort_strings (l : list string) : list string :=
  fold_right insert_in_order [] l.

(** The distinct strings of a list, in ascending order. *)
Definition distinct_sorted (texts : list string) : list string :=
  sort_strings (nodup string_dec texts).

Section ReportWording.

Context {ApiList : Type}.
Variable hidden_api_ : HiddenApi ApiList.
Variable print_ApiList : ApiList -> string.
Variable GetApiMethodName : MethodReference -> string.

Definition reference_lines (refs : list MethodReference) : string :=
  let texts := map GetApiMethodName refs in
  join (map (fun text =>
               let n := N.of_nat (count_occ string_dec texts text) in
               "       " ++ text
               ++ (if (1 <? n)%N
                   then " (" ++ dec n ++ " occurrences)"
                   else "")
               ++ endl)
            (distinct_sorted texts)).

Definition report_finding (n : N) (f : Finding) : string :=
  header hidden_api_ print_ApiList n f ++ endl
  ++ reference_lines (locations f) ++ endl.

(** Findings numbered from [n + 1] on. *)
Fixpoint report_findings (n : N) (fs : list Finding) : string :=
  match fs with
  | [] => ""
  | f :: fs' => report_finding (N.succ n) f ++ report_findings (N.succ n) fs'
  end.

End ReportWording.

(** * Properties *)

(** ** The string order *)

Lemma str_lt_irrefl x : ~ str_lt x x.
Proof. exact (StrictOrder_Irreflexive (R := String_as_OT.lt) x). Qed.

Lemma str_lt_trans x y z : str_lt x y -> str_lt y z -> str_lt x z.
Proof. exact (StrictOrder_Transitive (R := String_as_OT.lt) x y z). Qed.

Lemma compare_refl x : String_as_OT.compare x x = Eq.
Proof.
  destruct (String_as_OT.compare_spec x x) as [_ | H | H];
    [reflexivity | | ]; exfalso; exact (str_lt_irrefl x H).
Qed.

Lemma compare_Eq x y : String_as_OT.compare x y = Eq -> x = y.
Proof. destruct (String_as_OT.compare_spec x y); congruence. Qed.

Lemma compare_Gt x y : String_as_OT.compare x y = Gt -> str_lt y x.
Proof.
  destruct (String_as_OT.compare_spec x y) as [? | ? | H];
    [discriminate | discriminate | intros _; exact H].
Qed.

Lemma compare_Lt_neq x y : String_as_OT.compare x y = Lt -> x <> y.
Proof. intros H ->. rewrite compare_refl in H. discriminate. Qed.

Lemma compare_Gt_neq x y : String_as_OT.compare x y = Gt -> x <> y.
Proof. intros H ->. rewrite compare_refl in H. discriminate. Qed.

Lemma str_lt_asym x y : str_lt x y -> ~ str_lt y x.
Proof. intros H1 H2. exact (str_lt_irrefl x (str_lt_trans _ _ _ H1 H2)). Qed.

(** Case analysis on a comparison, keeping what each outcome means. *)
Ltac cmp x y :=
  let E := fresh "E" in
  destruct (String_as_OT.compare x y) eqn:E;
  [ apply compare_Eq in E; try subst
  | pose proof (compare_Lt_neq _ _ E)
  | pose proof (compare_Gt_neq _ _ E); apply compare_Gt in E ].

Lemma HdRel_str_lt_In x s :
  Sorted str_lt s -> HdRel str_lt x s -> forall y, In y s -> str_lt x y.
Proof.
  intros Hs Hh y Hy.
  apply Sorted_StronglySorted in Hs; [| exact str_lt_trans].
  destruct s as [| z s]; [destruct Hy |].
  inversion Hh; subst. inversion Hs; subst.
  destruct Hy as [-> | Hy]; [assumption |].
  eapply str_lt_trans; [eassumption |].
  rewrite Forall_forall in *. auto.
Qed.

(** ** [StdSet] *)

Lemma StdSet_insert_In x s y :
  In y (StdSet.insert x s) <-> y = x \/ In y s.
Proof.
  induction s as [| z s IH]; simpl.
  - intuition.
  - cmp x z; simpl; rewrite ?IH; intuition.
Qed.

Lemma StdSet_insert_HdRel a x s :
  str_lt a x -> HdRel str_lt a s -> HdRel str_lt a (StdSet.insert x s).
Proof.
  intros Hax Hs. destruct s as [| z s]; simpl.
  - constructor; assumption.
  - inversion Hs; subst. cmp x z; constructor; assumption.
Qed.

Lemma StdSet_insert_ok x s : StdSet.ok s -> StdSet.ok (StdSet.insert x s).
Proof.
  unfold StdSet.ok. induction 1 as [| z s Hs IH Hh]; simpl.
  - repeat constructor.
  - cmp x z.
    + constructor; assumption.
    + constructor; [constructor; assumption | constructor; assumption].
    + constructor; [assumption |].
      apply StdSet_insert_HdRel; assumption.
Qed.

Lemma StdSet_ok_NoDup s : StdSet.ok s -> NoDup s.
Proof.
  unfold StdSet.ok. induction 1 as [| z s Hs IH Hh]; constructor; auto.
  intros Hin. exact (str_lt_irrefl z (HdRel_str_lt_In z s Hs Hh z Hin)).
Qed.

(** ** [StdMap] *)

Section StdMapFacts.

Context {V : Type}.
Implicit Types (m : StdMap.t V) (k : string) (d v : V).

Lemma StdMap_keys_subscript d k m k' :
  In k' (StdMap.keys (StdMap.subscript d k m))
  <-> k' = k \/ In k' (StdMap.keys m).
Proof.
  induction m as [| [z v] m IH]; simpl.
  - intuition.
  - cmp k z; simpl; rewrite ?IH; intuition.
Qed.

Lemma StdMap_keys_modify k f m :
  StdMap.keys (StdMap.modify k f m) = StdMap.keys m.
Proof.
  induction m as [| [z v] m IH]; simpl; [reflexivity |].
  cmp k z; simpl; congruence.
Qed.

Lemma StdMap_find_subscript_same d k m :
  StdMap.find k (StdMap.subscript d k m) = Some (StdMap.at_ d k m).
Proof.
  unfold StdMap.at_.
  induction m as [| [z v] m IH]; simpl.
  - rewrite compare_refl. reflexivity.
  - destruct (String_as_OT.compare k z) eqn:E; simpl.
    + rewrite E. reflexivity.
    + rewrite compare_refl. reflexivity.
    + rewrite E. exact IH.
Qed.

Lemma StdMap_find_subscript_other d k m k' :
  k' <> k -> StdMap.find k' (StdMap.subscript d k m) = StdMap.find k' m.
Proof.
  intros Hne.
  induction m as [| [z v] m IH]; simpl.
  - cmp k' k; congruence.
  - destruct (String_as_OT.compare k z) eqn:E; simpl.
    + reflexivity.
    + cmp k' k; [congruence | | reflexivity].
      assert (str_lt k' z) as -> by (eapply str_lt_trans; eassumption).
      reflexivity.
    + rewrite IH. reflexivity.
Qed.

Lemma StdMap_find_modify_same k f m :
  StdMap.find k (StdMap.modify k f m) = option_map f (StdMap.find k m).
Proof.
  induction m as [| [z v] m IH]; simpl; [reflexivity |].
  destruct (String_as_OT.compare k z) eqn:E; simpl; rewrite E; auto.
Qed.

Lemma StdMap_find_modify_other k f m k' :
  k' <> k -> StdMap.find k' (StdMap.modify k f m) = StdMap.find k' m.
Proof.
  intros Hne.
  induction m as [| [z v] m IH]; simpl; [reflexivity |].
  cmp k z; simpl; try reflexivity.
  - cmp k' z; congruence.
  - rewrite IH. reflexivity.
Qed.

Lemma StdMap_subscript_present d k m :
  StdMap.find k m <> None -> StdMap.subscript d k m = m.
Proof.
  induction m as [| [z v] m IH]; simpl; [congruence |].
  destruct (String_as_OT.compare k z) eqn:E; intros H;
    [reflexivity | congruence | rewrite IH; auto].
Qed.

Lemma StdMap_subscript_HdRel a d k m :
  str_lt a k -> HdRel str_lt a (StdMap.keys m) ->
  HdRel str_lt a (StdMap.keys (StdMap.subscript d k m)).
Proof.
  intros Hak Hm. destruct m as [| [z v] m]; simpl.
  - constructor; assumption.
  - inversion Hm; subst. cmp k z; constructor; assumption.
Qed.

Lemma StdMap_subscript_ok d k m :
  StdMap.ok m -> StdMap.ok (StdMap.subscript d k m).
Proof.
  unfold StdMap.ok.
  induction m as [| [z v] m IH]; simpl; intros Hs.
  - repeat constructor.
  - inversion Hs as [| ? ? Hs' Hh]; subst. cmp k z; simpl.
    + assumption.
    + constructor; [assumption | constructor; assumption].
    + constructor; [auto |]. apply StdMap_subscript_HdRel; assumption.
Qed.

Lemma StdMap_modify_ok k f m :
  StdMap.ok m -> StdMap.ok (StdMap.modify k f m).
Proof. unfold StdMap.ok. rewrite StdMap_keys_modify. auto. Qed.

Lemma StdMap_find_In_keys k m :
  StdMap.find k m <> None -> In k (StdMap.keys m).
Proof.
  induction m as [| [z v] m IH]; simpl; [congruence |].
  cmp k z; intros Hf; [left; reflexivity | congruence | right; auto].
Qed.

Lemma StdMap_In_keys_find k m :
  StdMap.ok m -> In k (StdMap.keys m) -> StdMap.find k m <> None.
Proof.
  unfold StdMap.ok.
  induction m as [| [z v] m IH]; simpl; intros Hs Hin; [destruct Hin |].
  inversion Hs as [| ? ? Hs' Hh]; subst.
  destruct Hin as [-> | Hin].
  - rewrite compare_refl. discriminate.
  - pose proof (HdRel_str_lt_In _ _ Hs' Hh _ Hin) as Hlt.
    cmp k z; [discriminate | | auto].
    exfalso. eapply str_lt_asym; eassumption.
Qed.

Lemma StdMap_In_find k v m :
  StdMap.ok m -> In (k, v) m -> StdMap.find k m = Some v.
Proof.
  unfold StdMap.ok.
  induction m as [| [z w] m IH]; simpl; intros Hs Hin; [destruct Hin |].
  inversion Hs as [| ? ? Hs' Hh]; subst.
  destruct Hin as [Heq | Hin].
  - inversion Heq; subst. rewrite compare_refl. reflexivity.
  - assert (In k (StdMap.keys m)) as Hk
        by (apply in_map_iff; exists (k, v); auto).
    pose proof (HdRel_str_lt_In _ _ Hs' Hh _ Hk) as Hlt.
    cmp k z; [exfalso; eapply str_lt_irrefl; eassumption | | auto].
    exfalso. eapply str_lt_asym; eassumption.
Qed.

Lemma StdMap_find_In k v m :
  StdMap.find k m = Some v -> In (k, v) m.
Proof.
  induction m as [| [z w] m IH]; simpl; [congruence |].
  cmp k z; intros Hf; [left; congruence | congruence | right; auto].
Qed.

End StdMapFacts.

(** ** Member updates keep the containers ordered and only add *)

Lemma push_back_at_keys name ref m k :
  In k (StdMap.keys (push_back_at name ref m))
  <-> k = name \/ In k (StdMap.keys m).
Proof.
  unfold push_back_at.
  rewrite StdMap_keys_modify. apply StdMap_keys_subscript.
Qed.

Lemma push_back_at_same name ref m :
  StdMap.find name (push_back_at name ref m)
  = Some (StdMap.at_ [] name m ++ [ref])%list.
Proof.
  unfold push_back_at.
  rewrite StdMap_find_modify_same, StdMap_find_subscript_same.
  reflexivity.
Qed.

Lemma push_back_at_other name ref m k :
  k <> name -> StdMap.find k (push_back_at name ref m) = StdMap.find k m.
Proof.
  intros Hne. unfold push_back_at.
  rewrite StdMap_find_modify_other, StdMap_find_subscript_other; auto.
Qed.

Lemma push_back_at_ok name ref m :
  StdMap.ok m -> StdMap.ok (push_back_at name ref m).
Proof.
  intros H. unfold push_back_at.
  apply StdMap_modify_ok, StdMap_subscript_ok, H.
Qed.

Lemma push_back_at_mono name ref m k r :
  In r (StdMap.at_ [] k m) -> In r (StdMap.at_ [] k (push_back_at name ref m)).
Proof.
  intros Hin. unfold StdMap.at_ at 1.
  destruct (String.string_dec k name) as [-> | Hne].
  - rewrite push_back_at_same. apply in_or_app. left. exact Hin.
  - rewrite push_back_at_other by assumption. exact Hin.
Qed.

Lemma push_back_at_In name ref m :
  In ref (StdMap.at_ [] name (push_back_at name ref m)).
Proof.
  unfold StdMap.at_ at 1. rewrite push_back_at_same.
  apply in_or_app. right. left. reflexivity.
Qed.

Lemma empty_finder_ok : finder_ok empty_finder.
Proof. split; constructor. Qed.

Lemma exec_stmt_ok s st : finder_ok st -> finder_ok (exec_stmt s st).
Proof.
  intros [H1 H2 H3 H4 H5].
  destruct s; split; simpl;
    auto using StdSet_insert_ok, push_back_at_ok.
Qed.

Lemma exec_ok p st : finder_ok st -> finder_ok (exec p st).
Proof.
  revert st. induction p as [| s p IH]; intros st H; simpl; [exact H |].
  apply IH, exec_stmt_ok, H.
Qed.

Lemma exec_app p q st : exec (p ++ q) st = exec q (exec p st).
Proof. unfold exec. apply fold_left_app. Qed.

Lemma exec_stmt_classes_mono s st x :
  In x (classes_ st) -> In x (classes_ (exec_stmt s st)).
Proof.
  destruct s; simpl; auto. intros H. apply StdSet_insert_In. auto.
Qed.

Lemma exec_classes_mono p st x :
  In x (classes_ st) -> In x (classes_ (exec p st)).
Proof.
  revert st. induction p as [| s p IH]; intros st H; simpl; [exact H |].
  apply IH, exec_stmt_classes_mono, H.
Qed.

Lemma exec_ClassesInsert p st x :
  In (ClassesInsert x) p -> In x (classes_ (exec p st)).
Proof.
  revert st. induction p as [| s p IH]; intros st H; [destruct H |].
  destruct H as [-> | H]; simpl.
  - apply exec_classes_mono. simpl. apply StdSet_insert_In. auto.
  - apply IH, H.
Qed.

Lemma exec_stmt_method_mono s st k r :
  In r (StdMap.at_ [] k (method_locations_ st)) ->
  In r (StdMap.at_ [] k (method_locations_ (exec_stmt s st))).
Proof. destruct s; simpl; auto using push_back_at_mono. Qed.

Lemma exec_stmt_field_mono s st k r :
  In r (StdMap.at_ [] k (field_locations_ st)) ->
  In r (StdMap.at_ [] k (field_locations_ (exec_stmt s st))).
Proof. destruct s; simpl; auto using push_back_at_mono. Qed.

Lemma exec_MethodPushBack p st name ref :
  In (MethodPushBack name ref) p ->
  In ref (StdMap.at_ [] name (method_locations_ (exec p st))).
Proof.
  revert st. induction p as [| s p IH]; intros st H; [destruct H |].
  destruct H as [-> | H]; simpl; [| apply IH, H].
  generalize (push_back_at_In name ref (method_locations_ st)).
  change (push_back_at name ref (method_locations_ st))
    with (method_locations_ (method_push name ref st)).
  generalize (method_push name ref st). clear.
  induction p as [| s p IH]; intros st H; simpl; [exact H |].
  apply IH, exec_stmt_method_mono, H.
Qed.

Lemma exec_FieldPushBack p st name ref :
  In (FieldPushBack name ref) p ->
  In ref (StdMap.at_ [] name (field_locations_ (exec p st))).
Proof.
  revert st. induction p as [| s p IH]; intros st H; [destruct H |].
  destruct H as [-> | H]; simpl; [| apply IH, H].
  generalize (push_back_at_In name ref (field_locations_ st)).
  change (push_back_at name ref (field_locations_ st))
    with (field_locations_ (field_push name ref st)).
  generalize (field_push name ref st). clear.
  induction p as [| s p IH]; intros st H; simpl; [exact H |].
  apply IH, exec_stmt_field_mono, H.
Qed.

Lemma visited_prefix max_pc pre post :
  Forall (fun inst => (DexPc inst < max_pc)%N) pre ->
  match post with
  | [] => True
  | inst :: _ => (max_pc <= DexPc inst)%N
  end ->
  visited max_pc (pre ++ post) = pre.
Proof.
  intros Hpre Hpost. induction Hpre as [| i pre Hi _ IH]; simpl.
  - destruct post as [| i post]; [reflexivity |]. simpl.
    apply N.leb_le in Hpost. rewrite Hpost. reflexivity.
  - apply N.leb_gt in Hi. rewrite Hi, IH. reflexivity.
Qed.

Lemma visited_in_bounds max_pc codes :
  Forall (fun inst => (DexPc inst < max_pc)%N) (visited max_pc codes).
Proof.
  induction codes as [| i codes IH]; simpl; [constructor |].
  destruct (max_pc <=? DexPc i)%N eqn:E; constructor; auto.
  apply N.leb_gt, E.
Qed.

(** ** The scanner runs the statements it is made of *)
Section ScannerFacts.

Context {ApiList : Type}.
Variable hidden_api_ : HiddenApi ApiList.
Variable ToInternalName : string -> string.
Variable GetApiMethodName : DexFile -> N -> string.
Variable GetApiFieldName : DexFile -> N -> string.

Local Abbreviation visit_instruction' :=
  (visit_instruction hidden_api_ ToInternalName GetApiMethodName
                     GetApiFieldName).
Local Abbreviation instruction_stmts' :=
  (instruction_stmts hidden_api_ ToInternalName GetApiMethodName
                     GetApiFieldName).
Local Abbreviation scan_instructions' :=
  (scan_instructions hidden_api_ ToInternalName GetApiMethodName
                     GetApiFieldName).
Local Abbreviation scan_method' :=
  (scan_method hidden_api_ ToInternalName GetApiMethodName GetApiFieldName).
Local Abbreviation method_stmts' :=
  (method_stmts hidden_api_ ToInternalName GetApiMethodName
                GetApiFieldName).
Local Abbreviation scan_class' :=
  (scan_class hidden_api_ ToInternalName GetApiMethodName GetApiFieldName).
Local Abbreviation class_stmts' :=
  (class_stmts hidden_api_ ToInternalName GetApiMethodName GetApiFieldName).
Local Abbreviation CollectAccesses' :=
  (CollectAccesses hidden_api_ ToInternalName GetApiMethodName
                   GetApiFieldName).
Local Abbreviation CollectAccesses_stmts' :=
  (CollectAccesses_stmts hidden_api_ ToInternalName GetApiMethodName
                         GetApiFieldName).
Local Abbreviation Run' :=
  (Run hidden_api_ ToInternalName GetApiMethodName GetApiFieldName).
Local Abbreviation Run_stmts' :=
  (Run_stmts hidden_api_ ToInternalName GetApiMethodName GetApiFieldName).

Lemma visit_instruction_exec resolver method inst st :
  visit_instruction' resolver method inst st
  = exec (instruction_stmts' resolver method inst) st.
Proof.
  unfold visit_instruction, instruction_stmts, visit_const_string,
    const_string_stmts, CheckMethod, CheckField.
  destruct (Opcode inst); try reflexivity.
  destruct (find_space_is_npos _); [| reflexivity].
  destruct (IsInBoot _ _); [reflexivity |].
  destruct (IsInBoot _ _); reflexivity.
Qed.

Lemma scan_instructions_visited resolver method max_pc codes st :
  scan_instructions' resolver method max_pc codes st
  = fold_left (fun st inst => visit_instruction' resolver method (Inst inst) st)
              (visited max_pc codes) st.
Proof.
  revert st. induction codes as [| i codes IH]; intros st; simpl.
  - reflexivity.
  - destruct (max_pc <=? DexPc i)%N; simpl; [reflexivity | apply IH].
Qed.

Lemma fold_visit_exec resolver method l st :
  fold_left (fun st inst => visit_instruction' resolver method (Inst inst) st)
            l st
  = exec (flat_map (fun inst => instruction_stmts' resolver method (Inst inst))
                   l) st.
Proof.
  revert st. induction l as [| i l IH]; intros st; simpl; [reflexivity |].
  rewrite exec_app, <- visit_instruction_exec. apply IH.
Qed.

Lemma scan_method_exec resolver method st :
  scan_method' resolver method st = exec (method_stmts' resolver method) st.
Proof.
  unfold scan_method, method_stmts.
  rewrite scan_instructions_visited. apply fold_visit_exec.
Qed.

Lemma scan_class_exec resolver class_filter accessor st :
  scan_class' resolver class_filter accessor st
  = exec (class_stmts' resolver class_filter accessor) st.
Proof.
  unfold scan_class, class_stmts.
  destruct (Matches _ _); [| reflexivity].
  generalize (GetMethods accessor) as ms. intros ms. revert st.
  induction ms as [| m ms IH]; intros st; simpl; [reflexivity |].
  rewrite exec_app, <- scan_method_exec. apply IH.
Qed.

Lemma for_count_classes_exec dex n i st :
  for_count n i
    (fun i st => classes_insert (GetTypeDescriptorView dex i) st) st
  = exec (map (fun j => ClassesInsert (GetTypeDescriptorView dex (N.of_nat j)))
              (seq (N.to_nat i) n)) st.
Proof.
  revert i st. induction n as [| n IH]; intros i st; simpl; [reflexivity |].
  rewrite N2Nat.id, IH, N2Nat.inj_succ. reflexivity.
Qed.

Lemma collect_types_exec dex st :
  collect_types dex st = exec (types_stmts dex) st.
Proof. unfold collect_types, types_stmts. apply for_count_classes_exec. Qed.

Lemma CollectAccesses_exec resolver class_filter st :
  CollectAccesses' resolver class_filter st
  = exec (CollectAccesses_stmts' resolver class_filter) st.
Proof.
  unfold CollectAccesses, CollectAccesses_stmts.
  rewrite exec_app, collect_types_exec.
  generalize (exec (types_stmts (GetDexFile resolver)) st) as st'.
  generalize (GetClasses (GetDexFile resolver)) as cs.
  induction cs as [| c cs IH]; intros st'; simpl; [reflexivity |].
  rewrite exec_app, <- scan_class_exec. apply IH.
Qed.

Lemma Run_exec resolvers class_filter st :
  Run' resolvers class_filter st
  = exec (Run_stmts' resolvers class_filter) st.
Proof.
  unfold Run, Run_stmts. revert st.
  induction resolvers as [| r rs IH]; intros st; simpl; [reflexivity |].
  rewrite exec_app, <- CollectAccesses_exec. apply IH.
Qed.

Lemma Run_ok resolvers class_filter st :
  finder_ok st -> finder_ok (Run' resolvers class_filter st).
Proof. rewrite Run_exec. apply exec_ok. Qed.

End ScannerFacts.


(** ** Statement sequences in which set insertion and location append
       come in pairs *)

Lemma paired_app_len n : forall p q,
  length p <= n -> paired p = true -> paired q = true ->
  paired (p ++ q) = true.
Proof.
  induction n as [| n IH]; intros p q Hlen Hp Hq.
  - destruct p; [exact Hq | simpl in Hlen; lia].
  - destruct p as [| s p]; [exact Hq |].
    simpl in Hlen.
    destruct s; simpl in *; try (apply IH; auto; lia); try discriminate.
    destruct p as [| s' p]; [discriminate |].
    destruct s'; try discriminate. simpl in *.
    apply andb_true_iff in Hp. destruct Hp as [He Hp].
    rewrite He. simpl. apply IH; auto; lia.
Qed.

Lemma paired_app p q :
  paired p = true -> paired q = true -> paired (p ++ q) = true.
Proof. apply (paired_app_len (length p)). lia. Qed.

Lemma paired_flat_map {A : Type} (f : A -> list Stmt) l :
  (forall a, In a l -> paired (f a) = true) ->
  paired (flat_map f l) = true.
Proof.
  induction l as [| a l IH]; intros H; simpl; [reflexivity |].
  apply paired_app; [apply H; left; reflexivity |].
  apply IH. intros b Hb. apply H. right. exact Hb.
Qed.

Lemma paired_ClassesInsert {A : Type} (f : A -> string) l :
  paired (map (fun a => ClassesInsert (f a)) l) = true.
Proof. induction l; simpl; auto. Qed.

Lemma exec_prefix_locations_in_strings n : forall p q st,
  length p <= n ->
  paired (p ++ q) = true ->
  locations_in_strings st ->
  locations_in_strings (exec p st).
Proof.
  induction n as [| n IH]; intros p q st Hlen Hp Hst.
  - destruct p; [exact Hst | simpl in Hlen; lia].
  - destruct p as [| s p]; [exact Hst |].
    simpl in Hlen.
    destruct s; simpl in Hp; try discriminate.
    + simpl. apply (IH p q); [lia | exact Hp |].
      intros k Hk. apply Hst. exact Hk.
    + destruct p as [| s' p].
      * simpl. intros k Hk. simpl. apply StdSet_insert_In. right.
        apply Hst. exact Hk.
      * simpl in Hp. destruct s'; try discriminate.
        apply andb_true_iff in Hp. destruct Hp as [He Hp].
        apply String.eqb_eq in He. subst name0.
        simpl. apply (IH p q); [simpl in Hlen; lia | exact Hp |].
        intros k Hk. simpl in *.
        apply push_back_at_keys in Hk. apply StdSet_insert_In.
        destruct Hk as [-> | Hk]; [left; reflexivity | right; auto].
    + simpl. apply (IH p q); [lia | exact Hp |].
      intros k Hk. apply Hst. exact Hk.
    + simpl. apply (IH p q); [lia | exact Hp |].
      intros k Hk. apply Hst. exact Hk.
Qed.

Lemma paired_insert_then_push n : forall p q name,
  length p <= n ->
  paired (p ++ StringsInsert name :: q) = true ->
  exists ref q', q = ReflectionPushBack name ref :: q'.
Proof.
  induction n as [| n IH]; intros p q name Hlen Hp.
  - destruct p; [| simpl in Hlen; lia]. simpl in Hp.
    destruct q as [| s q]; [discriminate |]. destruct s; try discriminate.
    apply andb_true_iff in Hp. destruct Hp as [He _].
    apply String.eqb_eq in He. subst. eauto.
  - destruct p as [| s p]; [apply (IH [] q name); [simpl; lia | exact Hp] |].
    simpl in Hlen.
    destruct s; simpl in Hp; try discriminate;
      try (apply (IH p q name); [lia | exact Hp]).
    destruct p as [| s' p]; [discriminate |].
    destruct s'; try discriminate. simpl in Hp, Hlen.
    apply andb_true_iff in Hp. destruct Hp as [_ Hp].
    apply (IH p q name); [lia | exact Hp].
Qed.

Lemma paired_push_after_insert n : forall p q name ref,
  length p <= n ->
  paired (p ++ ReflectionPushBack name ref :: q) = true ->
  exists p', p = (p' ++ [StringsInsert name])%list.
Proof.
  induction n as [| n IH]; intros p q name ref Hlen Hp.
  - destruct p; [discriminate | simpl in Hlen; lia].
  - destruct p as [| s p]; [discriminate |].
    simpl in Hlen.
    destruct s; simpl in Hp; try discriminate;
      try (destruct (IH p q name ref) as [p' ->]; [lia | exact Hp |];
           eexists (_ :: p'); reflexivity).
    destruct p as [| s' p].
    + simpl in Hp. apply andb_true_iff in Hp. destruct Hp as [He _].
      apply String.eqb_eq in He. subst. exists []. reflexivity.
    + destruct s'; try discriminate. simpl in Hp, Hlen.
      apply andb_true_iff in Hp. destruct Hp as [_ Hp].
      destruct (IH p q name ref) as [p' ->]; [lia | exact Hp |].
      eexists (_ :: _ :: p'). reflexivity.
Qed.

(** Executing a paired sequence to its end also indexes every string. *)
Lemma exec_paired_strings_indexed n : forall p st,
  length p <= n ->
  paired p = true ->
  strings_indexed st ->
  strings_indexed (exec p st).
Proof.
  induction n as [| n IH]; intros p st Hlen Hp Hst.
  - destruct p; [exact Hst | simpl in Hlen; lia].
  - destruct p as [| s p]; [exact Hst |].
    simpl in Hlen.
    destruct s; simpl in Hp; try discriminate;
      try (simpl; apply IH; [lia | exact Hp | exact Hst]).
    destruct p as [| s' p]; [discriminate |].
    destruct s'; try discriminate.
    apply andb_true_iff in Hp. destruct Hp as [He Hp].
    apply String.eqb_eq in He. subst name0.
    simpl. apply IH; [simpl in Hlen; lia | exact Hp |].
    intros s Hs. simpl in *.
    apply StdSet_insert_In in Hs.
    destruct (String.string_dec s name) as [-> | Hne].
    + rewrite push_back_at_same. discriminate.
    + rewrite push_back_at_other by assumption.
      destruct Hs as [-> | Hs]; [congruence | auto].
Qed.

(** ** Statements that only keep space-free literals *)

Lemma exec_stmt_no_space s st :
  stmt_no_space s -> no_space_literals st -> no_space_literals (exec_stmt s st).
Proof.
  intros Hs [H1 H2]. destruct s; simpl in *; split; simpl; auto.
  - intros x Hx. apply StdSet_insert_In in Hx.
    destruct Hx as [-> | Hx]; auto.
  - intros k Hk. apply push_back_at_keys in Hk.
    destruct Hk as [-> | Hk]; auto.
Qed.

Lemma exec_no_space p st :
  Forall stmt_no_space p -> no_space_literals st ->
  no_space_literals (exec p st).
Proof.
  intros Hp. revert st. induction Hp as [| s p Hs _ IH]; intros st Hst.
  - exact Hst.
  - simpl. apply IH, exec_stmt_no_space; assumption.
Qed.

Lemma Forall_flat_map {A B : Type} (P : B -> Prop) (f : A -> list B) l :
  (forall a, In a l -> Forall P (f a)) -> Forall P (flat_map f l).
Proof.
  induction l as [| a l IH]; intros H; simpl; [constructor |].
  apply Forall_app. split; [apply H; left; reflexivity |].
  apply IH. intros b Hb. apply H. right. exact Hb.
Qed.

(** ** The scanner: classification of literals, bounds, type table and
       the reflection index *)
Section ScannerProperties.

Context {ApiList : Type}.
Variable hidden_api_ : HiddenApi ApiList.
Variable ToInternalName : string -> string.
Variable GetApiMethodName : DexFile -> N -> string.
Variable GetApiFieldName : DexFile -> N -> string.

Local Abbreviation visit_instruction' :=
  (visit_instruction hidden_api_ ToInternalName GetApiMethodName
                     GetApiFieldName).
Local Abbreviation instruction_stmts' :=
  (instruction_stmts hidden_api_ ToInternalName GetApiMethodName
                     GetApiFieldName).
Local Abbreviation scan_method' :=
  (scan_method hidden_api_ ToInternalName GetApiMethodName GetApiFieldName).
Local Abbreviation method_stmts' :=
  (method_stmts hidden_api_ ToInternalName GetApiMethodName GetApiFieldName).
Local Abbreviation class_stmts' :=
  (class_stmts hidden_api_ ToInternalName GetApiMethodName GetApiFieldName).
Local Abbreviation CollectAccesses_stmts' :=
  (CollectAccesses_stmts hidden_api_ ToInternalName GetApiMethodName
                         GetApiFieldName).
Local Abbreviation Run' :=
  (Run hidden_api_ ToInternalName GetApiMethodName GetApiFieldName).
Local Abbreviation Run_stmts' :=
  (Run_stmts hidden_api_ ToInternalName GetApiMethodName GetApiFieldName).

Lemma instruction_stmts_paired resolver method inst :
  paired (instruction_stmts' resolver method inst) = true.
Proof.
  unfold instruction_stmts, const_string_stmts.
  destruct (Opcode inst); try reflexivity.
  destruct (find_space_is_npos _); [| reflexivity].
  destruct (IsInBoot _ _); [reflexivity |].
  destruct (IsInBoot _ _); [reflexivity |].
  simpl. rewrite String.eqb_refl. reflexivity.
Qed.

Lemma Run_stmts_paired resolvers class_filter :
  paired (Run_stmts' resolvers class_filter) = true.
Proof.
  unfold Run_stmts. apply paired_flat_map. intros r _.
  unfold CollectAccesses_stmts. apply paired_app.
  - apply paired_ClassesInsert.
  - apply paired_flat_map. intros c _. unfold class_stmts.
    destruct (Matches _ _); [| reflexivity].
    apply paired_flat_map. intros m _. unfold method_stmts.
    apply paired_flat_map. intros i _. apply instruction_stmts_paired.
Qed.

Lemma instruction_stmts_no_space resolver method inst :
  Forall stmt_no_space (instruction_stmts' resolver method inst).
Proof.
  unfold instruction_stmts, const_string_stmts, find_space_is_npos.
  destruct (Opcode inst); repeat constructor.
  destruct (has_space _) eqn:E; simpl; [constructor |].
  destruct (IsInBoot _ _); [repeat constructor |].
  destruct (IsInBoot _ _); repeat constructor; exact E.
Qed.

Lemma Run_stmts_no_space resolvers class_filter :
  Forall stmt_no_space (Run_stmts' resolvers class_filter).
Proof.
  unfold Run_stmts. apply Forall_flat_map. intros r _.
  unfold CollectAccesses_stmts. apply Forall_app. split.
  - unfold types_stmts. apply Forall_map, Forall_forall. intros; exact I.
  - apply Forall_flat_map. intros c _. unfold class_stmts.
    destruct (Matches _ _); [| constructor].
    apply Forall_flat_map. intros m _. unfold method_stmts.
    apply Forall_flat_map. intros i _. apply instruction_stmts_no_space.
Qed.

Lemma Run_strings_indexed resolvers class_filter st :
  strings_indexed st -> strings_indexed (Run' resolvers class_filter st).
Proof.
  rewrite Run_exec.
  apply (exec_paired_strings_indexed
           (length (Run_stmts' resolvers class_filter)));
    [lia | apply Run_stmts_paired].
Qed.

(** X23: a [CONST_STRING] whose literal has no space has exactly one of
    three effects, tried in this order: the internal form of the literal
    is a known restricted name and is inserted into the class set; else
    the raw literal is a known restricted name and is inserted into the
    class set; else the raw literal is inserted into the string set and
    the call site is appended to the literal's reflection locations.  In
    the first two cases the string set and the reflection locations are
    left as they were. *)
Theorem const_string_three_outcomes resolver method inst st :
  Opcode inst = CONST_STRING ->
  has_space (GetStringView (GetDexFile resolver) (VRegB_21c inst)) = false ->
  let name := GetStringView (GetDexFile resolver) (VRegB_21c inst) in
  let internal := ToInternalName name in
  let st' := visit_instruction' resolver method inst st in
  method_locations_ st' = method_locations_ st
  /\ field_locations_ st' = field_locations_ st
  /\ (IsInBoot hidden_api_ internal = true ->
      (forall x, In x (classes_ st') <-> x = internal \/ In x (classes_ st))
      /\ strings_ st' = strings_ st
      /\ reflection_locations_ st' = reflection_locations_ st)
  /\ (IsInBoot hidden_api_ internal = false ->
      IsInBoot hidden_api_ name = true ->
      (forall x, In x (classes_ st') <-> x = name \/ In x (classes_ st))
      /\ strings_ st' = strings_ st
      /\ reflection_locations_ st' = reflection_locations_ st)
  /\ (IsInBoot hidden_api_ internal = false ->
      IsInBoot hidden_api_ name = false ->
      classes_ st' = classes_ st
      /\ (forall x, In x (strings_ st') <-> x = name \/ In x (strings_ st))
      /\ StdMap.find name (reflection_locations_ st')
         = Some (StdMap.at_ [] name (reflection_locations_ st)
                 ++ [GetReference method])%list
      /\ (forall k, k <> name ->
            StdMap.find k (reflection_locations_ st')
            = StdMap.find k (reflection_locations_ st))).
Proof.
  intros Hop Hsp name internal st'.
  subst st'. unfold visit_instruction. rewrite Hop.
  unfold visit_const_string, find_space_is_npos.
  fold name in Hsp |- *. rewrite Hsp. simpl negb. cbv iota. fold internal.
  destruct (IsInBoot hidden_api_ internal) eqn:E1;
    [| destruct (IsInBoot hidden_api_ name) eqn:E2]; simpl;
    repeat split; try discriminate; try reflexivity; intros.
  - apply StdSet_insert_In; assumption.
  - apply StdSet_insert_In; assumption.
  - apply StdSet_insert_In; assumption.
  - apply StdSet_insert_In; assumption.
  - apply StdSet_insert_In; assumption.
  - apply StdSet_insert_In; assumption.
  - apply push_back_at_same.
  - apply push_back_at_other; assumption.
Qed.

Lemma instruction_stmts_invoke_35c resolver method inst :
  invoke_35c (Opcode inst) = true ->
  In (MethodPushBack (GetApiMethodName (GetDexFile resolver) (VRegB_35c inst))
                     (GetReference method))
     (instruction_stmts' resolver method inst).
Proof.
  unfold instruction_stmts.
  destruct (Opcode inst); simpl; intros H; try discriminate; auto.
Qed.

Lemma instruction_stmts_invoke_3rc resolver method inst :
  invoke_3rc (Opcode inst) = true ->
  In (MethodPushBack (GetApiMethodName (GetDexFile resolver) (VRegB_3rc inst))
                     (GetReference method))
     (instruction_stmts' resolver method inst).
Proof.
  unfold instruction_stmts.
  destruct (Opcode inst); simpl; intros H; try discriminate; auto.
Qed.

Lemma instruction_stmts_instance_field resolver method inst :
  instance_field_22c (Opcode inst) = true ->
  In (FieldPushBack (GetApiFieldName (GetDexFile resolver) (VRegC_22c inst))
                    (GetReference method))
     (instruction_stmts' resolver method inst).
Proof.
  unfold instruction_stmts.
  destruct (Opcode inst); simpl; intros H; try discriminate; auto.
Qed.

Lemma instruction_stmts_static_field resolver method inst :
  static_field_21c (Opcode inst) = true ->
  In (FieldPushBack (GetApiFieldName (GetDexFile resolver) (VRegB_21c inst))
                    (GetReference method))
     (instruction_stmts' resolver method inst).
Proof.
  unfold instruction_stmts.
  destruct (Opcode inst); simpl; intros H; try discriminate; auto.
Qed.

(** C5: the scan of a method body visits the instructions that precede
    the first one whose program counter is at or beyond the declared
    size, and nothing from there on; it returns a state (there is no
    error outcome), in which every invoke and every field access among
    the visited instructions is recorded under the scanned method. *)
Theorem scan_stops_at_bound resolver method pre post st :
  insns (GetInstructions method) = (pre ++ post)%list ->
  Forall (fun inst =>
            (DexPc inst < InsnsSizeInCodeUnits (GetInstructions method))%N)
         pre ->
  match post with
  | [] => True
  | inst :: _ =>
      (InsnsSizeInCodeUnits (GetInstructions method) <= DexPc inst)%N
  end ->
  let dex := GetDexFile resolver in
  let ref := GetReference method in
  let st' := scan_method' resolver method st in
  st' = fold_left
          (fun st inst => visit_instruction' resolver method (Inst inst) st)
          pre st
  /\ (forall inst, In inst pre ->
        (invoke_35c (Opcode (Inst inst)) = true ->
         In ref (StdMap.at_ [] (GetApiMethodName dex (VRegB_35c (Inst inst)))
                            (method_locations_ st')))
        /\ (invoke_3rc (Opcode (Inst inst)) = true ->
            In ref (StdMap.at_ [] (GetApiMethodName dex (VRegB_3rc (Inst inst)))
                               (method_locations_ st')))
        /\ (instance_field_22c (Opcode (Inst inst)) = true ->
            In ref (StdMap.at_ [] (GetApiFieldName dex (VRegC_22c (Inst inst)))
                               (field_locations_ st')))
        /\ (static_field_21c (Opcode (Inst inst)) = true ->
            In ref (StdMap.at_ [] (GetApiFieldName dex (VRegB_21c (Inst inst)))
                               (field_locations_ st')))).
Proof.
  intros Hsplit Hpre Hpost dex ref st'.
  assert (visited (InsnsSizeInCodeUnits (GetInstructions method))
                  (insns (GetInstructions method)) = pre) as Hv
      by (rewrite Hsplit; apply visited_prefix; assumption).
  assert (st' = exec (flat_map (fun inst =>
                                  instruction_stmts' resolver method (Inst inst))
                               pre) st) as Hexec.
  { unfold st'. rewrite scan_method_exec. unfold method_stmts.
    rewrite Hv. reflexivity. }
  split.
  - rewrite Hexec. symmetry. apply fold_visit_exec.
  - intros inst Hin. rewrite Hexec.
    repeat split; intros Hop.
    + apply exec_MethodPushBack, in_flat_map. exists inst. split; [exact Hin |].
      apply instruction_stmts_invoke_35c, Hop.
    + apply exec_MethodPushBack, in_flat_map. exists inst. split; [exact Hin |].
      apply instruction_stmts_invoke_3rc, Hop.
    + apply exec_FieldPushBack, in_flat_map. exists inst. split; [exact Hin |].
      apply instruction_stmts_instance_field, Hop.
    + apply exec_FieldPushBack, in_flat_map. exists inst. split; [exact Hin |].
      apply instruction_stmts_static_field, Hop.
Qed.

(** C7 (amended): the filter is on the space character.  No element of
    the string set and no key of the reflection locations contains a
    space, at every point of every scan started from a state of which
    this holds (the empty state is one); and a [CONST_STRING] whose
    literal contains a space changes nothing, the class set included. *)
Theorem literals_have_no_space resolvers class_filter :
  no_space_literals empty_finder
  /\ (forall st p q,
        no_space_literals st ->
        Run_stmts' resolvers class_filter = (p ++ q)%list ->
        no_space_literals (exec p st))
  /\ (forall st,
        no_space_literals st ->
        no_space_literals (Run' resolvers class_filter st))
  /\ (forall resolver method inst st,
        Opcode inst = CONST_STRING ->
        has_space (GetStringView (GetDexFile resolver) (VRegB_21c inst))
        = true ->
        visit_instruction' resolver method inst st = st).
Proof.
  split; [| split; [| split]].
  - split; intros ? [].
  - intros st p q Hst Hsplit. apply exec_no_space; [| exact Hst].
    pose proof (Run_stmts_no_space resolvers class_filter) as HF.
    rewrite Hsplit in HF. apply Forall_app in HF. apply HF.
  - intros st Hst. rewrite Run_exec. apply exec_no_space; [| exact Hst].
    apply Run_stmts_no_space.
  - intros resolver method inst st Hop Hsp.
    unfold visit_instruction. rewrite Hop.
    unfold visit_const_string, find_space_is_npos. rewrite Hsp. reflexivity.
Qed.

(** C8: every descriptor of the type table of every scanned unit is in
    the class set after [Run], whatever the class filter. *)
Theorem type_table_collected resolvers class_filter st resolver i :
  In resolver resolvers ->
  (i < NumTypeIds (GetDexFile resolver))%N ->
  In (GetTypeDescriptorView (GetDexFile resolver) i)
     (classes_ (Run' resolvers class_filter st)).
Proof.
  intros Hr Hi. rewrite Run_exec. apply exec_ClassesInsert.
  unfold Run_stmts. apply in_flat_map. exists resolver. split; [exact Hr |].
  unfold CollectAccesses_stmts. apply in_or_app. left.
  unfold types_stmts. apply in_map_iff. exists (N.to_nat i). split.
  - rewrite N2Nat.id. reflexivity.
  - apply in_seq. lia.
Qed.

(** C9: at every point of a run (after any prefix of the member updates
    it executes) every key of the reflection locations is an element of
    the string set; and the insertion of a literal into the string set
    and the append to its reflection locations are consecutive
    statements of the run: each insertion is directly followed by the
    append for the same literal, each append directly preceded by the
    insertion, so no other update stands between the two.  The two
    statements of a literal occurrence update both structures: the first
    adds the literal to the string set and leaves the reflection
    locations as they were, the second leaves the string set as it is
    and makes the literal a key of the reflection locations, with the
    call site appended to what was recorded for it. *)
Theorem reflection_index_within_strings resolvers class_filter st p q :
  locations_in_strings st ->
  Run_stmts' resolvers class_filter = (p ++ q)%list ->
  locations_in_strings (exec p st)
  /\ Run' resolvers class_filter st
     = exec (Run_stmts' resolvers class_filter) st
  /\ (forall name q', q = StringsInsert name :: q' ->
        exists ref q'', q' = ReflectionPushBack name ref :: q'')
  /\ (forall name ref q', q = ReflectionPushBack name ref :: q' ->
        exists p', p = (p' ++ [StringsInsert name])%list)
  /\ (forall name ref q',
        q = StringsInsert name :: ReflectionPushBack name ref :: q' ->
        let before := exec p st in
        let between := exec (p ++ [StringsInsert name]) st in
        let after :=
          exec (p ++ [StringsInsert name; ReflectionPushBack name ref]) st in
        (forall x, In x (strings_ between)
                   <-> x = name \/ In x (strings_ before))
        /\ reflection_locations_ between = reflection_locations_ before
        /\ strings_ after = strings_ between
        /\ StdMap.find name (reflection_locations_ after)
           = Some (StdMap.at_ [] name (reflection_locations_ before)
                   ++ [ref])%list
        /\ (forall k, k <> name ->
              StdMap.find k (reflection_locations_ after)
              = StdMap.find k (reflection_locations_ before))
        /\ In name (StdMap.keys (reflection_locations_ after))
        /\ In name (strings_ after)).
Proof.
  intros Hst Hsplit.
  pose proof (Run_stmts_paired resolvers class_filter) as Hp.
  rewrite Hsplit in Hp.
  split; [| split; [| split; [| split]]].
  - apply (exec_prefix_locations_in_strings (length p) p q);
      [lia | exact Hp | exact Hst].
  - apply Run_exec.
  - intros name q' ->.
    apply (paired_insert_then_push (length p) p q' name); [lia | exact Hp].
  - intros name ref q' ->.
    apply (paired_push_after_insert (length p) p q' name ref);
      [lia | exact Hp].
  - intros name ref q' _ before between after.
    unfold between, after, before. rewrite !exec_app.
    generalize (exec p st) as s0. intros s0. simpl.
    split; [| split; [| split; [| split; [| split; [| split]]]]].
    + intros x. apply StdSet_insert_In.
    + reflexivity.
    + reflexivity.
    + apply push_back_at_same.
    + intros k Hk. apply push_back_at_other. exact Hk.
    + apply push_back_at_keys. left. reflexivity.
    + apply StdSet_insert_In. left. reflexivity.
Qed.

End ScannerProperties.

(** ** Text written to the stream *)

Lemma str_app_assoc (a b c : string) : (a ++ b) ++ c = a ++ (b ++ c).
Proof. induction a as [| x a IH]; simpl; [reflexivity | rewrite IH; reflexivity]. Qed.

Lemma str_app_nil_r (a : string) : a ++ "" = a.
Proof. induction a as [| x a IH]; simpl; [reflexivity | rewrite IH; reflexivity]. Qed.

Lemma str_app_inv_head (a b c : string) : a ++ b = a ++ c -> b = c.
Proof. induction a as [| x a IH]; simpl; intros H; [exact H |]. inversion H. auto. Qed.

Lemma same_reads_refl m : same_reads m m.
Proof. intros k. reflexivity. Qed.

Lemma same_reads_subscript m0 m name :
  same_reads m0 m -> same_reads m0 (StdMap.subscript [] name m).
Proof.
  intros H k. rewrite <- (H k). unfold StdMap.at_.
  destruct (String.string_dec k name) as [-> | Hne].
  - rewrite StdMap_find_subscript_same. reflexivity.
  - rewrite StdMap_find_subscript_other by assumption. reflexivity.
Qed.

Section ReportFacts.

Context {ApiList : Type}.
Variable hidden_api_ : HiddenApi ApiList.
Variable GetIntValue : ApiList -> N.
Variable print_ApiList : ApiList -> string.
Variable GetApiMethodName : MethodReference -> string.

Local Abbreviation DumpReferences' := (DumpReferences GetApiMethodName).
Local Abbreviation location_lines' := (location_lines GetApiMethodName).
Local Abbreviation dump_linking' :=
  (dump_linking hidden_api_ GetIntValue print_ApiList GetApiMethodName).
Local Abbreviation dump_reflection_pair' :=
  (dump_reflection_pair hidden_api_ GetIntValue print_ApiList
                        GetApiMethodName).
Local Abbreviation dump_reflection_class' :=
  (dump_reflection_class hidden_api_ GetIntValue print_ApiList
                         GetApiMethodName).
Local Abbreviation Dump' :=
  (Dump hidden_api_ GetIntValue print_ApiList GetApiMethodName).
Local Abbreviation render_finding' :=
  (render_finding hidden_api_ print_ApiList GetApiMethodName).
Local Abbreviation render_findings' :=
  (render_findings hidden_api_ print_ApiList GetApiMethodName).
Local Abbreviation linking_findings' := (linking_findings hidden_api_).
Local Abbreviation class_findings' := (class_findings hidden_api_).
Local Abbreviation reflection_findings' := (reflection_findings hidden_api_).
Local Abbreviation findings' := (findings hidden_api_).
Local Abbreviation reported' := (reported hidden_api_).

Lemma print_reference_line os pair :
  print_reference os pair = os ++ location_line pair.
Proof.
  unfold print_reference, location_line.
  destruct (1 <? snd pair)%N; repeat rewrite str_app_assoc; reflexivity.
Qed.

Lemma fold_print_reference counts os :
  fold_left print_reference counts os = os ++ join (map location_line counts).
Proof.
  revert os. induction counts as [| pair counts IH]; intros os; simpl.
  - symmetry. apply str_app_nil_r.
  - rewrite IH, print_reference_line, str_app_assoc. reflexivity.
Qed.

Lemma DumpReferences_text os refs :
  DumpReferences' os refs = os ++ location_lines' refs.
Proof. unfold DumpReferences, location_lines. apply fold_print_reference. Qed.

Lemma render_findings_app n a b :
  render_findings' n (a ++ b)
  = render_findings' n a
    ++ render_findings' (n + N.of_nat (length a)) b.
Proof.
  revert n. induction a as [| f a IH]; intros n; simpl length; simpl app.
  - rewrite N.add_0_r. reflexivity.
  - cbn [render_findings]. rewrite IH, str_app_assoc.
    replace (N.succ n + N.of_nat (length a))%N
      with (n + N.of_nat (S (length a)))%N by lia.
    reflexivity.
Qed.

Lemma dump_linking_step os stats pair :
  exists stats',
    dump_linking' (os, stats) pair
    = (os ++ render_findings' (count stats) (linking_findings' [pair]), stats')
    /\ count stats'
       = (count stats + N.of_nat (length (linking_findings' [pair])))%N.
Proof.
  unfold dump_linking, linking_findings. cbn [filter].
  destruct (reported' (fst pair)); cbn [map render_findings length].
  - eexists. split.
    + unfold render_finding, header. cbn [kind api_name locations].
      rewrite DumpReferences_text.
      repeat rewrite str_app_assoc. rewrite str_app_nil_r. reflexivity.
    + cbn [count]. lia.
  - exists stats. rewrite str_app_nil_r. split; [reflexivity | simpl; lia].
Qed.

Lemma linking_findings_cons pair m :
  linking_findings' (pair :: m)
  = (linking_findings' [pair] ++ linking_findings' m)%list.
Proof.
  unfold linking_findings. simpl.
  destruct (reported' (fst pair)); reflexivity.
Qed.

Lemma fold_dump_linking m os stats :
  exists stats',
    fold_left dump_linking' m (os, stats)
    = (os ++ render_findings' (count stats) (linking_findings' m), stats')
    /\ count stats'
       = (count stats + N.of_nat (length (linking_findings' m)))%N.
Proof.
  revert os stats. induction m as [| pair m IH]; intros os stats.
  - exists stats. simpl. rewrite str_app_nil_r. split; [reflexivity | lia].
  - cbn [fold_left].
    destruct (dump_linking_step os stats pair) as (stats1 & -> & Hc1).
    destruct (IH (os ++ render_findings' (count stats)
                                         (linking_findings' [pair])) stats1)
      as (stats2 & -> & Hc2).
    exists stats2. rewrite (linking_findings_cons pair m), render_findings_app.
    rewrite length_app, Nat2N.inj_add, str_app_assoc, Hc2, Hc1.
    split; [reflexivity | lia].
Qed.

Lemma dump_reflection_pair_step m0 cls m os stats name :
  same_reads m0 m ->
  exists m' stats',
    dump_reflection_pair' cls (m, os, stats) name
    = (m', os ++ render_findings' (count stats)
                                  (class_findings' m0 [name] cls), stats')
    /\ same_reads m0 m'
    /\ count stats'
       = (count stats + N.of_nat (length (class_findings' m0 [name] cls)))%N
    /\ (StdMap.find name m <> None -> m' = m).
Proof.
  intros Hm. unfold dump_reflection_pair, class_findings. cbn [filter].
  destruct (reported' (cls ++ "->" ++ name)); cbn [map render_findings length].
  - eexists _, _. split; [| split; [| split]].
    + unfold render_finding, header. cbn [kind api_name locations].
      rewrite DumpReferences_text.
      rewrite (same_reads_subscript m0 m name Hm name).
      repeat rewrite str_app_assoc. rewrite str_app_nil_r. reflexivity.
    + apply same_reads_subscript, Hm.
    + cbn [count]. lia.
    + apply StdMap_subscript_present.
  - exists m, stats. rewrite str_app_nil_r.
    split; [reflexivity | split; [exact Hm | split; [simpl; lia | reflexivity]]].
Qed.

Lemma class_findings_cons m0 name strings cls :
  class_findings' m0 (name :: strings) cls
  = (class_findings' m0 [name] cls ++ class_findings' m0 strings cls)%list.
Proof.
  unfold class_findings. cbn [filter].
  destruct (reported' (cls ++ "->" ++ name)); reflexivity.
Qed.

Lemma fold_dump_reflection_pair m0 cls strings m os stats :
  same_reads m0 m ->
  exists m' stats',
    fold_left (dump_reflection_pair' cls) strings (m, os, stats)
    = (m', os ++ render_findings' (count stats)
                                  (class_findings' m0 strings cls), stats')
    /\ same_reads m0 m'
    /\ count stats'
       = (count stats + N.of_nat (length (class_findings' m0 strings cls)))%N
    /\ ((forall s, In s strings -> StdMap.find s m <> None) -> m' = m).
Proof.
  revert m os stats. induction strings as [| name strings IH];
    intros m os stats Hm.
  - exists m, stats. simpl. rewrite str_app_nil_r.
    split; [reflexivity | split; [exact Hm | split; [lia | reflexivity]]].
  - cbn [fold_left].
    destruct (dump_reflection_pair_step m0 cls m os stats name Hm)
      as (m1 & stats1 & -> & Hm1 & Hc1 & Hk1).
    destruct (IH m1 (os ++ render_findings' (count stats)
                                            (class_findings' m0 [name] cls))
                 stats1 Hm1)
      as (m2 & stats2 & -> & Hm2 & Hc2 & Hk2).
    exists m2, stats2.
    rewrite (class_findings_cons m0 name strings cls), render_findings_app.
    rewrite length_app, Nat2N.inj_add, str_app_assoc, Hc2, Hc1.
    split; [reflexivity | split; [exact Hm2 | split; [lia |]]].
    intros Hall.
    assert (m1 = m) as E1 by (apply Hk1, Hall; left; reflexivity).
    subst m1. apply Hk2. intros s Hs. apply Hall. right. exact Hs.
Qed.

Lemma fold_dump_reflection_class m0 strings classes m os stats :
  same_reads m0 m ->
  exists m' stats',
    fold_left (dump_reflection_class' strings) classes (m, os, stats)
    = (m', os ++ render_findings' (count stats)
                    (flat_map (class_findings' m0 strings) classes), stats')
    /\ same_reads m0 m'
    /\ ((forall s, In s strings -> StdMap.find s m <> None) -> m' = m).
Proof.
  revert m os stats. induction classes as [| cls classes IH];
    intros m os stats Hm.
  - exists m, stats. simpl. rewrite str_app_nil_r.
    split; [reflexivity | split; [exact Hm | reflexivity]].
  - cbn [fold_left flat_map]. unfold dump_reflection_class at 2.
    destruct (fold_dump_reflection_pair m0 cls strings m os stats Hm)
      as (m1 & stats1 & -> & Hm1 & Hc1 & Hk1).
    destruct (IH m1 (os ++ render_findings' (count stats)
                                            (class_findings' m0 strings cls))
                 stats1 Hm1)
      as (m2 & stats2 & -> & Hm2 & Hk2).
    exists m2, stats2. rewrite render_findings_app, str_app_assoc, Hc1.
    split; [reflexivity | split; [exact Hm2 |]].
    intros Hall. assert (m1 = m) as E1 by (apply Hk1, Hall).
    subst m1. apply Hk2, Hall.
Qed.

(** What [Dump] writes and what it leaves in the state. *)
Lemma Dump_spec os stats dump_reflection st :
  exists locations stats',
    Dump' os stats dump_reflection st
    = (mkFinder (classes_ st) (strings_ st) locations (method_locations_ st)
                (field_locations_ st),
       os ++ render_findings' (count stats) (findings' dump_reflection st),
       stats')
    /\ same_reads (reflection_locations_ st) locations
    /\ (strings_indexed st -> locations = reflection_locations_ st).
Proof.
  unfold Dump, findings.
  destruct (fold_dump_linking (method_locations_ st) os stats)
    as (stats1 & -> & Hc1).
  destruct (fold_dump_linking (field_locations_ st)
              (os ++ render_findings' (count stats)
                       (linking_findings' (method_locations_ st))) stats1)
    as (stats2 & -> & Hc2).
  repeat rewrite render_findings_app. repeat rewrite str_app_assoc.
  rewrite <- Hc1.
  destruct dump_reflection.
  - destruct (fold_dump_reflection_class (reflection_locations_ st)
                (strings_ st) (classes_ st) (reflection_locations_ st)
                (os ++ render_findings' (count stats)
                         (linking_findings' (method_locations_ st))
                    ++ render_findings' (count stats1)
                         (linking_findings' (field_locations_ st)))
                stats2 (same_reads_refl _))
      as (m & stats3 & -> & Hm & Hk).
    exists m, stats3. unfold reflection_findings.
    repeat rewrite str_app_assoc. rewrite <- Hc2.
    split; [reflexivity | split; [exact Hm | exact Hk]].
  - exists (reflection_locations_ st), stats2.
    cbn [render_findings]. rewrite str_app_nil_r.
    destruct st; split; [reflexivity | split; [apply same_reads_refl | reflexivity]].
Qed.

End ReportFacts.

(** ** Counting the occurrences of each textual form *)
Section CountFacts.

Variable GetApiMethodName : MethodReference -> string.

Local Abbreviation count_reference' := (count_reference GetApiMethodName).
Local Abbreviation count_references' := (count_references GetApiMethodName).

Lemma count_reference_same counts ref :
  StdMap.find (GetApiMethodName ref) (count_reference' counts ref)
  = Some (N.succ (StdMap.at_ 0%N (GetApiMethodName ref) counts)).
Proof.
  unfold count_reference, StdMap.count.
  rewrite StdMap_find_modify_same, StdMap_find_subscript_same.
  simpl option_map. do 2 f_equal. unfold StdMap.at_ at 1.
  destruct (StdMap.find (GetApiMethodName ref) counts) as [n |] eqn:E;
    simpl negb; cbv iota.
  - unfold StdMap.at_. rewrite E. reflexivity.
  - rewrite StdMap_find_modify_same, StdMap_find_subscript_same.
    unfold StdMap.at_. rewrite E. reflexivity.
Qed.

Lemma count_reference_other counts ref k :
  k <> GetApiMethodName ref ->
  StdMap.find k (count_reference' counts ref) = StdMap.find k counts.
Proof.
  intros Hne. unfold count_reference.
  rewrite StdMap_find_modify_other, StdMap_find_subscript_other by assumption.
  destruct (negb _); [| reflexivity].
  rewrite StdMap_find_modify_other, StdMap_find_subscript_other by assumption.
  reflexivity.
Qed.

Lemma count_reference_keys counts ref k :
  In k (StdMap.keys (count_reference' counts ref))
  <-> k = GetApiMethodName ref \/ In k (StdMap.keys counts).
Proof.
  unfold count_reference.
  rewrite StdMap_keys_modify, StdMap_keys_subscript.
  destruct (negb _); [| reflexivity].
  rewrite StdMap_keys_modify, StdMap_keys_subscript. intuition.
Qed.

Lemma count_reference_ok counts ref :
  StdMap.ok counts -> StdMap.ok (count_reference' counts ref).
Proof.
  intros H. unfold count_reference.
  apply StdMap_modify_ok, StdMap_subscript_ok.
  destruct (negb _); [| exact H].
  apply StdMap_modify_ok, StdMap_subscript_ok, H.
Qed.

Lemma count_reference_at counts ref k :
  StdMap.at_ 0%N k (count_reference' counts ref)
  = (StdMap.at_ 0%N k counts
     + N.of_nat (count_occ string_dec [GetApiMethodName ref] k))%N.
Proof.
  simpl count_occ.
  destruct (string_dec (GetApiMethodName ref) k) as [<- | Hne].
  - unfold StdMap.at_ at 1. rewrite count_reference_same. simpl. lia.
  - unfold StdMap.at_ at 1.
    rewrite count_reference_other by congruence.
    fold (StdMap.at_ 0%N k counts). simpl. lia.
Qed.

Lemma fold_count_reference refs : forall counts,
  let r := fold_left count_reference' refs counts in
  (forall k, StdMap.at_ 0%N k r
             = (StdMap.at_ 0%N k counts
                + N.of_nat (count_occ string_dec
                                      (map GetApiMethodName refs) k))%N)
  /\ (forall k, In k (StdMap.keys r)
                <-> In k (StdMap.keys counts)
                    \/ In k (map GetApiMethodName refs))
  /\ (StdMap.ok counts -> StdMap.ok r).
Proof.
  induction refs as [| ref refs IH]; intros counts; cbn zeta.
  - simpl. repeat split; auto; try tauto. intros k. lia.
  - cbn [fold_left map].
    destruct (IH (count_reference' counts ref)) as (Hat & Hkeys & Hok).
    cbn zeta in *. repeat split.
    + intros k. rewrite Hat, count_reference_at.
      change (GetApiMethodName ref :: map GetApiMethodName refs)
        with ([GetApiMethodName ref] ++ map GetApiMethodName refs)%list.
      rewrite count_occ_app. lia.
    + intros H. apply Hkeys in H. rewrite count_reference_keys in H.
      simpl. intuition.
    + intros H. apply Hkeys. rewrite count_reference_keys.
      simpl in H. intuition.
    + intros H. apply Hok, count_reference_ok, H.
Qed.

Lemma count_references_spec refs :
  StdMap.ok (count_references' refs)
  /\ (forall k, In k (StdMap.keys (count_references' refs))
                <-> In k (map GetApiMethodName refs))
  /\ (forall k n, In (k, n) (count_references' refs) ->
                  n = N.of_nat (count_occ string_dec
                                          (map GetApiMethodName refs) k)).
Proof.
  destruct (fold_count_reference refs StdMap.empty) as (Hat & Hkeys & Hok).
  cbn zeta in *. fold (count_references' refs) in *.
  assert (StdMap.ok (count_references' refs)) as Hsorted
      by (apply Hok; constructor).
  split; [exact Hsorted | split].
  - intros k. rewrite Hkeys. simpl. tauto.
  - intros k n Hin. specialize (Hat k).
    unfold StdMap.at_ in Hat at 1.
    rewrite (StdMap_In_find k n _ Hsorted Hin) in Hat.
    rewrite Hat. reflexivity.
Qed.

End CountFacts.

(** ** Order of the reflection pass *)

Lemma pair_lt_trans a b c : pair_lt a b -> pair_lt b c -> pair_lt a c.
Proof.
  unfold pair_lt. intros [H1 | [E1 H1]] [H2 | [E2 H2]].
  - left. eapply str_lt_trans; eassumption.
  - left. rewrite <- E2. exact H1.
  - left. rewrite E1. exact H2.
  - right. split; [congruence | eapply str_lt_trans; eassumption].
Qed.

Lemma StronglySorted_filter {A : Type} (R : A -> A -> Prop) f l :
  StronglySorted R l -> StronglySorted R (filter f l).
Proof.
  induction 1 as [| a l Hs IH Ha]; simpl; [constructor |].
  destruct (f a); [| exact IH].
  constructor; [exact IH |].
  rewrite Forall_forall in *. intros x Hx. apply filter_In in Hx.
  apply Ha, Hx.
Qed.

Lemma StronglySorted_map_pair cls strings :
  StronglySorted str_lt strings ->
  StronglySorted pair_lt (map (pair cls) strings).
Proof.
  induction 1 as [| a l Hs IH Ha]; simpl; constructor; [exact IH |].
  rewrite Forall_forall in *. intros x Hx. apply in_map_iff in Hx.
  destruct Hx as (y & <- & Hy). right. simpl. auto.
Qed.

Lemma StronglySorted_app {A : Type} (R : A -> A -> Prop) l1 l2 :
  StronglySorted R l1 -> StronglySorted R l2 ->
  (forall x y, In x l1 -> In y l2 -> R x y) ->
  StronglySorted R (l1 ++ l2).
Proof.
  induction 1 as [| a l Hs IH Ha]; simpl; intros H2 Hc; [exact H2 |].
  constructor; [apply IH; auto |].
  rewrite Forall_forall in *. intros x Hx. apply in_app_or in Hx.
  destruct Hx as [Hx | Hx]; auto.
Qed.

Lemma list_prod_sorted classes strings :
  StronglySorted str_lt classes -> StronglySorted str_lt strings ->
  StronglySorted pair_lt (list_prod classes strings).
Proof.
  intros Hc Hs. induction Hc as [| cls classes Hc IH Ha]; simpl.
  - constructor.
  - apply StronglySorted_app; [apply StronglySorted_map_pair, Hs | exact IH |].
    intros x y Hx Hy. apply in_map_iff in Hx. destruct Hx as (z & <- & _).
    destruct y as [c n]. apply in_prod_iff in Hy. destruct Hy as [Hc' _].
    left. simpl. rewrite Forall_forall in Ha. auto.
Qed.

Lemma Sorted_keys_filter {V : Type} (f : string * V -> bool)
    (m : StdMap.t V) :
  StdMap.ok m -> Sorted str_lt (map fst (filter f m)).
Proof.
  unfold StdMap.ok, StdMap.keys. intros H.
  apply Sorted_StronglySorted in H; [| exact str_lt_trans].
  apply StronglySorted_Sorted.
  induction m as [| [k v] m IH]; simpl; [constructor |].
  inversion H as [| ? ? Hs Ha]; subst.
  destruct (f (k, v)); [| auto].
  simpl. constructor; [auto |].
  rewrite Forall_forall in *. intros x Hx. apply in_map_iff in Hx.
  destruct Hx as ([k' v'] & <- & Hin). apply filter_In in Hin.
  apply Ha. apply in_map_iff. exists (k', v'). tauto.
Qed.

(** ** The report *)
Section ReportProperties.

Context {ApiList : Type}.
Variable hidden_api_ : HiddenApi ApiList.
Variable GetIntValue : ApiList -> N.
Variable print_ApiList : ApiList -> string.
Variable GetApiMethodName_ref : MethodReference -> string.

Local Abbreviation DumpReferences' := (DumpReferences GetApiMethodName_ref).
Local Abbreviation count_references' :=
  (count_references GetApiMethodName_ref).
Local Abbreviation Dump' :=
  (Dump hidden_api_ GetIntValue print_ApiList GetApiMethodName_ref).
Local Abbreviation render_findings' :=
  (render_findings hidden_api_ print_ApiList GetApiMethodName_ref).
Local Abbreviation linking_findings' := (linking_findings hidden_api_).
Local Abbreviation class_findings' := (class_findings hidden_api_).
Local Abbreviation reflection_findings' := (reflection_findings hidden_api_).
Local Abbreviation reflection_visits' := (reflection_visits hidden_api_).
Local Abbreviation findings' := (findings hidden_api_).
Local Abbreviation reported' := (reported hidden_api_).

Lemma reported_iff name :
  reported' name = true
  <-> GetSignatureSource hidden_api_ name <> APP
      /\ ShouldReport hidden_api_ name = true.
Proof.
  unfold reported. rewrite andb_true_iff, negb_true_iff.
  destruct (GetSignatureSource hidden_api_ name); simpl;
    intuition congruence.
Qed.

(** The findings of the reflection pass are those of the visited pairs. *)
Lemma class_findings_visits index strings cls :
  class_findings' index strings cls
  = map (fun pair =>
           mkFinding Reflection (candidate pair)
                     (StdMap.at_ [] (snd pair) index))
        (filter (fun pair => reported' (candidate pair))
                (map (pair cls) strings)).
Proof.
  unfold class_findings.
  induction strings as [| name strings IH]; [reflexivity |].
  cbn [filter map]. unfold candidate at 2. cbn [fst snd].
  destruct (reported' (cls ++ "->" ++ name)); cbn [map]; rewrite IH;
    reflexivity.
Qed.

Lemma reflection_findings_visits st :
  reflection_findings' st
  = map (fun pair =>
           mkFinding Reflection (candidate pair)
                     (StdMap.at_ [] (snd pair) (reflection_locations_ st)))
        (reflection_visits' st).
Proof.
  unfold reflection_findings, reflection_visits.
  induction (classes_ st) as [| cls classes IH]; [reflexivity |].
  cbn [flat_map list_prod].
  rewrite filter_app, map_app, <- IH, class_findings_visits. reflexivity.
Qed.

Lemma class_findings_same_reads m0 m strings cls :
  same_reads m0 m ->
  class_findings' m strings cls = class_findings' m0 strings cls.
Proof.
  intros H. unfold class_findings. apply map_ext. intros name.
  rewrite (H name). reflexivity.
Qed.

Lemma Dump_text os stats dump_reflection st :
  snd (fst (Dump' os stats dump_reflection st))
  = os ++ render_findings' (count stats) (findings' dump_reflection st).
Proof.
  destruct (Dump_spec hidden_api_ GetIntValue print_ApiList
                      GetApiMethodName_ref os stats dump_reflection st)
    as (m & stats' & -> & _). reflexivity.
Qed.

(** C3 (amended): [Dump] writes the method findings, then the field
    findings, then, when reflection output is enabled, the reflection
    findings.  An entry of a location map is a finding if and only if its
    name is attributed to a source other than the application and is
    report-eligible.  The two direct passes go in ascending order of the
    name; the reflection pass goes through the pairs class by class: in
    ascending order of the class and, for one class, in ascending order
    of the literal. *)
Theorem dump_pass_order os stats dump_reflection st :
  finder_ok st ->
  snd (fst (Dump' os stats dump_reflection st))
  = os ++ render_findings' (count stats)
            (linking_findings' (method_locations_ st)
             ++ linking_findings' (field_locations_ st)
             ++ (if dump_reflection
                 then map (fun pair =>
                             mkFinding Reflection
                               (fst pair ++ "->" ++ snd pair)
                               (StdMap.at_ [] (snd pair)
                                           (reflection_locations_ st)))
                          (reflection_visits' st)
                 else []))%list
  /\ (forall m name refs,
        In (mkFinding Linking name refs) (linking_findings' m)
        <-> In (name, refs) m
            /\ GetSignatureSource hidden_api_ name <> APP
            /\ ShouldReport hidden_api_ name = true)
  /\ Sorted str_lt
            (map api_name (linking_findings' (method_locations_ st)))
  /\ Sorted str_lt
            (map api_name (linking_findings' (field_locations_ st)))
  /\ StronglySorted pair_lt (reflection_visits' st).
Proof.
  intros [Hc Hs _ Hm Hf]. split; [| split; [| split; [| split]]].
  - rewrite Dump_text. unfold findings.
    rewrite reflection_findings_visits. reflexivity.
  - intros m name refs. unfold linking_findings.
    rewrite in_map_iff. split.
    + intros ([k v] & E & Hin). inversion E; subst.
      apply filter_In in Hin. simpl in Hin.
      rewrite reported_iff in Hin. tauto.
    + intros (Hin & Hsrc & Hrep). exists (name, refs).
      split; [reflexivity |]. apply filter_In. simpl.
      rewrite reported_iff. tauto.
  - unfold linking_findings. rewrite map_map. simpl.
    apply Sorted_keys_filter, Hm.
  - unfold linking_findings. rewrite map_map. simpl.
    apply Sorted_keys_filter, Hf.
  - unfold reflection_visits. apply StronglySorted_filter.
    apply list_prod_sorted;
      (apply Sorted_StronglySorted; [exact str_lt_trans |]);
      [exact Hc | exact Hs].
Qed.

(** C4: the location list of a finding has one line per distinct
    textual form of its call sites, in ascending order of the form; a
    line is seven spaces, the form, and, exactly when the form occurs
    more than once, its number of occurrences in parentheses; two call
    sites of the same form give the one line ending in
    [(2 occurrences)]. *)
Theorem DumpReferences_lines os references :
  let counts := count_references' references in
  let texts := map GetApiMethodName_ref references in
  DumpReferences' os references
  = os ++ join (map (fun pair =>
                       kPrefix ++ fst pair
                       ++ (if (1 <? snd pair)%N
                           then " (" ++ dec (snd pair) ++ " occurrences)"
                           else "")
                       ++ endl) counts)
  /\ (kPrefix = "       " /\ String.length kPrefix = 7)
  /\ Sorted str_lt (StdMap.keys counts)
  /\ (forall s, In s (StdMap.keys counts) <-> In s texts)
  /\ (forall s n, In (s, n) counts ->
                  n = N.of_nat (count_occ string_dec texts s))
  /\ (forall r1 r2,
        GetApiMethodName_ref r1 = GetApiMethodName_ref r2 ->
        DumpReferences' "" [r1; r2]
        = "       " ++ GetApiMethodName_ref r1 ++ " (2 occurrences)" ++ endl).
Proof.
  intros counts texts.
  destruct (count_references_spec GetApiMethodName_ref references)
    as (Hok & Hkeys & Hcount).
  split; [| split; [| split; [| split; [| split]]]].
  - apply DumpReferences_text.
  - split; reflexivity.
  - exact Hok.
  - exact Hkeys.
  - exact Hcount.
  - intros r1 r2 E. unfold DumpReferences, count_references.
    cbn [fold_left]. unfold count_reference. rewrite <- E.
    unfold StdMap.count. cbn [StdMap.find StdMap.empty StdMap.subscript
                              StdMap.modify negb].
    repeat (rewrite compare_refl;
            cbn [StdMap.find StdMap.subscript StdMap.modify negb]).
    cbn [fold_left]. unfold print_reference. cbn [fst snd].
    change (1 <? N.succ (N.succ 0))%N with true. cbv iota.
    change (dec (N.succ (N.succ 0))) with "2".
    repeat rewrite str_app_assoc. reflexivity.
Qed.

(** C6: two calls of [Dump], the second on the state left by the first,
    with the same stream contents and counters at entry, write the same
    text. *)
Theorem dump_twice_same_text os stats dump_reflection st :
  let '(st1, text1, _) :=
    Dump hidden_api_ GetIntValue print_ApiList GetApiMethodName_ref
         os stats dump_reflection st in
  let '(_, text2, _) :=
    Dump hidden_api_ GetIntValue print_ApiList GetApiMethodName_ref
         os stats dump_reflection st1 in
  text1 = text2.
Proof.
  destruct (Dump_spec hidden_api_ GetIntValue print_ApiList
                      GetApiMethodName_ref os stats dump_reflection st)
    as (m & stats1 & -> & Hm & _).
  destruct (Dump_spec hidden_api_ GetIntValue print_ApiList
                      GetApiMethodName_ref os stats dump_reflection
                      (mkFinder (classes_ st) (strings_ st) m
                                (method_locations_ st) (field_locations_ st)))
    as (m' & stats2 & -> & _).
  f_equal. f_equal. unfold findings, reflection_findings. cbn [classes_
    strings_ reflection_locations_ method_locations_ field_locations_].
  do 2 f_equal. destruct dump_reflection; [| reflexivity].
  apply flat_map_ext. intros cls. symmetry.
  apply class_findings_same_reads, Hm.
Qed.

End ReportProperties.

(** ** [Dump] after [Run] *)
Section FrameProperties.

Context {ApiList : Type}.
Variable hidden_api_ : HiddenApi ApiList.
Variable ToInternalName : string -> string.
Variable GetApiMethodName : DexFile -> N -> string.
Variable GetApiFieldName : DexFile -> N -> string.
Variable GetIntValue : ApiList -> N.
Variable print_ApiList : ApiList -> string.
Variable GetApiMethodName_ref : MethodReference -> string.

Local Abbreviation Run' :=
  (Run hidden_api_ ToInternalName GetApiMethodName GetApiFieldName).
Local Abbreviation Dump' :=
  (Dump hidden_api_ GetIntValue print_ApiList GetApiMethodName_ref).

(** C10: [Dump] returns the aggregation state it was given, whenever
    every literal of the string set has an entry in the reflection
    locations; this holds of the empty state and [Run] keeps it.  For
    such a state the subscript of the reflection pass finds the entry of
    every literal and inserts nothing. *)
Theorem dump_leaves_state :
  strings_indexed empty_finder
  /\ (forall resolvers class_filter st,
        strings_indexed st ->
        strings_indexed (Run' resolvers class_filter st))
  /\ (forall os stats dump_reflection st,
        strings_indexed st ->
        fst (fst (Dump' os stats dump_reflection st)) = st)
  /\ (forall st name,
        strings_indexed st -> In name (strings_ st) ->
        StdMap.subscript [] name (reflection_locations_ st)
        = reflection_locations_ st).
Proof.
  split; [| split; [| split]].
  - intros s [].
  - intros resolvers class_filter st. apply Run_strings_indexed.
  - intros os stats dump_reflection st Hst.
    destruct (Dump_spec hidden_api_ GetIntValue print_ApiList
                        GetApiMethodName_ref os stats dump_reflection st)
      as (m & stats' & -> & _ & Hk).
    rewrite (Hk Hst). destruct st; reflexivity.
  - intros st name Hst Hin. apply StdMap_subscript_present, Hst, Hin.
Qed.

End FrameProperties.

(** ** The properties on the concrete units *)

Lemma const_string_three_outcomes_witness :
  Opcode (Scenario.load 3) = CONST_STRING
  /\ has_space (GetStringView (GetDexFile Scenario.resolver)
                              (VRegB_21c (Scenario.load 3))) = false
  /\ In "secretField"
        (strings_ (visit_instruction Scenario.hidden_api ToInternalName_model
                     Scenario.method_name Scenario.field_name
                     Scenario.resolver Scenario.m (Scenario.load 3)
                     empty_finder))
  /\ StdMap.find "secretField"
       (reflection_locations_
          (visit_instruction Scenario.hidden_api ToInternalName_model
             Scenario.method_name Scenario.field_name
             Scenario.resolver Scenario.m (Scenario.load 3) empty_finder))
     = Some [Scenario.site].
Proof.
  split; [reflexivity | split; [reflexivity |]].
  destruct (const_string_three_outcomes Scenario.hidden_api
              ToInternalName_model Scenario.method_name Scenario.field_name
              Scenario.resolver Scenario.m (Scenario.load 3) empty_finder
              eq_refl eq_refl) as (_ & _ & _ & _ & H).
  destruct (H eq_refl eq_refl) as (_ & Hs & Hf & _).
  split; [apply Hs; left; reflexivity | exact Hf].
Defined.

Lemma scan_stops_at_bound_witness :
  In Scenario.site
     (StdMap.at_ [] "Lplat/Hidden;->x()V"
        (method_locations_
           (scan_method Scenario.hidden_api ToInternalName_model
              Scenario.method_name Scenario.field_name Scenario.resolver
              Scenario.m empty_finder)))
  /\ scan_method Scenario.hidden_api ToInternalName_model
       Scenario.method_name Scenario.field_name Scenario.resolver
       Scenario.m empty_finder
     = fold_left
         (fun st inst =>
            visit_instruction Scenario.hidden_api ToInternalName_model
              Scenario.method_name Scenario.field_name Scenario.resolver
              Scenario.m (Inst inst) st)
         [mkPcPair 0 Scenario.invoke; mkPcPair 3 (Scenario.load 3);
          mkPcPair 5 Scenario.invoke]
         empty_finder.
Proof.
  assert (Forall (fun inst =>
                    (DexPc inst
                     < InsnsSizeInCodeUnits (GetInstructions Scenario.m))%N)
                 [mkPcPair 0 Scenario.invoke; mkPcPair 3 (Scenario.load 3);
                  mkPcPair 5 Scenario.invoke]) as Hpre
      by (repeat constructor).
  assert (InsnsSizeInCodeUnits (GetInstructions Scenario.m) <= 8)%N as Hpost
      by (simpl; lia).
  destruct (scan_stops_at_bound Scenario.hidden_api ToInternalName_model
              Scenario.method_name Scenario.field_name Scenario.resolver
              Scenario.m
              [mkPcPair 0 Scenario.invoke; mkPcPair 3 (Scenario.load 3);
               mkPcPair 5 Scenario.invoke]
              [mkPcPair 8 Scenario.invoke; mkPcPair 11 (Scenario.load 4)]
              empty_finder eq_refl Hpre Hpost)
    as (Hfold & Hrec).
  split; [| exact Hfold].
  destruct (Hrec (mkPcPair 0 Scenario.invoke) (or_introl eq_refl))
    as (H35 & _).
  exact (H35 eq_refl).
Defined.

Lemma literals_have_no_space_witness :
  no_space_literals Scenario.literals_scanned
  /\ visit_instruction Scenario.hidden_api ToInternalName_model
       Scenario.method_name Scenario.field_name
       (mkResolver Scenario.literals_unit) Scenario.literals
       (Scenario.load 5) Scenario.scanned
     = Scenario.scanned.
Proof.
  destruct (literals_have_no_space Scenario.hidden_api ToInternalName_model
              Scenario.method_name Scenario.field_name
              [mkResolver Scenario.literals_unit] Scenario.all_classes)
    as (Hempty & _ & Hrun & Hvisit).
  split.
  - exact (Hrun empty_finder Hempty).
  - exact (Hvisit (mkResolver Scenario.literals_unit) Scenario.literals
                  (Scenario.load 5) Scenario.scanned eq_refl eq_refl).
Defined.

(** C7 as stated fails: a literal with a tab, which is white space,
    passes the filter and is kept in the string set with its location. *)
Lemma tab_literal_is_kept :
  In Scenario.tab_literal (strings_ Scenario.literals_scanned)
  /\ In Scenario.tab_literal
        (StdMap.keys (reflection_locations_ Scenario.literals_scanned))
  /\ has_whitespace Scenario.tab_literal = true.
Proof.
  split; [| split].
  - vm_compute. left. reflexivity.
  - vm_compute. left. reflexivity.
  - reflexivity.
Qed.

Lemma type_table_collected_witness :
  In "La/B;"
     (classes_ (Run Scenario.hidden_api ToInternalName_model
                    Scenario.method_name Scenario.field_name
                    [Scenario.resolver] Scenario.no_class empty_finder)).
Proof.
  exact (type_table_collected Scenario.hidden_api ToInternalName_model
           Scenario.method_name Scenario.field_name
           [Scenario.resolver] Scenario.no_class empty_finder
           Scenario.resolver 0%N (or_introl eq_refl) eq_refl).
Defined.

Lemma reflection_index_within_strings_witness :
  locations_in_strings
    (exec [ClassesInsert "La/B;"; ClassesInsert "I";
           MethodPushBack "Lplat/Hidden;->x()V" Scenario.site;
           StringsInsert "secretField"]
          empty_finder).
Proof.
  refine (proj1 (reflection_index_within_strings Scenario.hidden_api
                   ToInternalName_model Scenario.method_name
                   Scenario.field_name [Scenario.resolver]
                   Scenario.all_classes empty_finder
                   [ClassesInsert "La/B;"; ClassesInsert "I";
                    MethodPushBack "Lplat/Hidden;->x()V" Scenario.site;
                    StringsInsert "secretField"]
                   [ReflectionPushBack "secretField" Scenario.site;
                    MethodPushBack "Lplat/Hidden;->x()V" Scenario.site]
                   _ eq_refl)).
  intros k [].
Defined.

Lemma dump_pass_order_witness :
  finder_ok Scenario.scanned
  /\ snd (fst (Dump Scenario.hidden_api (fun x => x) Scenario.print_list
                    Scenario.reference_name "" Scenario.fresh_stats true
                    Scenario.scanned))
     = "" ++ render_findings Scenario.hidden_api Scenario.print_list
               Scenario.reference_name 0
               [mkFinding Linking "Lplat/Hidden;->x()V"
                          [Scenario.site; Scenario.site];
                mkFinding Reflection "La/B;->secretField" [Scenario.site]].
Proof.
  assert (finder_ok Scenario.scanned) as Hok
      by (apply Run_ok, empty_finder_ok).
  split; [exact Hok |].
  exact (proj1 (dump_pass_order Scenario.hidden_api (fun x => x)
                  Scenario.print_list Scenario.reference_name ""
                  Scenario.fresh_stats true Scenario.scanned Hok)).
Defined.

(** C3 as stated fails for the reflection pass: with two classes and two
    literals the findings come out class by class, so the literals of
    successive findings are [x], [y], [x], [y], which is not ascending. *)
Lemma reflection_pass_not_by_literal :
  snd (fst (Dump Grid.hidden_api (fun x => x) Grid.print_list
                 Grid.reference_name "" (mkStats 0 0 0 [0%N]) true
                 Grid.scanned))
  = "#1: Reflection blocked La;->x potential use(s):" ++ endl
    ++ "       La;->m()V" ++ endl ++ endl
    ++ "#2: Reflection blocked La;->y potential use(s):" ++ endl
    ++ "       La;->m()V" ++ endl ++ endl
    ++ "#3: Reflection blocked Lb;->x potential use(s):" ++ endl
    ++ "       La;->m()V" ++ endl ++ endl
    ++ "#4: Reflection blocked Lb;->y potential use(s):" ++ endl
    ++ "       La;->m()V" ++ endl ++ endl
  /\ map snd (reflection_visits Grid.hidden_api Grid.scanned)
     = ["x"; "y"; "x"; "y"]
  /\ ~ Sorted str_le (map snd (reflection_visits Grid.hidden_api Grid.scanned)).
Proof.
  split; [vm_compute; reflexivity | split; [vm_compute; reflexivity |]].
  change (map snd (reflection_visits Grid.hidden_api Grid.scanned))
    with ["x"; "y"; "x"; "y"].
  intros H. inversion H as [| ? ? H1 _]; subst.
  inversion H1 as [| ? ? _ H2]; subst.
  inversion H2 as [| ? ? H3]; subst.
  apply H3. reflexivity.
Qed.

Lemma DumpReferences_lines_witness :
  Scenario.reference_name (mkRef 0 1) = Scenario.reference_name (mkRef 0 2)
  /\ DumpReferences Scenario.reference_name "" [mkRef 0 1; mkRef 0 2]
     = "       La/B;->m()V (2 occurrences)" ++ endl.
Proof.
  split; [reflexivity |].
  exact (proj2 (proj2 (proj2 (proj2 (proj2
           (DumpReferences_lines Scenario.reference_name "" [])))))
           (mkRef 0 1) (mkRef 0 2) eq_refl).
Defined.

Lemma dump_leaves_state_witness :
  strings_indexed Scenario.scanned
  /\ fst (fst (Dump Scenario.hidden_api (fun x => x) Scenario.print_list
                    Scenario.reference_name "" Scenario.fresh_stats true
                    Scenario.scanned))
     = Scenario.scanned.
Proof.
  destruct (dump_leaves_state Scenario.hidden_api ToInternalName_model
              Scenario.method_name Scenario.field_name (fun x => x)
              Scenario.print_list Scenario.reference_name)
    as (Hempty & Hrun & Hdump & _).
  assert (strings_indexed Scenario.scanned) as Hst
      by exact (Hrun [Scenario.resolver] Scenario.all_classes empty_finder
                     Hempty).
  split; [exact Hst |].
  exact (Hdump "" Scenario.fresh_stats true Scenario.scanned Hst).
Defined.

(** The report of the end-to-end scenario: one linking finding with a
    single location line counting two occurrences, and one reflection
    finding for the literal. *)
Example scenario_report :
  snd (fst (Dump Scenario.hidden_api (fun x => x) Scenario.print_list
                 Scenario.reference_name "" Scenario.fresh_stats true
                 Scenario.scanned))
  = "#1: Linking blocked Lplat/Hidden;->x()V use(s):" ++ endl
    ++ "       La/B;->m()V (2 occurrences)" ++ endl ++ endl
    ++ "#2: Reflection blocked La/B;->secretField potential use(s):" ++ endl
    ++ "       La/B;->m()V" ++ endl ++ endl.
Proof. vm_compute. reflexivity. Qed.

(** The sequence numbers are read from the counters passed to [Dump]: a
    call given the counters left by an earlier call numbers its findings
    from there on. *)
Example scenario_numbering_continues :
  let '(st1, _, stats1) :=
    Dump Scenario.hidden_api (fun x => x) Scenario.print_list
         Scenario.reference_name "" Scenario.fresh_stats true
         Scenario.scanned in
  snd (fst (Dump Scenario.hidden_api (fun x => x) Scenario.print_list
                 Scenario.reference_name "" stats1 true st1))
  = "#3: Linking blocked Lplat/Hidden;->x()V use(s):" ++ endl
    ++ "       La/B;->m()V (2 occurrences)" ++ endl ++ endl
    ++ "#4: Reflection blocked La/B;->secretField potential use(s):" ++ endl
    ++ "       La/B;->m()V" ++ endl ++ endl.
Proof. vm_compute. reflexivity. Qed.

(** * Further properties of the scanner *)

Lemma push_back_at_at name ref m k :
  StdMap.at_ [] k (push_back_at name ref m)
  = (StdMap.at_ [] k m ++ (if String.eqb name k then [ref] else []))%list.
Proof.
  destruct (String.eqb_spec name k) as [<- | Hne].
  - unfold StdMap.at_ at 1. rewrite push_back_at_same. reflexivity.
  - unfold StdMap.at_ at 1. rewrite push_back_at_other by congruence.
    fold (StdMap.at_ [] k m). rewrite app_nil_r. reflexivity.
Qed.

Lemma exec_method_at name p : forall st,
  StdMap.at_ [] name (method_locations_ (exec p st))
  = (StdMap.at_ [] name (method_locations_ st) ++ method_pushes name p)%list.
Proof.
  induction p as [| s p IH]; intros st; simpl.
  - rewrite app_nil_r. reflexivity.
  - change (fold_left (fun st s => exec_stmt s st) p (exec_stmt s st))
      with (exec p (exec_stmt s st)).
    rewrite IH. unfold method_pushes. cbn [flat_map].
    destruct s; simpl; try reflexivity.
    rewrite push_back_at_at, <- app_assoc. reflexivity.
Qed.

Lemma exec_field_at name p : forall st,
  StdMap.at_ [] name (field_locations_ (exec p st))
  = (StdMap.at_ [] name (field_locations_ st) ++ field_pushes name p)%list.
Proof.
  induction p as [| s p IH]; intros st; simpl.
  - rewrite app_nil_r. reflexivity.
  - change (fold_left (fun st s => exec_stmt s st) p (exec_stmt s st))
      with (exec p (exec_stmt s st)).
    rewrite IH. unfold field_pushes. cbn [flat_map].
    destruct s; simpl; try reflexivity.
    rewrite push_back_at_at, <- app_assoc. reflexivity.
Qed.

Lemma method_pushes_app name p q :
  method_pushes name (p ++ q)
  = (method_pushes name p ++ method_pushes name q)%list.
Proof. unfold method_pushes. apply flat_map_app. Qed.

Lemma field_pushes_app name p q :
  field_pushes name (p ++ q)
  = (field_pushes name p ++ field_pushes name q)%list.
Proof. unfold field_pushes. apply flat_map_app. Qed.

Lemma exec_classes_In p : forall st x,
  In x (classes_ (exec p st))
  <-> In x (classes_ st) \/ In (ClassesInsert x) p.
Proof.
  induction p as [| s p IH]; intros st x; simpl.
  - tauto.
  - change (fold_left (fun st s => exec_stmt s st) p (exec_stmt s st))
      with (exec p (exec_stmt s st)).
    rewrite IH. destruct s; simpl;
      try (split; [intros [H | H]; auto | intros [H | [H | H]]; auto;
           discriminate]).
    rewrite StdSet_insert_In. split.
    + intros [[-> | H] | H]; auto.
    + intros [H | [H | H]]; auto. inversion H; auto.
Qed.

Lemma exec_strings_In p : forall st x,
  In x (strings_ (exec p st))
  <-> In x (strings_ st) \/ In (StringsInsert x) p.
Proof.
  induction p as [| s p IH]; intros st x; simpl.
  - tauto.
  - change (fold_left (fun st s => exec_stmt s st) p (exec_stmt s st))
      with (exec p (exec_stmt s st)).
    rewrite IH. destruct s; simpl;
      try (split; [intros [H | H]; auto | intros [H | [H | H]]; auto;
           discriminate]).
    rewrite StdSet_insert_In. split.
    + intros [[-> | H] | H]; auto.
    + intros [H | [H | H]]; auto. inversion H; auto.
Qed.

Lemma exec_only_classes p st :
  (forall s, In s p -> exists x, s = ClassesInsert x) ->
  strings_ (exec p st) = strings_ st
  /\ reflection_locations_ (exec p st) = reflection_locations_ st
  /\ method_locations_ (exec p st) = method_locations_ st
  /\ field_locations_ (exec p st) = field_locations_ st.
Proof.
  revert st. induction p as [| s p IH]; intros st H; simpl; [auto |].
  change (fold_left (fun st s => exec_stmt s st) p (exec_stmt s st))
    with (exec p (exec_stmt s st)).
  destruct (H s (or_introl eq_refl)) as [x ->].
  destruct (IH (exec_stmt (ClassesInsert x) st)) as (H1 & H2 & H3 & H4).
  - intros s Hs. apply H. right. exact Hs.
  - rewrite H1, H2, H3, H4. simpl. auto.
Qed.

Lemma push_back_at_nonempty name ref m :
  entries_nonempty m -> entries_nonempty (push_back_at name ref m).
Proof.
  unfold entries_nonempty, push_back_at.
  induction m as [| [z w] m IH]; simpl; intros Hm k v Hin.
  - rewrite compare_refl in Hin. destruct Hin as [E | []].
    inversion E; subst. discriminate.
  - destruct (String_as_OT.compare name z) eqn:E; simpl in Hin.
    + rewrite E in Hin. destruct Hin as [E' | Hin].
      * inversion E'; subst. intros Hnil. apply app_eq_nil in Hnil.
        destruct Hnil; discriminate.
      * apply (Hm k v). right. exact Hin.
    + rewrite compare_refl in Hin. destruct Hin as [E' | Hin].
      * inversion E'; subst. discriminate.
      * apply (Hm k v). exact Hin.
    + rewrite E in Hin. destruct Hin as [E' | Hin].
      * inversion E'; subst. apply (Hm k v). left. reflexivity.
      * apply IH with (k := k); [| exact Hin].
        intros k' v' H'. apply (Hm k' v'). right. exact H'.
Qed.

Lemma exec_locations_nonempty p : forall st,
  locations_nonempty st -> locations_nonempty (exec p st).
Proof.
  induction p as [| s p IH]; intros st H; simpl; [exact H |].
  apply IH. destruct H as (H1 & H2 & H3).
  destruct s; simpl; repeat split; simpl;
    auto using push_back_at_nonempty.
Qed.

Lemma exec_reflection_at name p : forall st,
  StdMap.at_ [] name (reflection_locations_ (exec p st))
  = (StdMap.at_ [] name (reflection_locations_ st)
     ++ reflection_pushes name p)%list.
Proof.
  induction p as [| s p IH]; intros st; simpl.
  - rewrite app_nil_r. reflexivity.
  - change (fold_left (fun st s => exec_stmt s st) p (exec_stmt s st))
      with (exec p (exec_stmt s st)).
    rewrite IH. unfold reflection_pushes. cbn [flat_map].
    destruct s; simpl; try reflexivity.
    rewrite push_back_at_at, <- app_assoc. reflexivity.
Qed.

Lemma In_method_pushes name ref p :
  In ref (method_pushes name p) <-> In (MethodPushBack name ref) p.
Proof.
  unfold method_pushes. rewrite in_flat_map. split.
  - intros (s & Hs & Hin). destruct s; try destruct Hin.
    destruct (String.eqb_spec name0 name) as [-> | Hne]; [| destruct Hin].
    destruct Hin as [-> | []]. exact Hs.
  - intros H. exists (MethodPushBack name ref). split; [exact H |].
    rewrite String.eqb_refl. left. reflexivity.
Qed.

Lemma In_field_pushes name ref p :
  In ref (field_pushes name p) <-> In (FieldPushBack name ref) p.
Proof.
  unfold field_pushes. rewrite in_flat_map. split.
  - intros (s & Hs & Hin). destruct s; try destruct Hin.
    destruct (String.eqb_spec name0 name) as [-> | Hne]; [| destruct Hin].
    destruct Hin as [-> | []]. exact Hs.
  - intros H. exists (FieldPushBack name ref). split; [exact H |].
    rewrite String.eqb_refl. left. reflexivity.
Qed.

Lemma In_reflection_pushes name ref p :
  In ref (reflection_pushes name p) <-> In (ReflectionPushBack name ref) p.
Proof.
  unfold reflection_pushes. rewrite in_flat_map. split.
  - intros (s & Hs & Hin). destruct s; try destruct Hin.
    destruct (String.eqb_spec name0 name) as [-> | Hne]; [| destruct Hin].
    destruct Hin as [-> | []]. exact Hs.
  - intros H. exists (ReflectionPushBack name ref). split; [exact H |].
    rewrite String.eqb_refl. left. reflexivity.
Qed.

Section ScannerContents.

Context {ApiList : Type}.
Variable hidden_api_ : HiddenApi ApiList.
Variable ToInternalName : string -> string.
Variable GetApiMethodName : DexFile -> N -> string.
Variable GetApiFieldName : DexFile -> N -> string.

Local Abbreviation instruction_stmts' :=
  (instruction_stmts hidden_api_ ToInternalName GetApiMethodName
                     GetApiFieldName).
Local Abbreviation method_stmts' :=
  (method_stmts hidden_api_ ToInternalName GetApiMethodName GetApiFieldName).
Local Abbreviation CollectAccesses_stmts' :=
  (CollectAccesses_stmts hidden_api_ ToInternalName GetApiMethodName
                         GetApiFieldName).
Local Abbreviation Run_stmts' :=
  (Run_stmts hidden_api_ ToInternalName GetApiMethodName GetApiFieldName).

Lemma In_Run_stmts s resolvers class_filter :
  In s (Run_stmts' resolvers class_filter)
  <-> (exists resolver,
         In resolver resolvers /\ In s (types_stmts (GetDexFile resolver)))
      \/ (exists resolver method inst,
            visits resolvers class_filter resolver method inst
            /\ In s (instruction_stmts' resolver method inst)).
Proof.
  unfold Run_stmts. rewrite in_flat_map. split.
  - intros (r & Hr & Hs). unfold CollectAccesses_stmts in Hs.
    apply in_app_or in Hs. destruct Hs as [Hs | Hs]; [left; eauto |].
    right. apply in_flat_map in Hs. destruct Hs as (c & Hc & Hs).
    unfold class_stmts in Hs.
    destruct (Matches class_filter (GetDescriptor c)) eqn:E; [| destruct Hs].
    apply in_flat_map in Hs. destruct Hs as (m & Hm & Hs).
    unfold method_stmts in Hs. apply in_flat_map in Hs.
    destruct Hs as (i & Hi & Hs).
    exists r, m, (Inst i). split; [| exact Hs].
    exists c, i. repeat split; assumption.
  - intros [(r & Hr & Hs) | (r & m & inst & Hv & Hs)].
    + exists r. split; [exact Hr |]. unfold CollectAccesses_stmts.
      apply in_or_app. left. exact Hs.
    + destruct Hv as (c & i & Hr & Hc & E & Hm & Hi & ->).
      exists r. split; [exact Hr |]. unfold CollectAccesses_stmts.
      apply in_or_app. right. apply in_flat_map. exists c.
      split; [exact Hc |]. unfold class_stmts. rewrite E.
      apply in_flat_map. exists m. split; [exact Hm |].
      unfold method_stmts. apply in_flat_map. exists i. split; assumption.
Qed.

Lemma In_types_stmts s dex :
  In s (types_stmts dex)
  <-> exists i, (i < NumTypeIds dex)%N
                /\ s = ClassesInsert (GetTypeDescriptorView dex i).
Proof.
  unfold types_stmts. rewrite in_map_iff. split.
  - intros (j & <- & Hj). apply in_seq in Hj. exists (N.of_nat j).
    split; [lia | reflexivity].
  - intros (i & Hi & ->). exists (N.to_nat i). rewrite N2Nat.id.
    split; [reflexivity | apply in_seq; lia].
Qed.

Lemma In_StringsInsert_instruction x resolver method inst :
  In (StringsInsert x) (instruction_stmts' resolver method inst)
  <-> Opcode inst = CONST_STRING
      /\ GetStringView (GetDexFile resolver) (VRegB_21c inst) = x
      /\ has_space x = false
      /\ IsInBoot hidden_api_ (ToInternalName x) = false
      /\ IsInBoot hidden_api_ x = false.
Proof.
  unfold instruction_stmts, const_string_stmts, find_space_is_npos.
  destruct (Opcode inst); simpl;
    try (split; [intros [H | []]; discriminate
                | intros (H & _); discriminate]);
    try (split; [intros [] | intros (H & _); discriminate]).
  set (name := GetStringView (GetDexFile resolver) (VRegB_21c inst)).
  destruct (has_space name) eqn:Es; simpl.
  - split; [intros [] | intros (_ & <- & H & _); congruence].
  - destruct (IsInBoot hidden_api_ (ToInternalName name)) eqn:E1.
    + split; [intros [H | []]; discriminate
             | intros (_ & <- & _ & H & _); congruence].
    + destruct (IsInBoot hidden_api_ name) eqn:E2.
      * split; [intros [H | []]; discriminate
               | intros (_ & <- & _ & _ & H); congruence].
      * split.
        -- intros [H | [H | []]]; [| discriminate].
           inversion H; subst. auto.
        -- intros (_ & <- & _). left. reflexivity.
Qed.

Lemma In_ReflectionPushBack_instruction x ref resolver method inst :
  In (ReflectionPushBack x ref) (instruction_stmts' resolver method inst)
  <-> In (StringsInsert x) (instruction_stmts' resolver method inst)
      /\ ref = GetReference method.
Proof.
  unfold instruction_stmts, const_string_stmts.
  destruct (Opcode inst); simpl;
    try (split; [intros [H | []]; discriminate
                | intros ([H | []] & _); discriminate]);
    try (split; [intros [] | intros ([] & _)]).
  destruct (find_space_is_npos _); simpl;
    [| split; [intros [] | intros ([] & _)]].
  destruct (IsInBoot _ _); simpl;
    [split; [intros [H | []]; discriminate
            | intros ([H | []] & _); discriminate] |].
  destruct (IsInBoot _ _); simpl;
    [split; [intros [H | []]; discriminate
            | intros ([H | []] & _); discriminate] |].
  split.
  - intros [H | [H | []]]; [discriminate |]. inversion H; subst. auto.
  - intros ([H | [H | []]] & ->); [| discriminate].
    inversion H; subst. right. left. reflexivity.
Qed.

Lemma In_ClassesInsert_instruction x resolver method inst :
  In (ClassesInsert x) (instruction_stmts' resolver method inst)
  <-> Opcode inst = CONST_STRING
      /\ has_space (GetStringView (GetDexFile resolver) (VRegB_21c inst))
         = false
      /\ ((IsInBoot hidden_api_
             (ToInternalName
                (GetStringView (GetDexFile resolver) (VRegB_21c inst))) = true
           /\ x = ToInternalName
                    (GetStringView (GetDexFile resolver) (VRegB_21c inst)))
          \/ (IsInBoot hidden_api_
                (ToInternalName
                   (GetStringView (GetDexFile resolver) (VRegB_21c inst)))
              = false
              /\ IsInBoot hidden_api_
                   (GetStringView (GetDexFile resolver) (VRegB_21c inst))
                 = true
              /\ x = GetStringView (GetDexFile resolver) (VRegB_21c inst))).
Proof.
  unfold instruction_stmts, const_string_stmts, find_space_is_npos.
  destruct (Opcode inst); simpl;
    try (split; [intros [H | []]; discriminate
                | intros (H & _); discriminate]);
    try (split; [intros [] | intros (H & _); discriminate]).
  set (name := GetStringView (GetDexFile resolver) (VRegB_21c inst)).
  destruct (has_space name) eqn:Es; simpl.
  - split; [intros [] | intros (_ & H & _); discriminate].
  - destruct (IsInBoot hidden_api_ (ToInternalName name)) eqn:E1.
    + split.
      * intros [H | []]. inversion H; subst. intuition.
      * intros (_ & _ & [(_ & ->) | (H & _)]); [left; reflexivity
                                                | discriminate].
    + destruct (IsInBoot hidden_api_ name) eqn:E2.
      * split.
        -- intros [H | []]. inversion H; subst. intuition.
        -- intros (_ & _ & [(H & _) | (_ & _ & ->)]);
             [discriminate | left; reflexivity].
      * split.
        -- intros [H | [H | []]]; discriminate.
        -- intros (_ & _ & [(H & _) | (_ & H & _)]); discriminate.
Qed.

End ScannerContents.

Section ScannerExtras.

Context {ApiList : Type}.
Variable hidden_api_ : HiddenApi ApiList.
Variable ToInternalName : string -> string.
Variable GetApiMethodName : DexFile -> N -> string.
Variable GetApiFieldName : DexFile -> N -> string.

Local Abbreviation instruction_stmts' :=
  (instruction_stmts hidden_api_ ToInternalName GetApiMethodName
                     GetApiFieldName).
Local Abbreviation scan_method' :=
  (scan_method hidden_api_ ToInternalName GetApiMethodName GetApiFieldName).
Local Abbreviation CollectAccesses' :=
  (CollectAccesses hidden_api_ ToInternalName GetApiMethodName
                   GetApiFieldName).
Local Abbreviation Run' :=
  (Run hidden_api_ ToInternalName GetApiMethodName GetApiFieldName).
Local Abbreviation Run_stmts' :=
  (Run_stmts hidden_api_ ToInternalName GetApiMethodName GetApiFieldName).
Local Abbreviation invokes' := (invokes GetApiMethodName).
Local Abbreviation accesses_field' := (accesses_field GetApiFieldName).

Lemma method_pushes_instruction name resolver method inst :
  method_pushes name (instruction_stmts' resolver method inst)
  = if invokes' (GetDexFile resolver) name inst
    then [GetReference method] else [].
Proof.
  unfold method_pushes, instruction_stmts, invokes, const_string_stmts.
  destruct (Opcode inst); simpl;
    rewrite ?orb_false_r, ?app_nil_r; try reflexivity.
  destruct (find_space_is_npos _); [| reflexivity].
  destruct (IsInBoot _ _); [reflexivity |].
  destruct (IsInBoot _ _); reflexivity.
Qed.

Lemma field_pushes_instruction name resolver method inst :
  field_pushes name (instruction_stmts' resolver method inst)
  = if accesses_field' (GetDexFile resolver) name inst
    then [GetReference method] else [].
Proof.
  unfold field_pushes, instruction_stmts, accesses_field, const_string_stmts.
  destruct (Opcode inst); simpl;
    rewrite ?orb_false_r, ?app_nil_r; try reflexivity.
  destruct (find_space_is_npos _); [| reflexivity].
  destruct (IsInBoot _ _); [reflexivity |].
  destruct (IsInBoot _ _); reflexivity.
Qed.

Lemma method_pushes_instructions name resolver method l :
  method_pushes name
    (flat_map (fun inst => instruction_stmts' resolver method (Inst inst)) l)
  = repeat (GetReference method)
      (length (filter (fun inst =>
                         invokes' (GetDexFile resolver) name (Inst inst)) l)).
Proof.
  induction l as [| i l IH]; [reflexivity |].
  cbn [flat_map filter]. rewrite method_pushes_app, IH.
  rewrite method_pushes_instruction.
  destruct (invokes' (GetDexFile resolver) name (Inst i)); reflexivity.
Qed.

Lemma field_pushes_instructions name resolver method l :
  field_pushes name
    (flat_map (fun inst => instruction_stmts' resolver method (Inst inst)) l)
  = repeat (GetReference method)
      (length (filter (fun inst =>
                         accesses_field' (GetDexFile resolver) name
                                         (Inst inst)) l)).
Proof.
  induction l as [| i l IH]; [reflexivity |].
  cbn [flat_map filter]. rewrite field_pushes_app, IH.
  rewrite field_pushes_instruction.
  destruct (accesses_field' (GetDexFile resolver) name (Inst i));
    reflexivity.
Qed.

(** X1: scanning a method appends its reference to the locations of a
    method name once per visited invoke of that name, and to the
    locations of a field name once per visited access of that field:
    nothing is merged or dropped when recording, and what was recorded
    before stays in front. *)
Theorem scan_method_appends resolver method st name :
  let seen :=
    visited (InsnsSizeInCodeUnits (GetInstructions method))
            (insns (GetInstructions method)) in
  let st' := scan_method' resolver method st in
  StdMap.at_ [] name (method_locations_ st')
  = (StdMap.at_ [] name (method_locations_ st)
     ++ repeat (GetReference method)
          (length (filter (fun inst =>
                             invokes' (GetDexFile resolver) name (Inst inst))
                          seen)))%list
  /\ StdMap.at_ [] name (field_locations_ st')
     = (StdMap.at_ [] name (field_locations_ st)
        ++ repeat (GetReference method)
             (length (filter (fun inst =>
                                accesses_field' (GetDexFile resolver) name
                                                (Inst inst))
                             seen)))%list.
Proof.
  intros seen st'. unfold st'. rewrite scan_method_exec.
  rewrite exec_method_at, exec_field_at. unfold method_stmts. fold seen.
  rewrite method_pushes_instructions, field_pushes_instructions.
  split; reflexivity.
Qed.

(** X2: when the filter matches none of the classes of a unit,
    [CollectAccesses] leaves the string set and the three location maps
    as they were, and adds to the class set the descriptors of the
    unit's type table and nothing else. *)
Theorem unmatched_classes_only_types resolver class_filter st :
  (forall accessor,
     In accessor (GetClasses (GetDexFile resolver)) ->
     Matches class_filter (GetDescriptor accessor) = false) ->
  let st' := CollectAccesses' resolver class_filter st in
  strings_ st' = strings_ st
  /\ reflection_locations_ st' = reflection_locations_ st
  /\ method_locations_ st' = method_locations_ st
  /\ field_locations_ st' = field_locations_ st
  /\ (forall x,
        In x (classes_ st')
        <-> In x (classes_ st)
            \/ exists i, (i < NumTypeIds (GetDexFile resolver))%N
                         /\ x = GetTypeDescriptorView (GetDexFile resolver) i).
Proof.
  intros Hf st'. unfold st'. rewrite CollectAccesses_exec.
  assert (CollectAccesses_stmts hidden_api_ ToInternalName GetApiMethodName
            GetApiFieldName resolver class_filter
          = types_stmts (GetDexFile resolver)) as ->.
  { unfold CollectAccesses_stmts.
    induction (GetClasses (GetDexFile resolver)) as [| c cs IH]; simpl.
    - apply app_nil_r.
    - unfold class_stmts at 1. rewrite (Hf c (or_introl eq_refl)). simpl.
      apply IH. intros a Ha. apply Hf. right. exact Ha. }
  destruct (exec_only_classes (types_stmts (GetDexFile resolver)) st)
    as (H1 & H2 & H3 & H4).
  { intros s Hs. apply In_types_stmts in Hs. destruct Hs as (i & _ & ->).
    eauto. }
  repeat split; auto.
  - intros Hx. apply exec_classes_In in Hx. destruct Hx as [Hx | Hx]; auto.
    apply In_types_stmts in Hx. destruct Hx as (i & Hi & E).
    inversion E. right. eauto.
  - intros [Hx | (i & Hi & ->)]; apply exec_classes_In; auto.
    right. apply In_types_stmts. eauto.
Qed.

(** X3: after [Run], a string is in the string set exactly when it was
    there before or is the space-free literal of a visited
    [CONST_STRING] that is not a known restricted name, neither as it
    stands nor in internal form. *)
Theorem strings_after_run resolvers class_filter st s :
  In s (strings_ (Run' resolvers class_filter st))
  <-> In s (strings_ st)
      \/ ((exists method,
             string_literal_of resolvers class_filter method s)
          /\ IsInBoot hidden_api_ (ToInternalName s) = false
          /\ IsInBoot hidden_api_ s = false).
Proof.
  rewrite Run_exec, exec_strings_In, In_Run_stmts.
  split; (intros [H | H]; [left; exact H | right]).
  - destruct H as [(r & _ & H) | (r & m & inst & Hv & H)].
    + apply In_types_stmts in H. destruct H as (i & _ & H). discriminate.
    + apply In_StringsInsert_instruction in H.
      destruct H as (Hop & Hs & Hsp & H1 & H2).
      split; [| split; assumption].
      exists m, r, inst. repeat split; assumption.
  - destruct H as ((m & r & inst & Hv & Hop & Hs & Hsp) & H1 & H2).
    right. exists r, m, inst. split; [exact Hv |].
    apply In_StringsInsert_instruction. repeat split; assumption.
Qed.

(** X4: after [Run], a call site is among the reflection locations of a
    literal exactly when it was there before or is the reference of a
    method that loads the literal with a visited [CONST_STRING], the
    literal being space-free and not a known restricted name. *)
Theorem reflection_locations_after_run resolvers class_filter st s ref :
  In ref (StdMap.at_ [] s
            (reflection_locations_ (Run' resolvers class_filter st)))
  <-> In ref (StdMap.at_ [] s (reflection_locations_ st))
      \/ (exists method,
            string_literal_of resolvers class_filter method s
            /\ ref = GetReference method
            /\ IsInBoot hidden_api_ (ToInternalName s) = false
            /\ IsInBoot hidden_api_ s = false).
Proof.
  rewrite Run_exec, exec_reflection_at, in_app_iff, In_reflection_pushes,
    In_Run_stmts.
  split; (intros [H | H]; [left; exact H | right]).
  - destruct H as [(r & _ & H) | (r & m & inst & Hv & H)].
    + apply In_types_stmts in H. destruct H as (i & _ & H). discriminate.
    + apply In_ReflectionPushBack_instruction in H. destruct H as (H & ->).
      apply In_StringsInsert_instruction in H.
      destruct H as (Hop & Hs & Hsp & H1 & H2).
      exists m. split; [| auto].
      exists r, inst. repeat split; assumption.
  - destruct H as (m & (r & inst & Hv & Hop & Hs & Hsp) & -> & H1 & H2).
    right. exists r, m, inst. split; [exact Hv |].
    apply In_ReflectionPushBack_instruction. split; [| reflexivity].
    apply In_StringsInsert_instruction. repeat split; assumption.
Qed.

(** X5: after [Run], a name is in the class set exactly when it was
    there before, or is a descriptor of the type table of a unit, or
    comes from a visited space-free literal: the internal form of the
    literal when that is a known restricted name, else the literal
    itself when it is one. *)
Theorem classes_after_run resolvers class_filter st x :
  In x (classes_ (Run' resolvers class_filter st))
  <-> In x (classes_ st)
      \/ type_descriptor_of resolvers x
      \/ (exists method s,
            string_literal_of resolvers class_filter method s
            /\ ((IsInBoot hidden_api_ (ToInternalName s) = true
                 /\ x = ToInternalName s)
                \/ (IsInBoot hidden_api_ (ToInternalName s) = false
                    /\ IsInBoot hidden_api_ s = true
                    /\ x = s))).
Proof.
  rewrite Run_exec, exec_classes_In, In_Run_stmts.
  split; (intros [H | H]; [left; exact H | right]).
  - destruct H as [(r & Hr & H) | (r & m & inst & Hv & H)].
    + apply In_types_stmts in H. destruct H as (i & Hi & E).
      inversion E. left. exists r, i. auto.
    + apply In_ClassesInsert_instruction in H.
      destruct H as (Hop & Hsp & H). right.
      exists m, (GetStringView (GetDexFile r) (VRegB_21c inst)).
      split; [| exact H]. exists r, inst. repeat split; assumption.
  - destruct H as [(r & i & Hr & Hi & ->) | H].
    + left. exists r. split; [exact Hr |]. apply In_types_stmts. eauto.
    + destruct H as (m & s & (r & inst & Hv & Hop & <- & Hsp) & H).
      right. exists r, m, inst. split; [exact Hv |].
      apply In_ClassesInsert_instruction. auto.
Qed.

(** X6: every entry of the three location maps holds at least one call
    site: this is true of the empty state and [Run] keeps it, so a name
    found in a location map after scanning never has an empty list. *)
Theorem locations_nonempty_after_run resolvers class_filter :
  locations_nonempty empty_finder
  /\ (forall st,
        locations_nonempty st ->
        locations_nonempty (Run' resolvers class_filter st))
  /\ (forall st name refs,
        locations_nonempty st ->
        StdMap.find name
          (method_locations_ (Run' resolvers class_filter st)) = Some refs
        \/ StdMap.find name
             (field_locations_ (Run' resolvers class_filter st)) = Some refs
        \/ StdMap.find name
             (reflection_locations_ (Run' resolvers class_filter st))
           = Some refs ->
        refs <> []).
Proof.
  assert (forall st, locations_nonempty st ->
                     locations_nonempty (Run' resolvers class_filter st))
    as Hrun by (intros st H; rewrite Run_exec;
                apply exec_locations_nonempty, H).
  split; [| split; [exact Hrun |]].
  - repeat split; intros k v [].
  - intros st name refs Hst H.
    destruct (Hrun st Hst) as (H1 & H2 & H3).
    destruct H as [H | [H | H]]; apply StdMap_find_In in H.
    + exact (H2 name refs H).
    + exact (H3 name refs H).
    + exact (H1 name refs H).
Qed.

End ScannerExtras.

(** * Further properties of the report *)

Lemma subscripts_app a b m : subscripts (a ++ b) m = subscripts b (subscripts a m).
Proof. unfold subscripts. apply fold_left_app. Qed.

Lemma subscripts_same_reads m0 pairs : forall m,
  same_reads m0 m -> same_reads m0 (subscripts pairs m).
Proof.
  induction pairs as [| pair pairs IH]; intros m H; simpl; [exact H |].
  apply IH, same_reads_subscript, H.
Qed.

Lemma subscripts_keys pairs : forall m k,
  In k (StdMap.keys (subscripts pairs m))
  <-> In k (StdMap.keys m) \/ In k (map snd pairs).
Proof.
  induction pairs as [| pair pairs IH]; intros m k; simpl; [tauto |].
  change (fold_left (fun m pair => StdMap.subscript [] (snd pair) m) pairs
            (StdMap.subscript [] (snd pair) m))
    with (subscripts pairs (StdMap.subscript [] (snd pair) m)).
  rewrite IH, StdMap_keys_subscript. intuition.
Qed.

Lemma incr_at_length i a : length (incr_at i a) = length a.
Proof.
  revert i. induction a as [| x a IH]; intros i; [destruct i; reflexivity |].
  destruct i; simpl; [reflexivity | rewrite IH; reflexivity].
Qed.

Lemma incr_at_total i a :
  i < length a -> total (incr_at i a) = N.succ (total a).
Proof.
  revert i. induction a as [| x a IH]; intros i Hi; simpl in Hi; [lia |].
  destruct i; simpl.
  - lia.
  - rewrite IH by lia. lia.
Qed.

Section ReportCounters.

Context {ApiList : Type}.
Variable hidden_api_ : HiddenApi ApiList.
Variable GetIntValue : ApiList -> N.
Variable print_ApiList : ApiList -> string.
Variable GetApiMethodName_ref : MethodReference -> string.

Local Abbreviation dump_linking' :=
  (dump_linking hidden_api_ GetIntValue print_ApiList GetApiMethodName_ref).
Local Abbreviation dump_reflection_pair' :=
  (dump_reflection_pair hidden_api_ GetIntValue print_ApiList
                        GetApiMethodName_ref).
Local Abbreviation dump_reflection_class' :=
  (dump_reflection_class hidden_api_ GetIntValue print_ApiList
                         GetApiMethodName_ref).
Local Abbreviation Dump' :=
  (Dump hidden_api_ GetIntValue print_ApiList GetApiMethodName_ref).
Local Abbreviation render_findings' :=
  (render_findings hidden_api_ print_ApiList GetApiMethodName_ref).
Local Abbreviation linking_findings' := (linking_findings hidden_api_).
Local Abbreviation class_findings' := (class_findings hidden_api_).
Local Abbreviation reflection_findings' := (reflection_findings hidden_api_).
Local Abbreviation reflection_visits' := (reflection_visits hidden_api_).
Local Abbreviation findings' := (findings hidden_api_).
Local Abbreviation reported' := (reported hidden_api_).
Local Abbreviation count_findings' := (count_findings hidden_api_ GetIntValue).

Lemma count_findings_app stats a b :
  count_findings' stats (a ++ b)
  = count_findings' (count_findings' stats a) b.
Proof. unfold count_findings. apply fold_left_app. Qed.

Lemma count_findings_count fs : forall stats,
  count (count_findings' stats fs) = (count stats + N.of_nat (length fs))%N.
Proof.
  induction fs as [| f fs IH]; intros stats; simpl; [lia |].
  change (fold_left (count_finding hidden_api_ GetIntValue) fs
            (count_finding hidden_api_ GetIntValue stats f))
    with (count_findings' (count_finding hidden_api_ GetIntValue stats f) fs).
  rewrite IH. simpl. lia.
Qed.

Lemma dump_linking_full os stats pair :
  dump_linking' (os, stats) pair
  = (os ++ render_findings' (count stats) (linking_findings' [pair]),
     count_findings' stats (linking_findings' [pair])).
Proof.
  unfold dump_linking, linking_findings. cbn [filter].
  destruct (reported' (fst pair)); cbn [map render_findings].
  - unfold render_finding, header, count_findings.
    cbn [kind api_name locations fold_left count_finding].
    rewrite DumpReferences_text.
    repeat rewrite str_app_assoc. rewrite str_app_nil_r. reflexivity.
  - rewrite str_app_nil_r. reflexivity.
Qed.

Lemma fold_dump_linking_full m : forall os stats,
  fold_left dump_linking' m (os, stats)
  = (os ++ render_findings' (count stats) (linking_findings' m),
     count_findings' stats (linking_findings' m)).
Proof.
  induction m as [| pair m IH]; intros os stats.
  - simpl. rewrite str_app_nil_r. reflexivity.
  - cbn [fold_left]. rewrite dump_linking_full, IH.
    rewrite (linking_findings_cons hidden_api_ pair m).
    rewrite render_findings_app, count_findings_app, count_findings_count.
    rewrite str_app_assoc. reflexivity.
Qed.

Lemma dump_reflection_pair_full m0 cls m os stats name :
  same_reads m0 m ->
  dump_reflection_pair' cls (m, os, stats) name
  = (subscripts (filter (fun pair => reported' (candidate pair))
                        [(cls, name)]) m,
     os ++ render_findings' (count stats) (class_findings' m0 [name] cls),
     count_findings' stats (class_findings' m0 [name] cls)).
Proof.
  intros Hm. unfold dump_reflection_pair, class_findings. cbn [filter].
  unfold candidate at 1. cbn [fst snd].
  destruct (reported' (cls ++ "->" ++ name)); cbn [map render_findings].
  - unfold render_finding, header, count_findings, subscripts.
    cbn [kind api_name locations fold_left count_finding snd].
    rewrite DumpReferences_text.
    rewrite (same_reads_subscript m0 m name Hm name).
    repeat rewrite str_app_assoc. rewrite str_app_nil_r. reflexivity.
  - rewrite str_app_nil_r. reflexivity.
Qed.

Lemma fold_dump_reflection_pair_full m0 cls strings : forall m os stats,
  same_reads m0 m ->
  fold_left (dump_reflection_pair' cls) strings (m, os, stats)
  = (subscripts (filter (fun pair => reported' (candidate pair))
                        (map (pair cls) strings)) m,
     os ++ render_findings' (count stats) (class_findings' m0 strings cls),
     count_findings' stats (class_findings' m0 strings cls)).
Proof.
  induction strings as [| name strings IH]; intros m os stats Hm.
  - simpl. rewrite str_app_nil_r. reflexivity.
  - cbn [fold_left]. rewrite (dump_reflection_pair_full m0 cls m os stats name Hm).
    rewrite IH by (apply subscripts_same_reads, Hm).
    rewrite (class_findings_cons hidden_api_ m0 name strings cls).
    rewrite render_findings_app, count_findings_app, count_findings_count.
    rewrite str_app_assoc.
    change (map (pair cls) (name :: strings))
      with ([(cls, name)] ++ map (pair cls) strings)%list.
    rewrite filter_app, subscripts_app. reflexivity.
Qed.

Lemma fold_dump_reflection_class_full m0 strings classes : forall m os stats,
  same_reads m0 m ->
  fold_left (dump_reflection_class' strings) classes (m, os, stats)
  = (subscripts (filter (fun pair => reported' (candidate pair))
                        (list_prod classes strings)) m,
     os ++ render_findings' (count stats)
             (flat_map (class_findings' m0 strings) classes),
     count_findings' stats (flat_map (class_findings' m0 strings) classes)).
Proof.
  induction classes as [| cls classes IH]; intros m os stats Hm.
  - simpl. rewrite str_app_nil_r. reflexivity.
  - cbn [fold_left flat_map list_prod]. unfold dump_reflection_class at 2.
    rewrite (fold_dump_reflection_pair_full m0 cls strings m os stats Hm).
    rewrite IH by (apply subscripts_same_reads, Hm).
    rewrite render_findings_app, count_findings_app, count_findings_count.
    rewrite str_app_assoc, filter_app, subscripts_app. reflexivity.
Qed.

(** [Dump] in full: the state, the text and the counters it returns. *)
Lemma Dump_full os stats dump_reflection st :
  Dump' os stats dump_reflection st
  = (mkFinder (classes_ st) (strings_ st)
              (if dump_reflection
               then subscripts (reflection_visits' st)
                               (reflection_locations_ st)
               else reflection_locations_ st)
              (method_locations_ st) (field_locations_ st),
     os ++ render_findings' (count stats) (findings' dump_reflection st),
     count_findings' stats (findings' dump_reflection st)).
Proof.
  unfold Dump, findings.
  rewrite fold_dump_linking_full, fold_dump_linking_full.
  repeat rewrite render_findings_app. repeat rewrite count_findings_app.
  repeat rewrite count_findings_count. repeat rewrite str_app_assoc.
  destruct dump_reflection.
  - rewrite (fold_dump_reflection_class_full (reflection_locations_ st))
      by apply same_reads_refl.
    repeat rewrite count_findings_count. repeat rewrite str_app_assoc.
    unfold reflection_findings, reflection_visits.
    rewrite ?Nat2N.inj_add, ?N.add_assoc. reflexivity.
  - cbn [render_findings]. rewrite str_app_nil_r.
    unfold count_findings at 1. cbn [fold_left].
    destruct st; reflexivity.
Qed.

End ReportCounters.

Lemma total_subscript_zero k (m : StdMap.t N) :
  total (map snd (StdMap.subscript 0%N k m)) = total (map snd m).
Proof.
  unfold total.
  induction m as [| [z v] m IH]; cbn [StdMap.subscript map snd fold_right];
    [lia |].
  destruct (String_as_OT.compare k z); cbn [map snd fold_right];
    [reflexivity | lia |].
  rewrite IH. reflexivity.
Qed.

Lemma total_modify_succ k (m : StdMap.t N) :
  total (map snd (StdMap.modify k N.succ (StdMap.subscript 0%N k m)))
  = N.succ (total (map snd m)).
Proof.
  unfold total.
  induction m as [| [z v] m IH]; cbn [StdMap.subscript StdMap.modify].
  - rewrite compare_refl. cbn [map snd fold_right]. lia.
  - destruct (String_as_OT.compare k z) eqn:E; cbn [StdMap.modify].
    + rewrite E. cbn [map snd fold_right]. lia.
    + rewrite compare_refl. cbn [map snd fold_right]. lia.
    + rewrite E. cbn [map snd fold_right]. rewrite IH. lia.
Qed.

Lemma modify_zero_absent k (m : StdMap.t N) :
  StdMap.find k m = None ->
  StdMap.modify k (fun _ => 0%N) (StdMap.subscript 0%N k m)
  = StdMap.subscript 0%N k m.
Proof.
  induction m as [| [z v] m IH]; simpl; intros H.
  - rewrite compare_refl. reflexivity.
  - destruct (String_as_OT.compare k z) eqn:E; simpl.
    + discriminate.
    + rewrite compare_refl. reflexivity.
    + rewrite E, IH by exact H. reflexivity.
Qed.

Section ReportExtras.

Context {ApiList : Type}.
Variable hidden_api_ : HiddenApi ApiList.
Variable GetIntValue : ApiList -> N.
Variable print_ApiList : ApiList -> string.
Variable GetApiMethodName_ref : MethodReference -> string.

Local Abbreviation Dump' :=
  (Dump hidden_api_ GetIntValue print_ApiList GetApiMethodName_ref).
Local Abbreviation DumpReferences' := (DumpReferences GetApiMethodName_ref).
Local Abbreviation count_reference' := (count_reference GetApiMethodName_ref).
Local Abbreviation count_references' :=
  (count_references GetApiMethodName_ref).
Local Abbreviation linking_findings' := (linking_findings hidden_api_).
Local Abbreviation reflection_findings' := (reflection_findings hidden_api_).
Local Abbreviation reflection_visits' := (reflection_visits hidden_api_).
Local Abbreviation findings' := (findings hidden_api_).
Local Abbreviation reported' := (reported hidden_api_).
Local Abbreviation count_findings' := (count_findings hidden_api_ GetIntValue).

Lemma count_findings_fields fs : forall stats,
  linking_count (count_findings' stats fs)
  = (linking_count stats
     + N.of_nat (length (filter (fun f => match kind f with
                                          | Linking => true
                                          | Reflection => false
                                          end) fs)))%N
  /\ reflection_count (count_findings' stats fs)
     = (reflection_count stats
        + N.of_nat (length (filter (fun f => match kind f with
                                             | Linking => false
                                             | Reflection => true
                                             end) fs)))%N
  /\ length (api_counts (count_findings' stats fs))
     = length (api_counts stats)
  /\ ((forall name,
         N.to_nat (GetIntValue (GetApiList hidden_api_ name))
         < length (api_counts stats)) ->
      total (api_counts (count_findings' stats fs))
      = (total (api_counts stats) + N.of_nat (length fs))%N).
Proof.
  induction fs as [| f fs IH]; intros stats.
  - simpl. repeat split; try lia.
  - unfold count_findings. cbn [fold_left].
    fold (count_findings' (count_finding hidden_api_ GetIntValue stats f) fs).
    destruct (IH (count_finding hidden_api_ GetIntValue stats f))
      as (H1 & H2 & H3 & H4).
    rewrite H1, H2, H3. cbn [filter length].
    unfold count_finding at 1 2 3. cbn [linking_count reflection_count api_counts].
    rewrite incr_at_length.
    repeat split.
    + destruct (kind f); simpl; lia.
    + destruct (kind f); simpl; lia.
    + intros Hr. rewrite H4.
      * unfold count_finding. cbn [api_counts].
        rewrite incr_at_total by apply Hr. lia.
      * intros name. unfold count_finding. cbn [api_counts].
        rewrite incr_at_length. apply Hr.
Qed.

Lemma filter_kind_linking m :
  filter (fun f => match kind f with Linking => true | Reflection => false end)
         (linking_findings' m) = linking_findings' m
  /\ filter (fun f => match kind f with Linking => false | Reflection => true end)
            (linking_findings' m) = [].
Proof.
  unfold linking_findings.
  induction (filter (fun pair => reported' (fst pair)) m) as [| p l [IH1 IH2]];
    simpl; [auto |]. rewrite IH1, IH2. auto.
Qed.

Lemma filter_kind_reflection st :
  filter (fun f => match kind f with Linking => true | Reflection => false end)
         (reflection_findings' st) = []
  /\ filter (fun f => match kind f with Linking => false | Reflection => true end)
            (reflection_findings' st) = reflection_findings' st.
Proof.
  rewrite reflection_findings_visits.
  induction (reflection_visits' st) as [| p l [IH1 IH2]]; simpl; [auto |].
  rewrite IH1, IH2. auto.
Qed.

(** X7: [Dump] advances the report counter by the number of findings it
    writes, the linking counter by the number of method and field
    findings and the reflection counter by the number of reflection
    findings (none when reflection output is disabled); the histogram
    keeps its size and, when every category index is within it, its
    total grows by the number of findings. *)
Theorem dump_counters os stats dump_reflection st :
  let stats' := snd (Dump' os stats dump_reflection st) in
  let linking :=
    length (linking_findings' (method_locations_ st))
    + length (linking_findings' (field_locations_ st)) in
  let reflection :=
    if dump_reflection then length (reflection_visits' st) else 0 in
  count stats' = (count stats + N.of_nat (linking + reflection))%N
  /\ linking_count stats' = (linking_count stats + N.of_nat linking)%N
  /\ reflection_count stats'
     = (reflection_count stats + N.of_nat reflection)%N
  /\ length (api_counts stats') = length (api_counts stats)
  /\ ((forall name,
         N.to_nat (GetIntValue (GetApiList hidden_api_ name))
         < length (api_counts stats)) ->
      total (api_counts stats')
      = (total (api_counts stats) + N.of_nat (linking + reflection))%N).
Proof.
  intros stats' linking reflection. unfold stats'. rewrite Dump_full.
  cbn [snd].
  destruct (count_findings_fields (findings' dump_reflection st) stats)
    as (H1 & H2 & H3 & H4).
  assert (length (findings' dump_reflection st) = linking + reflection)
    as Hlen.
  { unfold findings, linking, reflection. rewrite !length_app.
    destruct dump_reflection;
      [rewrite reflection_findings_visits, length_map |]; simpl; lia. }
  assert (length (filter (fun f => match kind f with
                                   | Linking => true
                                   | Reflection => false
                                   end) (findings' dump_reflection st))
          = linking) as Hl.
  { unfold findings, linking. rewrite !filter_app, !length_app.
    rewrite (proj1 (filter_kind_linking (method_locations_ st))),
      (proj1 (filter_kind_linking (field_locations_ st))).
    destruct dump_reflection;
      [rewrite (proj1 (filter_kind_reflection st)) |]; simpl; lia. }
  assert (length (filter (fun f => match kind f with
                                   | Linking => false
                                   | Reflection => true
                                   end) (findings' dump_reflection st))
          = reflection) as Hr.
  { unfold findings, reflection. rewrite !filter_app, !length_app.
    rewrite (proj2 (filter_kind_linking (method_locations_ st))),
      (proj2 (filter_kind_linking (field_locations_ st))).
    destruct dump_reflection;
      [rewrite (proj2 (filter_kind_reflection st)),
         reflection_findings_visits, length_map |]; simpl; lia. }
  rewrite count_findings_count, H1, H2, H3, Hlen, Hl, Hr.
  repeat split; try reflexivity.
  intros Hrange. rewrite (H4 Hrange), Hlen. reflexivity.
Qed.

(** X8: whatever the state, [Dump] returns the class set, the string set
    and the method and field locations it was given; every read of the
    reflection locations gives the same call sites as before; the only
    keys it can add to the reflection locations are literals of reported
    (class, literal) pairs; and with reflection output disabled it
    returns the state unchanged. *)
Theorem dump_state_effect os stats dump_reflection st :
  let st' := fst (fst (Dump' os stats dump_reflection st)) in
  classes_ st' = classes_ st
  /\ strings_ st' = strings_ st
  /\ method_locations_ st' = method_locations_ st
  /\ field_locations_ st' = field_locations_ st
  /\ (forall name,
        StdMap.at_ [] name (reflection_locations_ st')
        = StdMap.at_ [] name (reflection_locations_ st))
  /\ (forall name,
        In name (StdMap.keys (reflection_locations_ st'))
        <-> In name (StdMap.keys (reflection_locations_ st))
            \/ (dump_reflection = true
                /\ exists cls, In (cls, name) (reflection_visits' st)))
  /\ (dump_reflection = false -> st' = st).
Proof.
  intros st'. unfold st'. rewrite Dump_full. cbn [fst snd classes_ strings_
    method_locations_ field_locations_ reflection_locations_].
  repeat split; try reflexivity.
  - intros name. destruct dump_reflection; [| reflexivity].
    apply subscripts_same_reads, same_reads_refl.
  - destruct dump_reflection; [| auto].
    rewrite subscripts_keys. intros [H | H]; [auto |].
    right. split; [reflexivity |]. apply in_map_iff in H.
    destruct H as ([cls n] & <- & H). eauto.
  - destruct dump_reflection.
    + rewrite subscripts_keys. intros [H | (_ & cls & H)]; [auto |].
      right. apply in_map_iff. exists (cls, name). auto.
    + intros [H | (H & _)]; [exact H | discriminate].
  - intros ->. destruct st; reflexivity.
Qed.

(** X9: when the classifier attributes every name to the application or
    marks it as not to be reported, [Dump] writes nothing and returns the
    state and the counters it was given. *)
Theorem dump_reports_nothing os stats dump_reflection st :
  (forall name,
     GetSignatureSource hidden_api_ name = APP
     \/ ShouldReport hidden_api_ name = false) ->
  Dump hidden_api_ GetIntValue print_ApiList GetApiMethodName_ref
       os stats dump_reflection st
  = (st, os, stats).
Proof.
  intros Hnone.
  assert (forall name, reported' name = false) as Hr.
  { intros name. unfold reported.
    destruct (Hnone name) as [-> | ->]; [reflexivity |].
    apply andb_false_r. }
  rewrite Dump_full.
  assert (forall m, linking_findings' m = []) as Hl.
  { intros m. unfold linking_findings.
    induction m as [| p m IH]; simpl; [reflexivity |].
    rewrite Hr. exact IH. }
  assert (reflection_visits' st = []) as Hv.
  { unfold reflection_visits.
    induction (list_prod (classes_ st) (strings_ st)) as [| p l IH]; simpl;
      [reflexivity |]. rewrite Hr. exact IH. }
  unfold findings. rewrite Hl, Hl, reflection_findings_visits, Hv.
  destruct dump_reflection; simpl; rewrite str_app_nil_r;
    destruct st; reflexivity.
Qed.

Lemma count_reference_total counts ref :
  total (map snd (count_reference' counts ref))
  = N.succ (total (map snd counts)).
Proof.
  unfold count_reference, StdMap.count.
  destruct (StdMap.find (GetApiMethodName_ref ref) counts) eqn:E;
    cbn [negb].
  - apply total_modify_succ.
  - rewrite modify_zero_absent by exact E.
    rewrite total_modify_succ, total_subscript_zero. reflexivity.
Qed.

(** X10: the occurrence counts of a location list add up to the number
    of call sites: no call site is lost by the merging, every line
    stands for at least one call site, and an empty list of call sites
    writes nothing. *)
Theorem DumpReferences_accounts_for_all os references :
  total (map snd (count_references' references))
  = N.of_nat (length references)
  /\ (forall s n, In (s, n) (count_references' references) -> (1 <= n)%N)
  /\ DumpReferences' os [] = os.
Proof.
  split; [| split].
  - unfold count_references.
    assert (forall counts,
              total (map snd (fold_left count_reference' references counts))
              = (total (map snd counts) + N.of_nat (length references))%N)
      as H.
    { induction references as [| ref refs IH]; intros counts; simpl;
        [lia |].
      rewrite IH, count_reference_total. lia. }
    rewrite H. simpl. lia.
  - intros s n Hin.
    destruct (count_references_spec GetApiMethodName_ref references)
      as (_ & Hkeys & Hcount).
    rewrite (Hcount s n Hin).
    assert (In s (map GetApiMethodName_ref references)) as Hs.
    { apply Hkeys. apply in_map_iff. exists (s, n). auto. }
    apply (count_occ_In string_dec) in Hs. lia.
  - reflexivity.
Qed.

End ReportExtras.

(** * The order of the units does not matter *)

Lemma sorted_ext l : forall l',
  Sorted str_lt l -> Sorted str_lt l' ->
  (forall x, In x l <-> In x l') -> l = l'.
Proof.
  induction l as [| a l IH]; intros l' Hl Hl' Hin.
  - destruct l' as [| b l']; [reflexivity |].
    destruct (proj2 (Hin b) (or_introl eq_refl)).
  - destruct l' as [| b l'];
      [destruct (proj1 (Hin a) (or_introl eq_refl)) |].
    inversion Hl as [| ? ? Hs Hh]; subst.
    inversion Hl' as [| ? ? Hs' Hh']; subst.
    assert (a = b) as ->.
    { destruct (proj1 (Hin a) (or_introl eq_refl)) as [E | Ha]; [auto |].
      destruct (proj2 (Hin b) (or_introl eq_refl)) as [E | Hb]; [auto |].
      exfalso. eapply str_lt_asym.
      - exact (HdRel_str_lt_In _ _ Hs Hh _ Hb).
      - exact (HdRel_str_lt_In _ _ Hs' Hh' _ Ha). }
    f_equal. apply IH; [assumption .. |].
    intros x. split; intros Hx.
    + destruct (proj1 (Hin x) (or_intror Hx)) as [<- | H]; [| exact H].
      exfalso. exact (str_lt_irrefl _ (HdRel_str_lt_In _ _ Hs Hh _ Hx)).
    + destruct (proj2 (Hin x) (or_intror Hx)) as [<- | H]; [| exact H].
      exfalso. exact (str_lt_irrefl _ (HdRel_str_lt_In _ _ Hs' Hh' _ Hx)).
Qed.

Lemma StdMap_find_below {V : Type} k z (m : StdMap.t V) :
  Sorted str_lt (StdMap.keys m) -> HdRel str_lt z (StdMap.keys m) ->
  String_as_OT.compare k z <> Gt -> StdMap.find k m = None.
Proof.
  intros Hs Hh Hk.
  destruct (StdMap.find k m) eqn:E; [| reflexivity].
  exfalso. assert (In k (StdMap.keys m)) as Hin
      by (apply StdMap_find_In_keys; congruence).
  pose proof (HdRel_str_lt_In _ _ Hs Hh _ Hin) as Hlt.
  cmp k z.
  - exact (str_lt_irrefl _ Hlt).
  - exact (str_lt_asym _ _ Hlt E0).
  - apply Hk. reflexivity.
Qed.

Lemma StdMap_ext {V : Type} (m : StdMap.t V) : forall m',
  StdMap.ok m -> StdMap.ok m' ->
  (forall k, StdMap.find k m = StdMap.find k m') -> m = m'.
Proof.
  unfold StdMap.ok.
  induction m as [| [k v] m IH]; intros m' Hm Hm' Hf.
  - destruct m' as [| [k' v'] m']; [reflexivity |].
    specialize (Hf k'). simpl in Hf. rewrite compare_refl in Hf.
    discriminate.
  - destruct m' as [| [k' v'] m'].
    + specialize (Hf k). simpl in Hf. rewrite compare_refl in Hf.
      discriminate.
    + simpl in Hm, Hm'.
      inversion Hm as [| ? ? Hs Hh]; subst.
      inversion Hm' as [| ? ? Hs' Hh']; subst.
      assert (k = k' /\ v = v') as [-> ->].
      { pose proof (Hf k) as H1. pose proof (Hf k') as H2.
        simpl in H1, H2. rewrite compare_refl in H1, H2.
        destruct (String_as_OT.compare k k') eqn:E1.
        - apply compare_Eq in E1. subst. split; congruence.
        - discriminate.
        - apply compare_Gt in E1. unfold str_lt in E1. rewrite E1 in H2.
          discriminate. }
      f_equal. apply IH; [assumption .. |].
      intros x. specialize (Hf x). simpl in Hf.
      destruct (String_as_OT.compare x k') eqn:E; [| | exact Hf].
      * rewrite (StdMap_find_below x k' m Hs Hh),
          (StdMap_find_below x k' m' Hs' Hh'); congruence.
      * rewrite (StdMap_find_below x k' m Hs Hh),
          (StdMap_find_below x k' m' Hs' Hh'); congruence.
Qed.

Lemma entries_related (m : StdMap.t (list MethodReference)) : forall m',
  StdMap.ok m -> StdMap.ok m' ->
  StdMap.keys m = StdMap.keys m' ->
  (forall k, Permutation (StdMap.at_ [] k m) (StdMap.at_ [] k m')) ->
  Forall2 entry_perm m m'.
Proof.
  unfold StdMap.ok.
  induction m as [| [k v] m IH]; intros m' Hm Hm' Hk Hp.
  - destruct m'; [constructor | discriminate].
  - destruct m' as [| [k' v'] m']; [discriminate |].
    simpl in Hk, Hm, Hm'. inversion Hk; subst.
    inversion Hm as [| ? ? Hs Hh]; subst.
    inversion Hm' as [| ? ? Hs' Hh']; subst.
    constructor.
    + split; [reflexivity |]. specialize (Hp k'). unfold StdMap.at_ in Hp.
      simpl in Hp. rewrite compare_refl in Hp. exact Hp.
    + apply IH; [assumption .. |].
      intros x. specialize (Hp x). unfold StdMap.at_ in *. simpl in Hp.
      destruct (String_as_OT.compare x k') eqn:E; [| | exact Hp].
      * rewrite (StdMap_find_below x k' m Hs Hh),
          (StdMap_find_below x k' m' Hs' Hh'); [constructor | congruence ..].
      * rewrite (StdMap_find_below x k' m Hs Hh),
          (StdMap_find_below x k' m' Hs' Hh'); [constructor | congruence ..].
Qed.

Lemma exec_method_keys p : forall st k,
  In k (StdMap.keys (method_locations_ (exec p st)))
  <-> In k (StdMap.keys (method_locations_ st))
      \/ exists ref, In (MethodPushBack k ref) p.
Proof.
  induction p as [| s p IH]; intros st k; simpl.
  - split; [auto | intros [H | (r0 & [])]; exact H].
  - change (fold_left (fun st s => exec_stmt s st) p (exec_stmt s st))
      with (exec p (exec_stmt s st)).
    rewrite IH. destruct s; simpl;
      try (split; [intros [H | (r0 & H)]; eauto
                  | intros [H | (r0 & [H | H])]; eauto; discriminate]).
    rewrite push_back_at_keys. split.
    + intros [[-> | H] | (r & H)]; eauto.
    + intros [H | (r & [H | H])]; eauto. inversion H; auto.
Qed.

Lemma exec_field_keys p : forall st k,
  In k (StdMap.keys (field_locations_ (exec p st)))
  <-> In k (StdMap.keys (field_locations_ st))
      \/ exists ref, In (FieldPushBack k ref) p.
Proof.
  induction p as [| s p IH]; intros st k; simpl.
  - split; [auto | intros [H | (r0 & [])]; exact H].
  - change (fold_left (fun st s => exec_stmt s st) p (exec_stmt s st))
      with (exec p (exec_stmt s st)).
    rewrite IH. destruct s; simpl;
      try (split; [intros [H | (r0 & H)]; eauto
                  | intros [H | (r0 & [H | H])]; eauto; discriminate]).
    rewrite push_back_at_keys. split.
    + intros [[-> | H] | (r & H)]; eauto.
    + intros [H | (r & [H | H])]; eauto. inversion H; auto.
Qed.

Lemma exec_reflection_keys p : forall st k,
  In k (StdMap.keys (reflection_locations_ (exec p st)))
  <-> In k (StdMap.keys (reflection_locations_ st))
      \/ exists ref, In (ReflectionPushBack k ref) p.
Proof.
  induction p as [| s p IH]; intros st k; simpl.
  - split; [auto | intros [H | (r0 & [])]; exact H].
  - change (fold_left (fun st s => exec_stmt s st) p (exec_stmt s st))
      with (exec p (exec_stmt s st)).
    rewrite IH. destruct s; simpl;
      try (split; [intros [H | (r0 & H)]; eauto
                  | intros [H | (r0 & [H | H])]; eauto; discriminate]).
    rewrite push_back_at_keys. split.
    + intros [[-> | H] | (r & H)]; eauto.
    + intros [H | (r & [H | H])]; eauto. inversion H; auto.
Qed.

(** Two statement sequences that are permutations of each other lead to
    the same sets and to maps with the same keys and, per key, the same
    call sites up to order. *)
Lemma exec_permutation p q st :
  Permutation p q -> finder_ok st ->
  classes_ (exec p st) = classes_ (exec q st)
  /\ strings_ (exec p st) = strings_ (exec q st)
  /\ Forall2 entry_perm (method_locations_ (exec p st))
                        (method_locations_ (exec q st))
  /\ Forall2 entry_perm (field_locations_ (exec p st))
                        (field_locations_ (exec q st))
  /\ Forall2 entry_perm (reflection_locations_ (exec p st))
                        (reflection_locations_ (exec q st)).
Proof.
  intros Hpq Hst.
  destruct (exec_ok p st Hst) as [Pc Ps Pr Pm Pf].
  destruct (exec_ok q st Hst) as [Qc Qs Qr Qm Qf].
  assert (forall s, In s p <-> In s q) as Hin.
  { intros s. split; apply Permutation_in;
      [exact Hpq | apply Permutation_sym, Hpq]. }
  split; [| split; [| split; [| split]]].
  - apply sorted_ext; [exact Pc | exact Qc |].
    intros x. rewrite !exec_classes_In, Hin. reflexivity.
  - apply sorted_ext; [exact Ps | exact Qs |].
    intros x. rewrite !exec_strings_In, Hin. reflexivity.
  - apply entries_related; [exact Pm | exact Qm | |].
    + apply sorted_ext; [exact Pm | exact Qm |].
      intros k. rewrite !exec_method_keys.
      split; (intros [H | (r & H)]; [auto | right; exists r; apply Hin, H]).
    + intros k. rewrite !exec_method_at. apply Permutation_app_head.
      unfold method_pushes. apply Permutation_flat_map, Hpq.
  - apply entries_related; [exact Pf | exact Qf | |].
    + apply sorted_ext; [exact Pf | exact Qf |].
      intros k. rewrite !exec_field_keys.
      split; (intros [H | (r & H)]; [auto | right; exists r; apply Hin, H]).
    + intros k. rewrite !exec_field_at. apply Permutation_app_head.
      unfold field_pushes. apply Permutation_flat_map, Hpq.
  - apply entries_related; [exact Pr | exact Qr | |].
    + apply sorted_ext; [exact Pr | exact Qr |].
      intros k. rewrite !exec_reflection_keys.
      split; (intros [H | (r & H)]; [auto | right; exists r; apply Hin, H]).
    + intros k. rewrite !exec_reflection_at. apply Permutation_app_head.
      unfold reflection_pushes. apply Permutation_flat_map, Hpq.
Qed.

Lemma at_related (m m' : StdMap.t (list MethodReference)) :
  Forall2 entry_perm m m' ->
  forall k, Permutation (StdMap.at_ [] k m) (StdMap.at_ [] k m').
Proof.
  unfold StdMap.at_.
  induction 1 as [| [z v] [z' v'] m m' [Hk Hv] _ IH]; intros k; simpl.
  - constructor.
  - simpl in Hk, Hv. subst z'.
    destruct (String_as_OT.compare k z); [exact Hv | constructor | apply IH].
Qed.

Section OrderOfUnits.

Context {ApiList : Type}.
Variable hidden_api_ : HiddenApi ApiList.
Variable ToInternalName : string -> string.
Variable GetApiMethodName : DexFile -> N -> string.
Variable GetApiFieldName : DexFile -> N -> string.
Variable GetIntValue : ApiList -> N.
Variable print_ApiList : ApiList -> string.
Variable GetApiMethodName_ref : MethodReference -> string.

Local Abbreviation Run' :=
  (Run hidden_api_ ToInternalName GetApiMethodName GetApiFieldName).
Local Abbreviation Dump' :=
  (Dump hidden_api_ GetIntValue print_ApiList GetApiMethodName_ref).
Local Abbreviation count_references' :=
  (count_references GetApiMethodName_ref).
Local Abbreviation location_lines' := (location_lines GetApiMethodName_ref).
Local Abbreviation render_findings' :=
  (render_findings hidden_api_ print_ApiList GetApiMethodName_ref).
Local Abbreviation linking_findings' := (linking_findings hidden_api_).
Local Abbreviation reflection_findings' := (reflection_findings hidden_api_).
Local Abbreviation findings' := (findings hidden_api_).
Local Abbreviation count_findings' := (count_findings hidden_api_ GetIntValue).

Lemma count_references_find refs k :
  StdMap.find k (count_references' refs)
  = if in_dec string_dec k (map GetApiMethodName_ref refs)
    then Some (N.of_nat (count_occ string_dec
                                   (map GetApiMethodName_ref refs) k))
    else None.
Proof.
  destruct (count_references_spec GetApiMethodName_ref refs)
    as (Hok & Hkeys & Hcount).
  destruct (in_dec string_dec k (map GetApiMethodName_ref refs)) as [Hin | Hn].
  - apply Hkeys in Hin. apply (StdMap_In_keys_find k _ Hok) in Hin.
    destruct (StdMap.find k (count_references' refs)) as [n |] eqn:E;
      [| congruence].
    f_equal. apply Hcount. apply StdMap_find_In. exact E.
  - destruct (StdMap.find k (count_references' refs)) as [n |] eqn:E;
      [| reflexivity].
    exfalso. apply Hn, Hkeys, StdMap_find_In_keys. congruence.
Qed.

Lemma count_references_perm refs refs' :
  Permutation refs refs' -> count_references' refs = count_references' refs'.
Proof.
  intros Hp.
  apply StdMap_ext;
    try apply (count_references_spec GetApiMethodName_ref).
  intros k. rewrite !count_references_find.
  pose proof (Permutation_map GetApiMethodName_ref Hp) as Hm.
  rewrite (proj1 (Permutation_count_occ string_dec _ _) Hm k).
  destruct (in_dec string_dec k (map GetApiMethodName_ref refs)) as [H | H];
    destruct (in_dec string_dec k (map GetApiMethodName_ref refs')) as [H' | H'];
    try reflexivity; exfalso.
  - apply H'. exact (Permutation_in _ Hm H).
  - apply H. exact (Permutation_in _ (Permutation_sym Hm) H').
Qed.

Lemma render_findings_perm fs fs' :
  Forall2 finding_perm fs fs' ->
  forall n, render_findings' n fs = render_findings' n fs'.
Proof.
  induction 1 as [| f g fs fs' (Hk & Hn & Hl) _ IH]; intros n;
    [reflexivity |].
  cbn [render_findings]. rewrite IH. f_equal.
  unfold render_finding, header, location_lines.
  rewrite Hk, Hn, (count_references_perm _ _ Hl). reflexivity.
Qed.

Lemma count_findings_perm fs fs' :
  Forall2 finding_perm fs fs' ->
  forall stats, count_findings' stats fs = count_findings' stats fs'.
Proof.
  unfold count_findings.
  induction 1 as [| f g fs fs' (Hk & Hn & Hl) _ IH]; intros stats;
    [reflexivity |].
  cbn [fold_left]. rewrite IH. f_equal.
  unfold count_finding. rewrite Hk, Hn. reflexivity.
Qed.

Lemma linking_findings_perm m m' :
  Forall2 entry_perm m m' ->
  Forall2 finding_perm (linking_findings' m) (linking_findings' m').
Proof.
  unfold linking_findings.
  induction 1 as [| p q m m' [Hk Hv] _ IH]; [constructor |].
  cbn [filter]. rewrite <- Hk.
  destruct (reported hidden_api_ (fst p)); [| exact IH].
  cbn [map]. constructor; [| exact IH].
  repeat split; assumption.
Qed.

Lemma reflection_findings_perm a b :
  classes_ a = classes_ b -> strings_ a = strings_ b ->
  Forall2 entry_perm (reflection_locations_ a) (reflection_locations_ b) ->
  Forall2 finding_perm (reflection_findings' a) (reflection_findings' b).
Proof.
  intros Hc Hs Hr. rewrite !reflection_findings_visits.
  unfold reflection_visits. rewrite <- Hc, <- Hs.
  induction (filter (fun pair => reported hidden_api_ (candidate pair))
                    (list_prod (classes_ a) (strings_ a))) as [| p l IH];
    [constructor |].
  cbn [map]. constructor; [| exact IH].
  repeat split. cbn [locations]. apply at_related, Hr.
Qed.

(** X11: scanning the same units in another order gives the same class
    set and string set and location maps with the same keys and, under
    each key, the same call sites up to their order; [Dump] then writes
    the same text and returns the same counters. *)
Theorem unit_order_irrelevant resolvers resolvers' class_filter st
    os stats dump_reflection :
  Permutation resolvers resolvers' ->
  finder_ok st ->
  let a := Run' resolvers class_filter st in
  let b := Run' resolvers' class_filter st in
  classes_ a = classes_ b
  /\ strings_ a = strings_ b
  /\ Forall2 entry_perm (method_locations_ a) (method_locations_ b)
  /\ Forall2 entry_perm (field_locations_ a) (field_locations_ b)
  /\ Forall2 entry_perm (reflection_locations_ a) (reflection_locations_ b)
  /\ snd (fst (Dump' os stats dump_reflection a))
     = snd (fst (Dump' os stats dump_reflection b))
  /\ snd (Dump' os stats dump_reflection a)
     = snd (Dump' os stats dump_reflection b).
Proof.
  intros Hp Hst a b. unfold a, b. rewrite !Run_exec.
  destruct (exec_permutation
              (Run_stmts hidden_api_ ToInternalName GetApiMethodName
                         GetApiFieldName resolvers class_filter)
              (Run_stmts hidden_api_ ToInternalName GetApiMethodName
                         GetApiFieldName resolvers' class_filter) st)
    as (Hc & Hs & Hm & Hf & Hr); [| exact Hst |].
  { unfold Run_stmts. apply Permutation_flat_map, Hp. }
  assert (Forall2 finding_perm
            (findings' dump_reflection
               (exec (Run_stmts hidden_api_ ToInternalName GetApiMethodName
                                GetApiFieldName resolvers class_filter) st))
            (findings' dump_reflection
               (exec (Run_stmts hidden_api_ ToInternalName GetApiMethodName
                                GetApiFieldName resolvers' class_filter) st)))
    as Hfind.
  { unfold findings. repeat apply Forall2_app.
    - apply linking_findings_perm, Hm.
    - apply linking_findings_perm, Hf.
    - destruct dump_reflection; [| constructor].
      apply reflection_findings_perm; assumption. }
  repeat split; try assumption.
  - rewrite !Dump_full. cbn [fst snd]. f_equal.
    apply render_findings_perm, Hfind.
  - rewrite !Dump_full. cbn [snd]. apply count_findings_perm, Hfind.
Qed.

End OrderOfUnits.

(** * libarttools *)

(** ** Strings *)

Lemma str_length_app (a b : string) :
  String.length (a ++ b) = String.length a + String.length b.
Proof. induction a as [| c a IH]; simpl; [reflexivity | rewrite IH; reflexivity]. Qed.

Lemma strip_suffix_spec s suffix r :
  strip_suffix s suffix = Some r <-> s = r ++ suffix.
Proof.
  split.
  - revert r. induction s as [| c s IH]; intros r H; cbn [strip_suffix] in H.
    + destruct (String.eqb_spec "" suffix) as [E | _]; [| discriminate].
      inversion H. exact E.
    + destruct (String.eqb_spec (String c s) suffix) as [E | _].
      * inversion H. exact E.
      * destruct (strip_suffix s suffix) as [r' |]; [| discriminate].
        inversion H. cbn [append]. f_equal. apply IH. reflexivity.
  - revert s. induction r as [| c r IH]; intros s ->.
    + cbn [append]. destruct suffix; cbn [strip_suffix];
        rewrite String.eqb_refl; reflexivity.
    + cbn [append strip_suffix].
      destruct (String.eqb_spec (String c (r ++ suffix)) suffix) as [E | _].
      * exfalso. apply (f_equal String.length) in E. simpl in E.
        rewrite str_length_app in E. lia.
      * rewrite (IH (r ++ suffix) eq_refl). reflexivity.
Qed.

Lemma ConsumeSuffix_cases s suffix :
  s = ConsumeSuffix s suffix ++ suffix
  \/ (ConsumeSuffix s suffix = s /\ forall r, s <> r ++ suffix).
Proof.
  unfold ConsumeSuffix. destruct (strip_suffix s suffix) as [r |] eqn:E.
  - left. apply strip_suffix_spec, E.
  - right. split; [reflexivity |]. intros r Hr.
    apply strip_suffix_spec in Hr. congruence.
Qed.

Lemma StartsWith_spec s p :
  StartsWith s p = true <-> exists rest, s = p ++ rest.
Proof.
  unfold StartsWith. revert s. induction p as [| c p IH]; intros s.
  - split; [intros _; exists s; reflexivity | destruct s; reflexivity].
  - destruct s as [| c' s]; simpl;
      [split; [discriminate | intros (r & H); discriminate] |].
    destruct (ascii_dec c c') as [-> | Hne].
    + rewrite IH. split; intros (r & H); exists r.
      * rewrite H. reflexivity.
      * inversion H. reflexivity.
    + split; [discriminate | intros (r & H); inversion H; congruence].
Qed.

Lemma StartsWith_char_spec s c :
  StartsWith_char s c = true <-> exists rest, s = String c rest.
Proof.
  destruct s as [| c' s]; simpl.
  - split; [discriminate | intros (r & H); discriminate].
  - rewrite Ascii.eqb_eq. split.
    + intros ->. eauto.
    + intros (r & H). inversion H. reflexivity.
Qed.

Lemma char_at_is_app p rest c :
  char_at_is (p ++ rest) (String.length p) c = StartsWith_char rest c.
Proof.
  unfold char_at_is. induction p as [| x p IH]; simpl.
  - destruct rest; reflexivity.
  - exact IH.
Qed.

(** ** [EscapeGlob] *)

Lemma EscapeGlob_app a b : EscapeGlob (a ++ b) = EscapeGlob a ++ EscapeGlob b.
Proof.
  induction a as [| c a IH]; simpl; [reflexivity |].
  destruct (is_glob_special c); simpl; rewrite IH; reflexivity.
Qed.

(** X12: [EscapeGlob] loses nothing: two different strings never have the
    same escaped form. *)
Theorem EscapeGlob_injective a b : EscapeGlob a = EscapeGlob b -> a = b.
Proof.
  revert b. induction a as [| c a IH]; intros b H.
  - destruct b as [| d b]; [reflexivity |]. simpl in H.
    destruct (is_glob_special d); discriminate.
  - destruct b as [| d b]; simpl in H.
    + destruct (is_glob_special c); discriminate.
    + destruct (is_glob_special c) eqn:Ec, (is_glob_special d) eqn:Ed.
      * inversion H. f_equal. apply IH. assumption.
      * inversion H. subst d. discriminate.
      * inversion H. subst c. discriminate.
      * inversion H. f_equal. apply IH. assumption.
Qed.

(** X13: [EscapeGlob] works character by character: the escaped form of
    a concatenation is the concatenation of the escaped forms, its
    length is the length of the string plus two for each special
    character, and it is the string itself exactly when the string has
    no asterisk, question mark or opening bracket. *)
Theorem EscapeGlob_shape a b :
  EscapeGlob (a ++ b) = EscapeGlob a ++ EscapeGlob b
  /\ String.length (EscapeGlob a)
     = String.length a
       + 2 * length (filter is_glob_special (list_ascii_of_string a))
  /\ (EscapeGlob a = a
      <-> forallb (fun c => negb (is_glob_special c))
                  (list_ascii_of_string a) = true).
Proof.
  split; [apply EscapeGlob_app | split].
  - induction a as [| c a IH]; simpl; [reflexivity |].
    destruct (is_glob_special c); simpl; rewrite IH; lia.
  - assert (forall s, String.length (EscapeGlob s) = String.length s ->
                      forallb (fun c => negb (is_glob_special c))
                              (list_ascii_of_string s) = true) as Hlen.
    { intros s. induction s as [| c s IH]; simpl; [reflexivity |].
      assert (String.length s <= String.length (EscapeGlob s)) as Hle.
      { clear. induction s as [| c s IH]; simpl; [lia |].
        destruct (is_glob_special c); simpl; lia. }
      destruct (is_glob_special c); simpl; intros H; [lia |].
      apply IH. lia. }
    split.
    + intros H. apply Hlen. rewrite H. reflexivity.
    + induction a as [| c a IH]; simpl; [reflexivity |].
      destruct (is_glob_special c); simpl; [discriminate |].
      intros H. rewrite IH by exact H. reflexivity.
Qed.

(** ** [PathStartsWith] *)

(** X14: [PathStartsWith] aborts exactly when one of its arguments is not
    an absolute path (an empty one included); otherwise it answers true
    exactly when the path is the prefix without one trailing slash,
    followed by nothing or by a slash and anything: a prefix never
    matches part of a path component. *)
Theorem PathStartsWith_spec path prefix :
  (PathStartsWith path prefix = None
   <-> StartsWith_char path "/" = false
       \/ StartsWith_char prefix "/" = false)
  /\ (PathStartsWith path prefix = Some true
      <-> StartsWith_char path "/" = true
          /\ StartsWith_char prefix "/" = true
          /\ exists rest,
               path = ConsumeSuffix prefix "/" ++ rest
               /\ (rest = "" \/ exists rest', rest = "/" ++ rest')).
Proof.
  unfold PathStartsWith.
  assert (negb (String.eqb prefix "") && negb (String.eqb path "")
          && StartsWith_char prefix "/" && StartsWith_char path "/"
          = StartsWith_char prefix "/" && StartsWith_char path "/") as ->.
  { destruct prefix, path; simpl; try reflexivity.
    destruct (Ascii.eqb a "/"); reflexivity. }
  destruct (StartsWith_char prefix "/") eqn:Ep,
           (StartsWith_char path "/") eqn:Ea; simpl;
    try (split; [split; [auto | intros _; reflexivity]
                | split; [discriminate | intros (H1 & H2 & _); discriminate]]).
  split; [split; [discriminate | intros [H | H]; discriminate] |].
  set (p := ConsumeSuffix prefix "/").
  split.
  - intros H. injection H as Hb. apply andb_true_iff in Hb.
    destruct Hb as [Hs Hc]. apply StartsWith_spec in Hs.
    destruct Hs as (rest & Hs). repeat split. exists rest.
    split; [exact Hs |]. rewrite Hs in Hc.
    rewrite str_length_app, char_at_is_app in Hc.
    apply orb_true_iff in Hc. destruct Hc as [Hc | Hc].
    + left. apply Nat.eqb_eq in Hc. destruct rest; [reflexivity |].
      simpl in Hc. lia.
    + right. apply StartsWith_char_spec in Hc. destruct Hc as (r & ->).
      exists r. reflexivity.
  - intros (_ & _ & rest & Hs & Hrest). f_equal. apply andb_true_iff. split.
    + apply StartsWith_spec. eauto.
    + rewrite Hs, str_length_app, char_at_is_app. apply orb_true_iff.
      destruct Hrest as [-> | (r & ->)].
      * left. simpl. apply Nat.eqb_eq. lia.
      * right. simpl. reflexivity.
Qed.

(** X15: every absolute path starts with itself and with the root, and a
    slash at the end of the prefix is of no account. *)
Theorem PathStartsWith_reflexive path :
  StartsWith_char path "/" = true ->
  PathStartsWith path path = Some true
  /\ PathStartsWith path "/" = Some true
  /\ (forall prefix,
        StartsWith_char prefix "/" = true ->
        (forall r, prefix <> r ++ "/") ->
        PathStartsWith path (prefix ++ "/") = PathStartsWith path prefix).
Proof.
  intros Ha. split; [| split].
  - apply PathStartsWith_spec. repeat split; try assumption.
    destruct (ConsumeSuffix_cases path "/") as [H | [H _]].
    + exists "/". split; [exact H | right; exists ""; reflexivity].
    + exists "". rewrite H, str_app_nil_r. auto.
  - apply PathStartsWith_spec. repeat split; try assumption.
    exists path. split; [reflexivity |]. right.
    apply StartsWith_char_spec in Ha. destruct Ha as (r & ->).
    exists r. reflexivity.
  - intros prefix Hp Hn. unfold PathStartsWith.
    assert (ConsumeSuffix (prefix ++ "/") "/" = prefix) as E1.
    { unfold ConsumeSuffix.
      rewrite (proj2 (strip_suffix_spec (prefix ++ "/") "/" prefix) eq_refl).
      reflexivity. }
    assert (ConsumeSuffix prefix "/" = prefix) as E2.
    { destruct (ConsumeSuffix_cases prefix "/") as [H | [H _]]; [| exact H].
      exfalso. exact (Hn _ H). }
    rewrite E1, E2.
    apply StartsWith_char_spec in Hp. destruct Hp as (r & ->).
    destruct path; reflexivity.
Qed.

(** ** Mount points *)
Section ProcMountsFacts.

Variable FstabEntry : Type.
Variable fs_type : FstabEntry -> string.
Variable mount_point : FstabEntry -> string.

Local Abbreviation eligible' := (eligible FstabEntry fs_type mount_point).
Local Abbreviation collect_matches' :=
  (collect_matches FstabEntry fs_type mount_point).
Local Abbreviation GetProcMountsAncestorsOfPath' :=
  (GetProcMountsAncestorsOfPath FstabEntry fs_type mount_point).
Local Abbreviation GetProcMountsDescendantsOfPath' :=
  (GetProcMountsDescendantsOfPath FstabEntry fs_type mount_point).

Lemma collect_matches_total predicate fstab : forall entries,
  (forall entry, In entry fstab -> eligible' entry = true ->
                 predicate (mount_point entry) <> None) ->
  collect_matches' predicate fstab entries
  = Some (entries
          ++ filter (fun entry =>
                       eligible' entry
                       && match predicate (mount_point entry) with
                          | Some true => true
                          | _ => false
                          end) fstab)%list.
Proof.
  induction fstab as [| entry fstab IH]; intros entries Hp; simpl.
  - rewrite app_nil_r. reflexivity.
  - unfold eligible at 1.
    destruct (String.eqb (fs_type entry) "swap"
              || negb (StartsWith_char (mount_point entry) "/")) eqn:E;
      simpl.
    + apply IH. intros e He. apply Hp. right. exact He.
    + destruct (predicate (mount_point entry)) as [[|] |] eqn:Ep.
      * rewrite IH by (intros e He; apply Hp; right; exact He).
        rewrite <- app_assoc. reflexivity.
      * apply IH. intros e He. apply Hp. right. exact He.
      * exfalso. apply (Hp entry (or_introl eq_refl)); [| exact Ep].
        unfold eligible. rewrite E. reflexivity.
Qed.

Lemma collect_matches_aborts predicate fstab : forall entries,
  collect_matches' predicate fstab entries = None
  <-> exists entry, In entry fstab /\ eligible' entry = true
                    /\ predicate (mount_point entry) = None.
Proof.
  induction fstab as [| entry fstab IH]; intros entries; simpl.
  - split; [discriminate | intros (e & [] & _)].
  - destruct (String.eqb (fs_type entry) "swap"
              || negb (StartsWith_char (mount_point entry) "/")) eqn:E.
    + rewrite IH. split.
      * intros (e & He & H). exists e. auto.
      * intros (e & [<- | He] & H1 & H2); [| eauto].
        unfold eligible in H1. rewrite E in H1. discriminate.
    + assert (eligible' entry = true) as Hel
          by (unfold eligible; rewrite E; reflexivity).
      destruct (predicate (mount_point entry)) as [[|] |] eqn:Ep.
      * rewrite IH. split.
        -- intros (e & He & H). exists e. auto.
        -- intros (e & [<- | He] & H1 & H2); [congruence | eauto].
      * rewrite IH. split.
        -- intros (e & He & H). exists e. auto.
        -- intros (e & [<- | He] & H1 & H2); [congruence | eauto].
      * split; [intros _; exists entry; auto | reflexivity].
Qed.

Lemma eligible_absolute entry :
  eligible' entry = true -> StartsWith_char (mount_point entry) "/" = true.
Proof.
  unfold eligible. rewrite negb_true_iff, orb_false_iff, negb_false_iff.
  tauto.
Qed.

(** X16: for an absolute path the two mount-point queries never abort:
    the entries they skip (swap areas and relative mount points) are the
    only ones that could fail the check of [PathStartsWith].  They
    return, in the order of the mount table, the eligible entries whose
    mount point is an ancestor, respectively a descendant, of the path;
    and when the mount table cannot be read they return the error,
    whatever the path. *)
Theorem GetProcMounts_of_absolute_path path fstab :
  StartsWith_char path "/" = true ->
  GetProcMountsAncestorsOfPath' (Some fstab) path
  = Some (Ok (filter (fun entry =>
                        eligible' entry
                        && match PathStartsWith path (mount_point entry) with
                           | Some true => true
                           | _ => false
                           end) fstab))
  /\ GetProcMountsDescendantsOfPath' (Some fstab) path
     = Some (Ok (filter (fun entry =>
                           eligible' entry
                           && match PathStartsWith (mount_point entry) path with
                              | Some true => true
                              | _ => false
                              end) fstab))
  /\ (forall any_path,
        GetProcMountsAncestorsOfPath' None any_path
        = Some (Error "Failed to read fstab from /proc/mounts")
        /\ GetProcMountsDescendantsOfPath' None any_path
           = Some (Error "Failed to read fstab from /proc/mounts")).
Proof.
  intros Ha.
  unfold GetProcMountsAncestorsOfPath, GetProcMountsDescendantsOfPath,
    GetProcMountsMatches.
  split; [| split; [| split; reflexivity]].
  - rewrite collect_matches_total; [reflexivity |].
    intros entry _ He Hn. apply eligible_absolute in He.
    apply PathStartsWith_spec in Hn. destruct Hn; congruence.
  - rewrite collect_matches_total; [reflexivity |].
    intros entry _ He Hn. apply eligible_absolute in He.
    apply PathStartsWith_spec in Hn. destruct Hn; congruence.
Qed.

(** X17: a mount-point query aborts exactly when the mount table was
    read, the path is not absolute and the table has an eligible entry:
    a path that is not absolute goes unnoticed as long as no entry is
    eligible. *)
Theorem GetProcMounts_aborts proc_mounts path :
  (GetProcMountsAncestorsOfPath' proc_mounts path = None
   <-> exists fstab entry,
         proc_mounts = Some fstab
         /\ StartsWith_char path "/" = false
         /\ In entry fstab /\ eligible' entry = true)
  /\ (GetProcMountsDescendantsOfPath' proc_mounts path = None
      <-> exists fstab entry,
            proc_mounts = Some fstab
            /\ StartsWith_char path "/" = false
            /\ In entry fstab /\ eligible' entry = true).
Proof.
  unfold GetProcMountsAncestorsOfPath, GetProcMountsDescendantsOfPath,
    GetProcMountsMatches.
  destruct proc_mounts as [fstab |].
  - split.
    + destruct (collect_matches' (fun mp => PathStartsWith path mp) fstab [])
        eqn:E.
      * split; [discriminate |]. intros (f & e & Hf & Hp & Hin & Hel).
        inversion Hf; subst f.
        assert (collect_matches' (fun mp => PathStartsWith path mp) fstab []
                = None) as Hn; [| congruence].
        apply collect_matches_aborts. exists e. repeat split; try assumption.
        apply PathStartsWith_spec. auto.
      * split; [intros _ | reflexivity].
        apply collect_matches_aborts in E.
        destruct E as (e & Hin & Hel & Hn). exists fstab, e.
        repeat split; try assumption.
        apply PathStartsWith_spec in Hn. destruct Hn as [Hn | Hn];
          [exact Hn |].
        apply eligible_absolute in Hel. congruence.
    + destruct (collect_matches' (fun mp => PathStartsWith mp path) fstab [])
        eqn:E.
      * split; [discriminate |]. intros (f & e & Hf & Hp & Hin & Hel).
        inversion Hf; subst f.
        assert (collect_matches' (fun mp => PathStartsWith mp path) fstab []
                = None) as Hn; [| congruence].
        apply collect_matches_aborts. exists e. repeat split; try assumption.
        apply PathStartsWith_spec. auto.
      * split; [intros _ | reflexivity].
        apply collect_matches_aborts in E.
        destruct E as (e & Hin & Hel & Hn). exists fstab, e.
        repeat split; try assumption.
        apply PathStartsWith_spec in Hn. destruct Hn as [Hn | Hn];
          [| exact Hn].
        apply eligible_absolute in Hel. congruence.
  - split; (split; [discriminate | intros (f & e & Hf & _); discriminate]).
Qed.

End ProcMountsFacts.

(** ** Matching a pattern against a path *)
Section GlobFacts.

Variable fnmatch : string -> string -> Z -> Z.

Local Abbreviation PartialMatch' := (PartialMatch fnmatch).
Local Abbreviation FullMatchRecursive' := (FullMatchRecursive fnmatch).
Local Abbreviation FullMatch' := (FullMatch fnmatch).

(** One element of the pattern matches one element of the path. *)
Local Abbreviation elem_matches :=
  (fun pattern_elem path_elem : string =>
     fnmatch pattern_elem path_elem 0%Z = 0%Z).

Lemma FullMatchRecursive_cons dchecks elem pattern path visited :
  FullMatchRecursive' dchecks (elem :: pattern) path visited
  = if String.eqb elem "**" then
      if dchecks && visited then None
      else
        match FullMatchRecursive' dchecks pattern path true with
        | None => None
        | Some true => Some true
        | Some false =>
            match path with
            | [] => Some false
            | _ :: path' =>
                FullMatchRecursive' dchecks (elem :: pattern) path' false
            end
        end
    else
      match path with
      | [] => Some false
      | path_elem :: path' =>
          if negb (fnmatch elem path_elem 0 =? 0)%Z then Some false
          else FullMatchRecursive' dchecks pattern path' false
      end.
Proof. destruct path; reflexivity. Qed.

Lemma FullMatchRecursive_release pattern : forall path visited,
  exists b,
    FullMatchRecursive' false pattern path visited = Some b
    /\ FullMatchRecursive' false pattern path (negb visited) = Some b.
Proof.
  induction pattern as [| elem pattern IH]; intros path visited.
  - destruct path; simpl; eauto.
  - revert visited. induction path as [| x path IHp]; intros visited.
    + rewrite (FullMatchRecursive_cons false elem pattern [] visited),
        (FullMatchRecursive_cons false elem pattern [] (negb visited)).
      cbn [andb].
      destruct (String.eqb elem "**"); [| eauto].
      destruct (IH [] true) as (b & -> & _). destruct b; eauto.
    + rewrite (FullMatchRecursive_cons false elem pattern (x :: path) visited),
        (FullMatchRecursive_cons false elem pattern (x :: path)
                                 (negb visited)).
      cbn [andb].
      destruct (String.eqb elem "**").
      * destruct (IH (x :: path) true) as (b & -> & _).
        destruct b; [eauto |].
        destruct (IHp false) as (b & -> & _). eauto.
      * destruct (negb (fnmatch elem x 0 =? 0)%Z); [eauto |].
        destruct (IH path false) as (b & -> & _). eauto.
Qed.

Lemma FullMatchRecursive_release_flag pattern path visited visited' :
  FullMatchRecursive' false pattern path visited
  = FullMatchRecursive' false pattern path visited'.
Proof.
  destruct (FullMatchRecursive_release pattern path visited)
    as (b & H1 & H2).
  destruct visited, visited'; simpl in H2; congruence.
Qed.

(** X18: for a pattern without ["**"], [FullMatch] never aborts and
    answers true exactly when pattern and path have the same number of
    elements and each element of the path matches the element of the
    pattern at its place. *)
Theorem FullMatch_elementwise dchecks pattern path :
  no_double_asterisk pattern = true ->
  exists b,
    FullMatch' dchecks pattern path = Some b
    /\ (b = true <-> Forall2 elem_matches pattern path).
Proof.
  unfold FullMatch. generalize false as visited. revert path.
  induction pattern as [| elem pattern IH]; intros path visited Hn.
  - destruct path; simpl.
    + exists true. split; [reflexivity |]. split; [constructor | reflexivity].
    + exists false. split; [reflexivity |].
      split; [discriminate | intros H; inversion H].
  - simpl in Hn. apply andb_true_iff in Hn. destruct Hn as [He Hn].
    apply negb_true_iff in He. rewrite FullMatchRecursive_cons, He.
    destruct path as [| x path].
    + exists false. split; [reflexivity |].
      split; [discriminate | intros H; inversion H].
    + destruct (fnmatch elem x 0 =? 0)%Z eqn:Ef; simpl.
      * destruct (IH path false Hn) as (b & -> & Hb). exists b.
        split; [reflexivity |]. rewrite Hb. apply Z.eqb_eq in Ef.
        split; [intros H; constructor; assumption
               | intros H; inversion H; assumption].
      * exists false. split; [reflexivity |].
        split; [discriminate |]. intros H. inversion H; subst.
        apply Z.eqb_neq in Ef. contradiction.
Qed.

(** X19: a directory on the way to a matching file is never pruned: if a
    path fully matches a pattern, every leading part of the path
    partially matches it. *)
Theorem FullMatch_implies_PartialMatch dchecks pattern path_prefix rest :
  FullMatch fnmatch dchecks pattern (path_prefix ++ rest) = Some true ->
  PartialMatch fnmatch pattern path_prefix = true.
Proof.
  unfold FullMatch. generalize false as visited. revert path_prefix.
  induction pattern as [| elem pattern IH]; intros path_prefix visited H.
  - destruct path_prefix; [reflexivity | discriminate].
  - destruct path_prefix as [| x path_prefix]; [reflexivity |].
    rewrite FullMatchRecursive_cons in H. simpl.
    destruct (String.eqb elem "**"); [reflexivity |].
    cbn [app] in H.
    destruct (negb (fnmatch elem x 0 =? 0)%Z); [discriminate |].
    exact (IH path_prefix false H).
Qed.

Lemma FullMatch_double_asterisk_release post : forall path,
  FullMatchRecursive' false ("**" :: post) path false = Some true
  <-> exists mid b,
        path = (mid ++ b)%list
        /\ FullMatchRecursive' false post b false = Some true.
Proof.
  induction path as [| x path IH].
  - rewrite FullMatchRecursive_cons. cbn [String.eqb Ascii.eqb Bool.eqb andb].
    rewrite (FullMatchRecursive_release_flag post [] true false).
    destruct (FullMatchRecursive_release post [] false) as (b & Hb & _).
    rewrite Hb. split.
    + destruct b; [| discriminate]. intros _. exists [], []. auto.
    + intros (mid & b' & Hp & Hm). symmetry in Hp.
      apply app_eq_nil in Hp. destruct Hp as [-> ->].
      rewrite Hb in Hm. inversion Hm; subst. reflexivity.
  - rewrite FullMatchRecursive_cons. cbn [String.eqb Ascii.eqb Bool.eqb andb].
    rewrite (FullMatchRecursive_release_flag post (x :: path) true false).
    destruct (FullMatchRecursive_release post (x :: path) false)
      as (b & Hb & _).
    rewrite Hb. destruct b.
    + split; [intros _ | reflexivity]. exists [], (x :: path). auto.
    + rewrite IH. split.
      * intros (mid & b & -> & Hm). exists (x :: mid), b. auto.
      * intros (mid & b & Hp & Hm). destruct mid as [| y mid].
        -- simpl in Hp. subst b. congruence.
        -- inversion Hp; subst. eauto.
Qed.

(** X20: without [DCHECK], ["**"] stands for any number of path elements,
    none included: a pattern made of a part without ["**"], then ["**"],
    then a rest fully matches a path exactly when the path splits into
    elements matching the first part one by one, any elements at all,
    and a path that fully matches the rest. *)
Theorem FullMatch_double_asterisk pre post path :
  no_double_asterisk pre = true ->
  FullMatch' false (pre ++ "**" :: post) path = Some true
  <-> exists a mid b,
        path = (a ++ mid ++ b)%list
        /\ Forall2 elem_matches pre a
        /\ FullMatch' false post b = Some true.
Proof.
  unfold FullMatch. revert path.
  induction pre as [| elem pre IH]; intros path Hn.
  - cbn [app]. rewrite FullMatch_double_asterisk_release. split.
    + intros (mid & b & -> & H). exists [], mid, b.
      split; [reflexivity | split; [constructor | exact H]].
    + intros (a & mid & b & -> & Ha & H). inversion Ha; subst.
      exists mid, b. auto.
  - simpl in Hn. apply andb_true_iff in Hn. destruct Hn as [He Hn].
    apply negb_true_iff in He. cbn [app].
    rewrite FullMatchRecursive_cons, He.
    destruct path as [| x path].
    + split; [discriminate |].
      intros (a & mid & b & Hp & Ha & _). inversion Ha; subst. discriminate.
    + destruct (fnmatch elem x 0 =? 0)%Z eqn:Ef; simpl.
      * rewrite (IH path Hn). apply Z.eqb_eq in Ef. split.
        -- intros (a & mid & b & -> & Ha & H). exists (x :: a), mid, b.
           split; [reflexivity | split; [constructor; assumption | exact H]].
        -- intros (a & mid & b & Hp & Ha & H).
           inversion Ha as [| ? y ? a' Hy Ha']; subst.
           inversion Hp; subst. exists a', mid, b. auto.
      * split; [discriminate |].
        intros (a & mid & b & Hp & Ha & _). inversion Ha; subst.
        inversion Hp; subst. apply Z.eqb_neq in Ef. contradiction.
Qed.

Lemma FullMatchRecursive_debug pattern : forall path visited,
  no_adjacent_double_asterisk pattern = true ->
  (visited = true ->
   match pattern with
   | elem :: _ => String.eqb elem "**" = false
   | [] => True
   end) ->
  FullMatchRecursive' true pattern path visited
  = FullMatchRecursive' false pattern path visited.
Proof.
  induction pattern as [| elem pattern IH]; intros path visited Hn Hv.
  - reflexivity.
  - cbn [no_adjacent_double_asterisk] in Hn.
    apply andb_true_iff in Hn. destruct Hn as [Ha Hn].
    apply negb_true_iff in Ha.
    revert visited Hv. induction path as [| x path IHp]; intros visited Hv.
    + rewrite (FullMatchRecursive_cons true elem pattern [] visited),
        (FullMatchRecursive_cons false elem pattern [] visited).
      destruct (String.eqb elem "**") eqn:Ee; [| reflexivity].
      destruct visited; [specialize (Hv eq_refl); discriminate |].
      cbn [andb]. rewrite IH; [reflexivity | exact Hn |].
      intros _. destruct pattern; [exact I |]. exact Ha.
    + rewrite (FullMatchRecursive_cons true elem pattern (x :: path) visited),
        (FullMatchRecursive_cons false elem pattern (x :: path) visited).
      destruct (String.eqb elem "**") eqn:Ee.
      * destruct visited; [specialize (Hv eq_refl); discriminate |].
        cbn [andb]. rewrite IH; [| exact Hn |].
        -- rewrite (IHp false); [reflexivity | discriminate].
        -- intros _. destruct pattern; [exact I |]. exact Ha.
      * destruct (negb (fnmatch elem x 0 =? 0)%Z); [reflexivity |].
        apply IH; [exact Hn | discriminate].
Qed.

(** X21: without [DCHECK], [FullMatch] always answers.  With it, it
    answers the same whenever no two neighbouring elements of the
    pattern are both ["**"], and it aborts, whatever the path, on a
    pattern that begins with two of them. *)
Theorem FullMatch_DCHECK pattern path :
  FullMatch' false pattern path <> None
  /\ (no_adjacent_double_asterisk pattern = true ->
      FullMatch' true pattern path = FullMatch' false pattern path)
  /\ FullMatch' true ("**" :: "**" :: pattern) path = None.
Proof.
  unfold FullMatch. split; [| split].
  - destruct (FullMatchRecursive_release pattern path false) as (b & -> & _).
    discriminate.
  - intros Hn. apply FullMatchRecursive_debug; [exact Hn | discriminate].
  - rewrite FullMatchRecursive_cons.
    cbn [String.eqb Ascii.eqb Bool.eqb andb].
    rewrite FullMatchRecursive_cons. reflexivity.
Qed.

(** X22: [PartialMatch] looks at the pattern up to its first ["**"] only.
    Against a pattern without ["**"], a path prefix partially matches
    exactly when it is no longer than the pattern and its elements match
    the first elements of the pattern one by one; when a ["**"] follows
    that part, the elements of the prefix beyond it are not looked at. *)
Theorem PartialMatch_spec pre post path_prefix :
  no_double_asterisk pre = true ->
  (PartialMatch' pre path_prefix = true
   <-> Forall2 elem_matches (firstn (length path_prefix) pre) path_prefix)
  /\ (PartialMatch' (pre ++ "**" :: post) path_prefix = true
      <-> Forall2 elem_matches (firstn (length path_prefix) pre)
                               (firstn (length pre) path_prefix)).
Proof.
  revert path_prefix.
  induction pre as [| elem pre IH]; intros path_prefix Hn.
  - destruct path_prefix as [| x path_prefix]; simpl.
    + split; (split; [constructor | reflexivity]).
    + split; [split; [discriminate | intros H; inversion H] |].
      split; [constructor | reflexivity].
  - simpl in Hn. apply andb_true_iff in Hn. destruct Hn as [He Hn].
    apply negb_true_iff in He.
    destruct path_prefix as [| x path_prefix]; simpl.
    + split; (split; [constructor | reflexivity]).
    + rewrite He. destruct (IH path_prefix Hn) as [IH1 IH2].
      destruct (fnmatch elem x 0 =? 0)%Z eqn:Ef; simpl.
      * apply Z.eqb_eq in Ef. rewrite IH1, IH2.
        split; (split; [intros H; constructor; assumption
                       | intros H; inversion H; assumption]).
      * apply Z.eqb_neq in Ef.
        split; (split; [discriminate
                       | intros H; inversion H; subst; contradiction]).
Qed.

End GlobFacts.

(** * The further properties on the concrete units, paths and mounts *)

Lemma unmatched_classes_only_types_witness :
  strings_ (CollectAccesses Scenario.hidden_api ToInternalName_model
              Scenario.method_name Scenario.field_name Scenario.resolver
              Scenario.no_class empty_finder) = []
  /\ method_locations_
       (CollectAccesses Scenario.hidden_api ToInternalName_model
          Scenario.method_name Scenario.field_name Scenario.resolver
          Scenario.no_class empty_finder) = [].
Proof.
  destruct (unmatched_classes_only_types Scenario.hidden_api
              ToInternalName_model Scenario.method_name Scenario.field_name
              Scenario.resolver Scenario.no_class empty_finder
              (fun _ _ => eq_refl)) as (Hs & _ & Hm & _).
  split; [exact Hs | exact Hm].
Defined.

Lemma locations_nonempty_after_run_witness :
  locations_nonempty Scenario.scanned.
Proof.
  destruct (locations_nonempty_after_run Scenario.hidden_api
              ToInternalName_model Scenario.method_name Scenario.field_name
              [Scenario.resolver] Scenario.all_classes)
    as (Hempty & Hrun & _).
  exact (Hrun empty_finder Hempty).
Defined.

Lemma dump_counters_witness :
  total (api_counts
           (snd (Dump Scenario.hidden_api (fun x => x) Scenario.print_list
                      Scenario.reference_name "" Scenario.fresh_stats true
                      Scenario.scanned)))
  = 2%N.
Proof.
  destruct (dump_counters Scenario.hidden_api (fun x => x)
              Scenario.print_list Scenario.reference_name ""
              Scenario.fresh_stats true Scenario.scanned)
    as (_ & _ & _ & _ & H).
  rewrite H; [reflexivity |]. intros name. simpl. lia.
Defined.

Lemma dump_state_effect_witness :
  fst (fst (Dump Scenario.hidden_api (fun x => x) Scenario.print_list
                 Scenario.reference_name "" Scenario.fresh_stats false
                 Scenario.scanned))
  = Scenario.scanned.
Proof.
  destruct (dump_state_effect Scenario.hidden_api (fun x => x)
              Scenario.print_list Scenario.reference_name ""
              Scenario.fresh_stats false Scenario.scanned)
    as (_ & _ & _ & _ & _ & _ & H).
  exact (H eq_refl).
Defined.

Lemma dump_reports_nothing_witness :
  Dump Fixtures.app_only (fun x => x) Scenario.print_list
       Scenario.reference_name "" Scenario.fresh_stats true Scenario.scanned
  = (Scenario.scanned, "", Scenario.fresh_stats).
Proof.
  exact (dump_reports_nothing Fixtures.app_only (fun x => x)
           Scenario.print_list Scenario.reference_name ""
           Scenario.fresh_stats true Scenario.scanned
           (fun _ => or_introl eq_refl)).
Defined.

Lemma DumpReferences_accounts_for_all_witness :
  In ("La/B;->m()V", 2%N)
     (count_references Scenario.reference_name [mkRef 0 1; mkRef 0 2])
  /\ (1 <= 2)%N.
Proof.
  assert (In ("La/B;->m()V", 2%N)
             (count_references Scenario.reference_name
                               [mkRef 0 1; mkRef 0 2])) as Hin
      by (left; reflexivity).
  split; [exact Hin |].
  destruct (DumpReferences_accounts_for_all Scenario.reference_name ""
              [mkRef 0 1; mkRef 0 2]) as (_ & H & _).
  exact (H _ _ Hin).
Defined.

Lemma unit_order_irrelevant_witness :
  snd (fst (Dump Scenario.hidden_api (fun x => x) Scenario.print_list
                 Scenario.reference_name "" Scenario.fresh_stats true
                 (Run Scenario.hidden_api ToInternalName_model
                      Scenario.method_name Scenario.field_name
                      [Scenario.resolver; mkResolver Scenario.literals_unit]
                      Scenario.all_classes empty_finder)))
  = snd (fst (Dump Scenario.hidden_api (fun x => x) Scenario.print_list
                   Scenario.reference_name "" Scenario.fresh_stats true
                   (Run Scenario.hidden_api ToInternalName_model
                        Scenario.method_name Scenario.field_name
                        [mkResolver Scenario.literals_unit; Scenario.resolver]
                        Scenario.all_classes empty_finder))).
Proof.
  destruct (unit_order_irrelevant Scenario.hidden_api ToInternalName_model
              Scenario.method_name Scenario.field_name (fun x => x)
              Scenario.print_list Scenario.reference_name
              [Scenario.resolver; mkResolver Scenario.literals_unit]
              [mkResolver Scenario.literals_unit; Scenario.resolver]
              Scenario.all_classes empty_finder "" Scenario.fresh_stats true
              (perm_swap _ _ _) empty_finder_ok)
    as (_ & _ & _ & _ & _ & H & _).
  exact H.
Defined.

Lemma EscapeGlob_injective_witness :
  EscapeGlob "a[1]*" = "a[[]1][*]" /\ "a[1]*" = "a[1]*".
Proof.
  split; [reflexivity |].
  exact (EscapeGlob_injective "a[1]*" "a[1]*" eq_refl).
Defined.

Lemma PathStartsWith_reflexive_witness :
  PathStartsWith "/data/app" "/data/app" = Some true
  /\ PathStartsWith "/data/app" "/" = Some true
  /\ PathStartsWith "/data/app" "/data/" = PathStartsWith "/data/app" "/data".
Proof.
  destruct (PathStartsWith_reflexive "/data/app" eq_refl)
    as (H1 & H2 & H3).
  split; [exact H1 | split; [exact H2 |]].
  apply (H3 "/data" eq_refl). intros r Hr.
  apply strip_suffix_spec in Hr. discriminate.
Defined.

Lemma GetProcMounts_of_absolute_path_witness :
  GetProcMountsDescendantsOfPath Mounts.entry Mounts.type Mounts.point
    (Some Mounts.table) "/data"
  = Some (Ok [Mounts.mkEntry "tmpfs" "/data" "tmpfs";
              Mounts.mkEntry "/dev/block/dm-1" "/data/app" "f2fs"]).
Proof.
  destruct (GetProcMounts_of_absolute_path Mounts.entry Mounts.type
              Mounts.point "/data" Mounts.table eq_refl) as (_ & H & _).
  rewrite H. reflexivity.
Defined.

Lemma FullMatch_elementwise_witness :
  FullMatch Mounts.literal_fnmatch true ["/"; "data"; "*"]
            ["/"; "data"; "app"] = Some true.
Proof.
  destruct (FullMatch_elementwise Mounts.literal_fnmatch true
              ["/"; "data"; "*"] ["/"; "data"; "app"] eq_refl)
    as (b & Hb & Hiff).
  rewrite Hb. f_equal. apply Hiff. repeat constructor.
Defined.

Lemma FullMatch_implies_PartialMatch_witness :
  PartialMatch Mounts.literal_fnmatch ["/"; "data"; "**"; "base.apk"]
               ["/"; "data"; "app"] = true.
Proof.
  exact (FullMatch_implies_PartialMatch Mounts.literal_fnmatch true
           ["/"; "data"; "**"; "base.apk"] ["/"; "data"; "app"]
           ["x"; "base.apk"] eq_refl).
Defined.

Lemma FullMatch_double_asterisk_witness :
  FullMatch Mounts.literal_fnmatch false ["/"; "data"; "**"; "base.apk"]
            ["/"; "data"; "app"; "x"; "base.apk"] = Some true.
Proof.
  apply (FullMatch_double_asterisk Mounts.literal_fnmatch ["/"; "data"]
           ["base.apk"] ["/"; "data"; "app"; "x"; "base.apk"] eq_refl).
  exists ["/"; "data"], ["app"; "x"], ["base.apk"].
  split; [reflexivity | split; [repeat constructor | reflexivity]].
Defined.

Lemma FullMatch_DCHECK_witness :
  FullMatch Mounts.literal_fnmatch true ["/"; "**"; "a"; "**"]
            ["/"; "x"; "a"]
  = FullMatch Mounts.literal_fnmatch false ["/"; "**"; "a"; "**"]
              ["/"; "x"; "a"].
Proof.
  destruct (FullMatch_DCHECK Mounts.literal_fnmatch ["/"; "**"; "a"; "**"]
              ["/"; "x"; "a"]) as (_ & H & _).
  exact (H eq_refl).
Defined.

Lemma PartialMatch_spec_witness :
  PartialMatch Mounts.literal_fnmatch ["/"; "data"] ["/"; "data"; "app"]
  = false.
Proof.
  destruct (PartialMatch_spec Mounts.literal_fnmatch ["/"; "data"] []
              ["/"; "data"; "app"] eq_refl) as ((H & _) & _).
  destruct (PartialMatch Mounts.literal_fnmatch ["/"; "data"]
                         ["/"; "data"; "app"]); [| reflexivity].
  specialize (H eq_refl). inversion H as [| ? ? ? ? _ Ha].
  inversion Ha as [| ? ? ? ? _ Hb]. inversion Hb.
Defined.

(** ** The report, worded without the counting loop *)

Lemma insert_in_order_In s l x :
  In x (insert_in_order s l) <-> x = s \/ In x l.
Proof.
  induction l as [| a l IH]; cbn [insert_in_order].
  - simpl. split; intros [H | H]; auto; destruct H.
  - destruct (String_as_OT.compare s a); cbn [In]; rewrite ?IH;
      split; intros H; repeat destruct H as [H | H]; auto.
Qed.

Lemma sort_strings_In l x : In x (sort_strings l) <-> In x l.
Proof.
  induction l as [| a l IH]; [reflexivity |].
  unfold sort_strings. cbn [fold_right]. fold (sort_strings l).
  rewrite insert_in_order_In, IH. cbn [In].
  split; intros [H | H]; auto.
Qed.

Lemma insert_in_order_HdRel a s l :
  str_lt a s -> HdRel str_lt a l -> HdRel str_lt a (insert_in_order s l).
Proof.
  intros Has Hl. destruct l as [| z l]; cbn [insert_in_order].
  - constructor; assumption.
  - inversion Hl; subst.
    destruct (String_as_OT.compare s z); constructor; assumption.
Qed.

Lemma insert_in_order_sorted s l :
  Sorted str_lt l -> ~ In s l -> Sorted str_lt (insert_in_order s l).
Proof.
  induction 1 as [| z l Hs IH Hh]; cbn [insert_in_order]; intros Hnot.
  - repeat constructor.
  - destruct (String_as_OT.compare s z) eqn:E.
    + exfalso. apply Hnot. left. symmetry. apply compare_Eq. exact E.
    + constructor; [constructor; assumption | constructor; exact E].
    + apply compare_Gt in E.
      constructor;
        [ apply IH; intros Hin; apply Hnot; right; exact Hin
        | apply insert_in_order_HdRel; assumption ].
Qed.

Lemma sort_strings_sorted l : NoDup l -> Sorted str_lt (sort_strings l).
Proof.
  induction 1 as [| a l Hnot Hnd IH]; [constructor |].
  unfold sort_strings. cbn [fold_right]. fold (sort_strings l).
  apply insert_in_order_sorted; [exact IH |].
  rewrite sort_strings_In. exact Hnot.
Qed.

Lemma distinct_sorted_sorted texts : Sorted str_lt (distinct_sorted texts).
Proof. apply sort_strings_sorted, NoDup_nodup. Qed.

Lemma distinct_sorted_In texts x :
  In x (distinct_sorted texts) <-> In x texts.
Proof. unfold distinct_sorted. rewrite sort_strings_In. apply nodup_In. Qed.

(** A map whose values are a function of their keys is determined by its
    keys. *)
Lemma entries_of_keys {V : Type} (f : string -> V) (m : StdMap.t V) :
  (forall k v, In (k, v) m -> v = f k) ->
  m = map (fun k => (k, f k)) (StdMap.keys m).
Proof.
  induction m as [| [k v] m IH]; intros H; [reflexivity |].
  cbn [StdMap.keys map fst]. f_equal.
  - rewrite (H k v); [reflexivity | left; reflexivity].
  - apply IH. intros k' v' Hin. apply H. right. exact Hin.
Qed.

Section ReportWordingFacts.

Context {ApiList : Type}.
Variable hidden_api_ : HiddenApi ApiList.
Variable print_ApiList : ApiList -> string.
Variable GetApiMethodName_ref : MethodReference -> string.

(** The keys of the counting map of [DumpReferences] are the distinct
    textual forms in ascending order. *)
Lemma count_references_keys_distinct refs :
  StdMap.keys (count_references GetApiMethodName_ref refs)
  = distinct_sorted (map GetApiMethodName_ref refs).
Proof.
  destruct (count_references_spec GetApiMethodName_ref refs)
    as (Hok & Hkeys & _).
  apply sorted_ext; [exact Hok | apply distinct_sorted_sorted |].
  intros x. rewrite Hkeys, distinct_sorted_In. reflexivity.
Qed.

Lemma location_lines_reference_lines refs :
  location_lines GetApiMethodName_ref refs
  = reference_lines GetApiMethodName_ref refs.
Proof.
  unfold location_lines, reference_lines. cbn zeta.
  destruct (count_references_spec GetApiMethodName_ref refs)
    as (_ & _ & Hcount).
  rewrite (entries_of_keys
             (fun k => N.of_nat (count_occ string_dec
                                   (map GetApiMethodName_ref refs) k))
             (count_references GetApiMethodName_ref refs) Hcount).
  rewrite map_map, count_references_keys_distinct. reflexivity.
Qed.

Lemma render_findings_report_findings fs : forall n,
  render_findings hidden_api_ print_ApiList GetApiMethodName_ref n fs
  = report_findings hidden_api_ print_ApiList GetApiMethodName_ref n fs.
Proof.
  induction fs as [| f fs IH]; intros n; [reflexivity |].
  cbn [render_findings report_findings].
  unfold render_finding, report_finding.
  rewrite location_lines_reference_lines, IH. reflexivity.
Qed.

End ReportWordingFacts.

(** C2: with reflection output enabled, the report is the linking
    findings followed by one reflection finding per visited pair, in the
    order of the visits; a pair (class, literal) is visited if and only
    if the class is in the class set, the literal in the string set, and
    the candidate [class->literal] is attributed to a source other than
    the application and is report-eligible.  The finding of a visited
    pair is headed by the candidate, and its location lines are those of
    the reflection locations recorded for the literal, whatever the
    class: one line per distinct textual form of these call sites, in
    ascending order, with the number of occurrences when above one. *)
Theorem reflection_pass_candidates {ApiList : Type}
    (hidden_api_ : HiddenApi ApiList) (GetIntValue : ApiList -> N)
    (print_ApiList : ApiList -> string)
    (GetApiMethodName_ref : MethodReference -> string)
    (os : string) (stats : HiddenApiStats) (st : HiddenApiFinder) :
  snd (fst (Dump hidden_api_ GetIntValue print_ApiList GetApiMethodName_ref
                 os stats true st))
  = os ++ report_findings hidden_api_ print_ApiList GetApiMethodName_ref
            (count stats)
            (linking_findings hidden_api_ (method_locations_ st)
             ++ linking_findings hidden_api_ (field_locations_ st)
             ++ map (fun pair =>
                       mkFinding Reflection (fst pair ++ "->" ++ snd pair)
                         (StdMap.at_ [] (snd pair)
                                     (reflection_locations_ st)))
                    (reflection_visits hidden_api_ st))%list
  /\ (forall cls name,
        In (cls, name) (reflection_visits hidden_api_ st)
        <-> In cls (classes_ st) /\ In name (strings_ st)
            /\ GetSignatureSource hidden_api_ (cls ++ "->" ++ name) <> APP
            /\ ShouldReport hidden_api_ (cls ++ "->" ++ name) = true)
  /\ (forall n cls name,
        report_finding hidden_api_ print_ApiList GetApiMethodName_ref n
          (mkFinding Reflection (cls ++ "->" ++ name)
             (StdMap.at_ [] name (reflection_locations_ st)))
        = "#" ++ dec n ++ ": Reflection "
          ++ print_ApiList (GetApiList hidden_api_ (cls ++ "->" ++ name))
          ++ " " ++ cls ++ "->" ++ name ++ " potential use(s):" ++ endl
          ++ reference_lines GetApiMethodName_ref
               (match StdMap.find name (reflection_locations_ st) with
                | Some refs => refs
                | None => []
                end)
          ++ endl).
Proof.
  split; [| split].
  - rewrite Dump_text, render_findings_report_findings. unfold findings.
    rewrite reflection_findings_visits. reflexivity.
  - intros cls name. unfold reflection_visits.
    rewrite filter_In, in_prod_iff, reported_iff. unfold candidate.
    cbn [fst snd]. split.
    + intros [[Hc Hs] [Ha Hr]]. repeat split; assumption.
    + intros (Hc & Hs & Ha & Hr). repeat split; assumption.
  - intros n cls name. unfold report_finding, header.
    cbn [kind api_name locations]. unfold StdMap.at_.
    rewrite !str_app_assoc. reflexivity.
Qed.

(** C1: a string-constant load in the wide form, const-string/jumbo, of
    a literal without a space, in a method of a class that passes the
    filter, has none of the three effects: the scan takes the [default]
    branch of the switch, so the literal reaches neither the string set
    nor the reflection locations, and the class set holds the type table
    only.  The same method with the short form records the literal and
    its call site.  The comment of the scan says that the string
    constants referenced in code items are collected, and the invoke
    cases name both forms of each invoke. *)
Theorem const_string_jumbo_records_nothing :
  GetStringView (Jumbo.unit_with CONST_STRING_JUMBO) 3 = "secretField"
  /\ has_space "secretField" = false
  /\ Matches Scenario.all_classes "La/B;" = true
  /\ Jumbo.scanned_with CONST_STRING_JUMBO
     = mkFinder ["I"; "La/B;"] [] [] [] []
  /\ Jumbo.scanned_with CONST_STRING
     = mkFinder ["I"; "La/B;"] ["secretField"]
                [("secretField", [Jumbo.site])] [] [].
Proof. repeat split; vm_compute; reflexivity. Qed.
